(** * Payment instruction parser and processor

    A shallow embedding of [services/payment-processor/parse-instruction.js]
    (the service behind [POST /payment-instructions]) and the properties of
    its instruction scanner and of its validation chain.

    Modelling conventions.
    - A JavaScript string is a [list ascii]; the model covers 7-bit ASCII
      text, where [toLowerCase]/[toUpperCase] only touch the letters and
      [trim] strips TAB, LF, VT, FF, CR and SPACE.
    - A JavaScript number is a double.  Account balances are integers, as
      the data model has them, and amounts come from [parseInt], so the
      doubles the service meets are integer-valued ones, the two infinities
      and [NaN]: an integer-valued double is kept as its value in [Z], and
      [parseInt], [+] and [-] round their exact result to the nearest
      double.
    - [indexOf] returns [option nat]: [None] stands for [-1].
    - [null] is [None].
    - The system clock ([new Date()]) is a field of the [World] in which a
      call runs; the message table [PaymentMessages] is a parameter. *)

From Stdlib Require Import Ascii String DecimalString.
From Stdlib Require Import List ZArith Lia Bool Arith Permutation.
Import ListNotations.

Local Open Scope list_scope.
Local Open Scope char_scope.

(** ** JavaScript strings *)

Definition str := list ascii.

(** A string literal. *)
Definition js (s : string) : str := list_ascii_of_string s.

Definition code (c : ascii) : nat := nat_of_ascii c.

(** [a <= c && c <= b] on single characters. *)
Definition char_between (a b c : ascii) : bool :=
  (code a <=? code c)%nat && (code c <=? code b)%nat.

Definition is_ws (c : ascii) : bool :=
  let n := code c in
  ((9 <=? n) && (n <=? 13))%nat || (n =? 32)%nat.

Definition is_digit (c : ascii) : bool := char_between "0" "9" c.

Definition lower_char (c : ascii) : ascii :=
  if char_between "A" "Z" c then ascii_of_nat (code c + 32) else c.

Definition upper_char (c : ascii) : ascii :=
  if char_between "a" "z" c then ascii_of_nat (code c - 32) else c.

Definition toLowerCase (s : str) : str := map lower_char s.
Definition toUpperCase (s : str) : str := map upper_char s.

Fixpoint str_eqb (a b : str) : bool :=
  match a, b with
  | [], [] => true
  | x :: a', y :: b' => Ascii.eqb x y && str_eqb a' b'
  | _, _ => false
  end.

Fixpoint dropWhile {A} (f : A -> bool) (l : list A) : list A :=
  match l with
  | [] => []
  | x :: t => if f x then dropWhile f t else l
  end.

Fixpoint takeWhile {A} (f : A -> bool) (l : list A) : list A :=
  match l with
  | [] => []
  | x :: t => if f x then x :: takeWhile f t else []
  end.

Definition trimStart (s : str) : str := dropWhile is_ws s.

(** [s.trim()] *)
Definition trim (s : str) : str := rev (trimStart (rev (trimStart s))).

(** [s] begins with [p]. *)
Fixpoint prefixb (p s : str) : bool :=
  match p, s with
  | [], _ => true
  | _ :: _, [] => false
  | x :: p', y :: s' => Ascii.eqb x y && prefixb p' s'
  end.

(** Position of the first occurrence of [kw] in [s]. *)
Fixpoint find_sub (kw s : str) : option nat :=
  if prefixb kw s then Some 0%nat
  else match s with
       | [] => None
       | _ :: t => option_map S (find_sub kw t)
       end.

(** [s.indexOf(kw, from)] for a non-empty [kw]. *)
Definition indexOf (s kw : str) (from : nat) : option nat :=
  option_map (Nat.add from) (find_sub kw (skipn from s)).

(** [i === -1] *)
Definition notFound (i : option nat) : bool :=
  match i with
  | None => true
  | Some _ => false
  end.

(** [s.substring(a, b)]: the arguments are swapped when [a > b] and clamped
    to the length of [s]. *)
Definition substring (s : str) (a b : nat) : str :=
  firstn (Nat.max a b - Nat.min a b) (skipn (Nat.min a b) s).

(** [s.substring(a)] *)
Definition substringFrom (s : str) (a : nat) : str := skipn a s.

(** [s.split(sep)] for a one-character separator. *)
Fixpoint split (sep : ascii) (s : str) : list str :=
  match s with
  | [] => [[]]
  | c :: t =>
      if Ascii.eqb c sep then [] :: split sep t
      else match split sep t with
           | w :: ws => (c :: w) :: ws
           | [] => [[c]]
           end
  end.

Definition nonEmpty (t : str) : bool := (0 <? length t)%nat.

(** ** JavaScript numbers

    A Number is a double.  The ones the service meets are integer-valued,
    infinite or [NaN]; [Num z] is the double whose value is the integer
    [z].  [-0] is not told from [0]: no operation of the service tells
    them apart. *)

Inductive JsNumber : Type :=
| NaN
| Num (z : Z)
| Infinity (negative : bool).

(** [2^53]: every integer up to it in absolute value is a double. *)
Definition maxSafe : Z := 9007199254740992.

(** The integer nearest to [z] with 53 significant bits, ties going to the
    even significand. *)
Definition roundToDouble (z : Z) : Z :=
  if (Z.abs z <=? maxSafe)%Z then z
  else
    let a := Z.abs z in
    let dropped := (Z.log2 a - 52)%Z in
    let q := Z.shiftr a dropped in
    let rest := (a - Z.shiftl q dropped)%Z in
    let half := Z.shiftl 1 (dropped - 1) in
    let q' :=
      if (half <? rest)%Z || ((rest =? half)%Z && Z.odd q) then (q + 1)%Z
      else q in
    (Z.sgn z * Z.shiftl q' dropped)%Z.

(** The Number value of an integer: the nearest double, an infinity when
    that is [2^1024] or more. *)
Definition toNumber (z : Z) : JsNumber :=
  let r := roundToDouble z in
  if (Z.abs r <? 2 ^ 1024)%Z then Num r else Infinity (z <? 0)%Z.

Definition js_lt (a b : JsNumber) : bool :=
  match a, b with
  | Num x, Num y => (x <? y)%Z
  | Num _, Infinity negative => negb negative
  | Infinity negative, Num _ => negative
  | Infinity n1, Infinity n2 => n1 && negb n2
  | _, _ => false
  end.

Definition js_gt (a b : JsNumber) : bool := js_lt b a.

Definition js_eq (a b : JsNumber) : bool :=
  match a, b with
  | Num x, Num y => (x =? y)%Z
  | Infinity n1, Infinity n2 => Bool.eqb n1 n2
  | _, _ => false
  end.

(** [a + b]: the exact sum, rounded. *)
Definition js_add (a b : JsNumber) : JsNumber :=
  match a, b with
  | Num x, Num y => toNumber (x + y)
  | Num _, Infinity n | Infinity n, Num _ => Infinity n
  | Infinity n1, Infinity n2 => if Bool.eqb n1 n2 then Infinity n1 else NaN
  | _, _ => NaN
  end.

(** [a - b]: the exact difference, rounded. *)
Definition js_sub (a b : JsNumber) : JsNumber :=
  match a, b with
  | Num x, Num y => toNumber (x - y)
  | Num _, Infinity n => Infinity (negb n)
  | Infinity n, Num _ => Infinity n
  | Infinity n1, Infinity n2 => if Bool.eqb n1 n2 then NaN else Infinity n1
  | _, _ => NaN
  end.

Definition digit_value (c : ascii) : Z := Z.of_nat (code c - code "0").

(** Value of a run of decimal digits, most significant first. *)
Definition digits_value (ds : str) : Z :=
  fold_left (fun acc c => 10 * acc + digit_value c)%Z ds 0%Z.

(** [parseInt(s, 10)]: leading white space, an optional sign, then the
    longest run of digits, whose value is rounded to a double; [NaN] when
    that run is empty. *)
Definition parseInt (s : str) : JsNumber :=
  let s1 := trimStart s in
  let '(neg, s2) :=
    match s1 with
    | "-" :: t => (true, t)
    | "+" :: t => (false, t)
    | _ => (false, s1)
    end in
  match takeWhile is_digit s2 with
  | [] => NaN
  | ds => toNumber (if neg then - digits_value ds else digits_value ds)%Z
  end.

(** The decimal digits of an integer. *)
Definition decimal (z : Z) : str := js (NilZero.string_of_int (Z.to_int z)).

(** The digit strings of [k] digits that identify the double [x > 0]:
    pairs [(s, n)] with [10^(k-1) <= s < 10^k] and [s * 10^(n-k)] rounding
    to [x]. *)
Definition digitCandidates (x k : Z) : list (Z * Z) :=
  let digits := Z.of_nat (length (decimal x)) in
  flat_map
    (fun n =>
       if (n <? k)%Z then []
       else
         let p := (10 ^ (n - k))%Z in
         filter
           (fun c =>
              (10 ^ (k - 1) <=? fst c)%Z && (fst c <? 10 ^ k)%Z
              && js_eq (toNumber (fst c * p)) (Num x))
           [((x / p)%Z, n); ((x / p + 1)%Z, n)])
    [digits; (digits + 1)%Z].

(** Of two candidates the one nearer to [x], the even one when they are
    as near. *)
Definition nearerCandidate (x k : Z) (c1 c2 : Z * Z) : Z * Z :=
  let d1 := Z.abs (fst c1 * 10 ^ (snd c1 - k) - x) in
  let d2 := Z.abs (fst c2 * 10 ^ (snd c2 - k) - x) in
  if (d2 <? d1)%Z || ((d2 =? d1)%Z && Z.even (fst c2)) then c2 else c1.

(** The shortest digits [s] that identify [x], with their number [k] and
    the exponent [n], looking from [k] digits on. *)
Fixpoint shortestDigits (fuel : nat) (x k : Z) : option (Z * Z * Z) :=
  match fuel with
  | O => None
  | S fuel' =>
      match digitCandidates x k with
      | [] => shortestDigits fuel' x (k + 1)
      | c :: cs =>
          let best := fold_left (nearerCandidate x k) cs c in
          Some (fst best, k, snd best)
      end
  end.

(** [Number::toString] of a positive integer-valued double: the shortest
    digits, filled with zeros up to 21 digits, in exponent notation
    beyond. *)
Definition positiveToString (x : Z) : str :=
  match shortestDigits 17 x 1 with
  | Some (s, k, n) =>
      if (n <=? 21)%Z then decimal s ++ repeat "0" (Z.to_nat (n - k))
      else
        match decimal s with
        | d :: [] => d :: js "e+" ++ decimal (n - 1)
        | d :: more => d :: "." :: more ++ js "e+" ++ decimal (n - 1)
        | [] => []
        end
  | None => decimal x
  end.

(** Template-literal conversion of a number. *)
Definition numberToString (n : JsNumber) : str :=
  match n with
  | NaN => js "NaN"
  | Infinity negative => if negative then js "-Infinity" else js "Infinity"
  | Num z =>
      if (z =? 0)%Z then js "0"
      else if (z <? 0)%Z then "-" :: positiveToString (- z)
      else positiveToString z
  end.

(** ** Dates: the part of [Date] the service uses *)

Definition msPerDay : Z := 86400000.

(** Day number (days since 1970-01-01) of the civil date [y]-[m]-[d],
    [m] in 1..12; [d] may run past the end of the month. *)
Definition days_from_civil (y m d : Z) : Z :=
  let y' := (if m <=? 2 then y - 1 else y)%Z in
  let era := (y' / 400)%Z in
  let yoe := (y' - era * 400)%Z in
  let mp := (if 2 <? m then m - 3 else m + 9)%Z in
  let doy := ((153 * mp + 2) / 5 + d - 1)%Z in
  let doe := (yoe * 365 + yoe / 4 - yoe / 100 + doy)%Z in
  (era * 146097 + doe - 719468)%Z.

(** Civil date (year, month 1..12, day) of a day number. *)
Definition civil_from_days (z : Z) : Z * Z * Z :=
  let z' := (z + 719468)%Z in
  let era := (z' / 146097)%Z in
  let doe := (z' - era * 146097)%Z in
  let yoe := ((doe - doe / 1460 + doe / 36524 - doe / 146096) / 365)%Z in
  let doy := (doe - (365 * yoe + yoe / 4 - yoe / 100))%Z in
  let mp := ((5 * doy + 2) / 153)%Z in
  let d := (doy - (153 * mp + 2) / 5 + 1)%Z in
  let m := (if mp <? 10 then mp + 3 else mp - 9)%Z in
  ((if m <=? 2 then era * 400 + yoe + 1 else era * 400 + yoe)%Z, m, d).

(** [Date.UTC(year, month, date)]: months count from 0 and overflow into
    the years, years 0..99 mean 1900..1999, and a time value outside
    +-8.64e15 ms is [NaN]. *)
Definition Date_UTC (year month date : JsNumber) : JsNumber :=
  match year, month, date with
  | Num y, Num mo, Num d =>
      let y1 := (if (0 <=? y) && (y <=? 99) then 1900 + y else y)%Z in
      let ym := (y1 + mo / 12)%Z in
      let mn := (mo mod 12)%Z in
      let t := (msPerDay * (days_from_civil ym (mn + 1) 1 + d - 1))%Z in
      if (Z.abs t <=? 8640000000000000)%Z then Num t else NaN
  | _, _, _ => NaN
  end.

Definition getUTCFullYear (t : JsNumber) : JsNumber :=
  match t with
  | Num ms => let '(y, _, _) := civil_from_days (ms / msPerDay) in Num y
  | _ => NaN
  end.

Definition getUTCMonth (t : JsNumber) : JsNumber :=
  match t with
  | Num ms => let '(_, m, _) := civil_from_days (ms / msPerDay) in Num (m - 1)
  | _ => NaN
  end.

Definition getUTCDate (t : JsNumber) : JsNumber :=
  match t with
  | Num ms => let '(_, _, d) := civil_from_days (ms / msPerDay) in Num d
  | _ => NaN
  end.

(** ** Validators *)

(** [isValidAccountId]: letters, digits, [-], [.] and [@] only, and not
    empty. *)
Definition isValidAccountId (accountId : str) : bool :=
  forallb
    (fun char =>
       let isLetter := char_between "a" "z" char || char_between "A" "Z" char in
       let isNumber := char_between "0" "9" char in
       let isAllowedSpecial :=
         Ascii.eqb char "-" || Ascii.eqb char "." || Ascii.eqb char "@" in
       negb (negb isLetter && negb isNumber && negb isAllowedSpecial))
    accountId
  && (0 <? length accountId)%nat.

Definition charAt_is (s : str) (i : nat) (c : ascii) : bool :=
  match nth_error s i with
  | Some x => Ascii.eqb x c
  | None => false
  end.

(** [isValidDate]: [YYYY-MM-DD] naming a day of the calendar. *)
Definition isValidDate (dateStr : str) : bool :=
  if negb (length dateStr =? 10)%nat then false
  else if negb (charAt_is dateStr 4 "-") || negb (charAt_is dateStr 7 "-")
  then false
  else
    let year := substring dateStr 0 4 in
    let month := substring dateStr 5 7 in
    let day := substring dateStr 8 10 in
    if negb (forallb is_digit year) then false
    else if negb (forallb is_digit month) then false
    else if negb (forallb is_digit day) then false
    else
      let yearNum := parseInt year in
      let monthNum := parseInt month in
      let dayNum := parseInt day in
      if js_lt monthNum (Num 1) || js_gt monthNum (Num 12) then false
      else if js_lt dayNum (Num 1) || js_gt dayNum (Num 31) then false
      else if js_lt yearNum (Num 1000) then false
      else
        let date := Date_UTC yearNum (js_sub monthNum (Num 1)) dayNum in
        js_eq (getUTCFullYear date) yearNum
        && js_eq (getUTCMonth date) (js_sub monthNum (Num 1))
        && js_eq (getUTCDate date) dayNum.

Inductive DateRelation : Type := past | today | future.

(** [parseInt(parts[i], 10)]; a missing part is [undefined], which parses
    to [NaN]. *)
Definition parseIntAt (parts : list str) (i : nat) : JsNumber :=
  match nth_error parts i with
  | Some p => parseInt p
  | None => NaN
  end.

(** [compareDateWithToday], run when [new Date()] has time value [now]. *)
Definition compareDateWithToday (now : Z) (dateStr : str) : DateRelation :=
  let todayUTC :=
    Date_UTC (getUTCFullYear (Num now)) (getUTCMonth (Num now))
             (getUTCDate (Num now)) in
  let parts := split "-" dateStr in
  let instructionDate :=
    Date_UTC (parseIntAt parts 0) (js_sub (parseIntAt parts 1) (Num 1))
             (parseIntAt parts 2) in
  if js_lt instructionDate todayUTC then past
  else if js_eq instructionDate todayUTC then today
  else future.

(** [isPositiveInteger] *)
Definition isPositiveInteger (amountStr : str) : bool :=
  if (length amountStr =? 0)%nat then false
  else if negb (notFound (indexOf amountStr (js ".") 0))
          || negb (notFound (indexOf amountStr (js "-") 0))
  then false
  else if negb (forallb is_digit amountStr) then false
  else js_gt (parseInt amountStr) (Num 0).

(** ** The instruction scanner *)

Inductive InstructionType : Type := DEBIT | CREDIT.

Record ParsedInstruction : Type := mkParsed {
  p_type : InstructionType;
  p_amount : str;
  p_currency : str;
  p_debitAccount : str;
  p_creditAccount : str;
  p_executeBy : option str
}.

(** [findKeywordIndex]: case-insensitive [indexOf]. *)
Definition findKeywordIndex (instruction keyword : str) (startFrom : nat)
  : option nat :=
  let lowerInstruction := toLowerCase instruction in
  let lowerKeyword := toLowerCase keyword in
  indexOf lowerInstruction lowerKeyword startFrom.

(** [extractBetween]; the end position [None] is the [-1] of the source and
    means the end of the string. *)
Definition extractBetween (instruction : str) (startPos : nat)
  (endPos : option nat) : str :=
  match endPos with
  | None => trim (substringFrom instruction startPos)
  | Some e => trim (substring instruction startPos e)
  end.

(** [if (i === -1) return null;] *)
Notation "'found' i <- e ;; k" :=
  (match e with
   | None => None
   | Some i => k
   end)
  (at level 10, i name, e at level 100, k at level 200, only parsing).

(** [executeBy || null] *)
Definition orNull (executeBy : option str) : option str :=
  match executeBy with
  | Some [] => None
  | Some d => Some d
  | None => None
  end.

Definition starts_at_zero (i : option nat) : bool :=
  match i with
  | Some 0%nat => true
  | _ => false
  end.

(** [parseInstruction]: [None] is [null]. *)
Definition parseInstruction (instruction : str) : option ParsedInstruction :=
  let trimmedInstruction := trim instruction in
  let startsWithDebit :=
    starts_at_zero (findKeywordIndex trimmedInstruction (js "DEBIT") 0) in
  let startsWithCredit :=
    starts_at_zero (findKeywordIndex trimmedInstruction (js "CREDIT") 0) in
  if negb startsWithDebit && negb startsWithCredit then None
  else
    let type := if startsWithDebit then DEBIT else CREDIT in
    match type with
    | DEBIT =>
        found fromIndex <- findKeywordIndex trimmedInstruction (js "FROM") 5 ;;
        let amountCurrencyPart :=
          extractBetween trimmedInstruction 5 (Some fromIndex) in
        let amountCurrencyTokens :=
          filter nonEmpty (split " " amountCurrencyPart) in
        match amountCurrencyTokens with
        | amount :: currencyToken :: _ =>
            let currency := toUpperCase currencyToken in
            found accountKeywordAfterFrom <-
              findKeywordIndex trimmedInstruction (js "ACCOUNT") fromIndex ;;
            found forIndex <-
              findKeywordIndex trimmedInstruction (js "FOR")
                (accountKeywordAfterFrom + 7) ;;
            let debitAccount :=
              trim (extractBetween trimmedInstruction
                      (accountKeywordAfterFrom + 7) (Some forIndex)) in
            found creditIndex <-
              findKeywordIndex trimmedInstruction (js "CREDIT") forIndex ;;
            found toIndex <-
              findKeywordIndex trimmedInstruction (js "TO") (creditIndex + 6) ;;
            found accountKeywordAfterTo <-
              findKeywordIndex trimmedInstruction (js "ACCOUNT") toIndex ;;
            let onIndex :=
              findKeywordIndex trimmedInstruction (js "ON")
                (accountKeywordAfterTo + 7) in
            let '(creditAccount, executeBy) :=
              match onIndex with
              | Some on =>
                  (trim (extractBetween trimmedInstruction
                           (accountKeywordAfterTo + 7) (Some on)),
                   Some (trim (extractBetween trimmedInstruction (on + 2) None)))
              | None =>
                  (trim (extractBetween trimmedInstruction
                           (accountKeywordAfterTo + 7) None),
                   None)
              end in
            Some (mkParsed type amount currency debitAccount creditAccount
                    (orNull executeBy))
        | _ => None
        end
    | CREDIT =>
        found toIndex <- findKeywordIndex trimmedInstruction (js "TO") 6 ;;
        let amountCurrencyPart :=
          extractBetween trimmedInstruction 6 (Some toIndex) in
        let amountCurrencyTokens :=
          filter nonEmpty (split " " amountCurrencyPart) in
        match amountCurrencyTokens with
        | amount :: currencyToken :: _ =>
            let currency := toUpperCase currencyToken in
            found accountKeywordAfterTo <-
              findKeywordIndex trimmedInstruction (js "ACCOUNT") toIndex ;;
            found forIndex <-
              findKeywordIndex trimmedInstruction (js "FOR")
                (accountKeywordAfterTo + 7) ;;
            let creditAccount :=
              trim (extractBetween trimmedInstruction
                      (accountKeywordAfterTo + 7) (Some forIndex)) in
            found debitIndex <-
              findKeywordIndex trimmedInstruction (js "DEBIT") forIndex ;;
            found fromIndex <-
              findKeywordIndex trimmedInstruction (js "FROM") (debitIndex + 5) ;;
            found accountKeywordAfterFrom <-
              findKeywordIndex trimmedInstruction (js "ACCOUNT") fromIndex ;;
            let onIndex :=
              findKeywordIndex trimmedInstruction (js "ON")
                (accountKeywordAfterFrom + 7) in
            let '(debitAccount, executeBy) :=
              match onIndex with
              | Some on =>
                  (trim (extractBetween trimmedInstruction
                           (accountKeywordAfterFrom + 7) (Some on)),
                   Some (trim (extractBetween trimmedInstruction (on + 2) None)))
              | None =>
                  (trim (extractBetween trimmedInstruction
                           (accountKeywordAfterFrom + 7) None),
                   None)
              end in
            Some (mkParsed type amount currency debitAccount creditAccount
                    (orNull executeBy))
        | _ => None
        end
    end.

(** ** The processor *)

(** An account of the request.  Its balance is the value of a Number that
    is an integer: an integer that is a double, as every integer up to
    [2^53] in absolute value is. *)
Record Account : Type := mkAccount {
  acc_id : str;
  acc_balance : Z;
  acc_currency : str
}.

Record AccountSnapshot : Type := mkSnapshot {
  snap_id : str;
  snap_balance : JsNumber;
  snap_balance_before : JsNumber;
  snap_currency : str
}.

Record ServiceData : Type := mkServiceData {
  accounts : list Account;
  instruction : str
}.

Inductive Status : Type := successful | pending | failed.

Inductive StatusCode : Type :=
| AM01 | CU01 | CU02 | AC01 | AC02 | AC03 | AC04 | DT01
| SY01 | SY02 | SY03 | AP00 | AP02.

Record TransactionResult : Type := mkResult {
  r_type : option InstructionType;
  r_amount : option JsNumber;
  r_currency : option str;
  r_debit_account : option str;
  r_credit_account : option str;
  r_execute_by : option str;
  r_status : Status;
  r_status_reason : str;
  r_status_code : StatusCode;
  r_accounts : list AccountSnapshot
}.

(** The message table of [@app/messages], which the service imports. *)
Record Messages : Type := mkMessages {
  MALFORMED_INSTRUCTION : str;
  INVALID_AMOUNT : str;
  INVALID_ACCOUNT_ID : str;
  INVALID_DATE_FORMAT : str;
  UNSUPPORTED_CURRENCY : str;
  SAME_ACCOUNT_ERROR : str;
  ACCOUNT_NOT_FOUND : str;
  CURRENCY_MISMATCH : str;
  INSUFFICIENT_FUNDS : str;
  TRANSACTION_SUCCESSFUL : str;
  TRANSACTION_PENDING : str
}.

Definition SUPPORTED_CURRENCIES : list str :=
  [js "NGN"; js "USD"; js "GBP"; js "GHS"].

Definition includes (l : list str) (x : str) : bool := existsb (str_eqb x) l.

(** The snapshot every failure branch builds: balances untouched, currency
    upper-cased. *)
Definition originalBalance (acc : Account) : AccountSnapshot :=
  mkSnapshot (acc_id acc) (Num (acc_balance acc)) (Num (acc_balance acc))
    (toUpperCase (acc_currency acc)).

(** [accounts.map(...)] of the branches that echo every account. *)
Definition accountsWithOriginalBalances (accounts : list Account)
  : list AccountSnapshot :=
  map originalBalance accounts.

(** The [forEach]/[push] loop of the currency and funds failures. *)
Definition transactionAccountsUnchanged (accounts : list Account)
  (debitAccount creditAccount : str) : list AccountSnapshot :=
  flat_map
    (fun acc =>
       if str_eqb (acc_id acc) debitAccount
          || str_eqb (acc_id acc) creditAccount
       then [originalBalance acc]
       else [])
    accounts.

(** The [forEach]/[push] loop of the final response. *)
Definition transactionAccountsFinal (accounts : list Account)
  (debitAccount creditAccount : str)
  (debitAccountObj creditAccountObj : Account)
  (newDebitBalance newCreditBalance : JsNumber) : list AccountSnapshot :=
  flat_map
    (fun acc =>
       if str_eqb (acc_id acc) debitAccount then
         [mkSnapshot (acc_id acc) newDebitBalance
            (Num (acc_balance debitAccountObj))
            (toUpperCase (acc_currency acc))]
       else if str_eqb (acc_id acc) creditAccount then
         [mkSnapshot (acc_id acc) newCreditBalance
            (Num (acc_balance creditAccountObj))
            (toUpperCase (acc_currency acc))]
       else [])
    accounts.

(** A string used as a condition: the empty string is falsy. *)
Definition truthy (s : option str) : bool :=
  match s with
  | Some (_ :: _) => true
  | _ => false
  end.

Definition colon_sp : str := js ": ".

(** The response object every branch past the scan builds: the scanned
    fields, then what the branch decides. *)
Definition response (parsed : ParsedInstruction) (amount : option JsNumber)
  (status : Status) (status_reason : str) (status_code : StatusCode)
  (accounts : list AccountSnapshot) : TransactionResult :=
  mkResult (Some (p_type parsed)) amount (Some (p_currency parsed))
    (Some (p_debitAccount parsed)) (Some (p_creditAccount parsed))
    (p_executeBy parsed) status status_reason status_code accounts.

Section Processor.

Variable PaymentMessages : Messages.

(** The response to an instruction the scanner gave up on. *)
Definition unparseable : TransactionResult :=
  mkResult None None None None None None failed
    (MALFORMED_INSTRUCTION PaymentMessages ++ js ": unable to parse keywords")
    SY03 [].

(** The body of [parsePaymentInstruction] after a successful scan; [now] is
    the time value [new Date()] has inside [compareDateWithToday]. *)
Definition processParsed (now : Z) (accounts : list Account)
  (parsed : ParsedInstruction) : TransactionResult :=
  let type := p_type parsed in
  let amount := p_amount parsed in
  let currency := p_currency parsed in
  let debitAccount := p_debitAccount parsed in
  let creditAccount := p_creditAccount parsed in
  let executeBy := p_executeBy parsed in
  let response := response parsed in
  if negb (isPositiveInteger amount) then
    response (if nonEmpty amount then Some (parseInt amount) else None)
      failed (INVALID_AMOUNT PaymentMessages) AM01
      (accountsWithOriginalBalances accounts)
  else
  let amountInt := parseInt amount in
  if negb (isValidAccountId debitAccount) then
    response (Some amountInt) failed
      (INVALID_ACCOUNT_ID PaymentMessages ++ colon_sp ++ debitAccount) AC04
      (accountsWithOriginalBalances accounts)
  else if negb (isValidAccountId creditAccount) then
    response (Some amountInt) failed
      (INVALID_ACCOUNT_ID PaymentMessages ++ colon_sp ++ creditAccount) AC04
      (accountsWithOriginalBalances accounts)
  else if truthy executeBy
          && negb (match executeBy with
                   | Some d => isValidDate d
                   | None => false
                   end) then
    response (Some amountInt) failed
      (INVALID_DATE_FORMAT PaymentMessages) DT01
      (accountsWithOriginalBalances accounts)
  else if negb (includes SUPPORTED_CURRENCIES currency) then
    response (Some amountInt) failed
      (UNSUPPORTED_CURRENCY PaymentMessages
       ++ js ". Only NGN, USD, GBP, and GHS are supported") CU02
      (accountsWithOriginalBalances accounts)
  else if str_eqb debitAccount creditAccount then
    response (Some amountInt) failed
      (SAME_ACCOUNT_ERROR PaymentMessages) AC02
      (accountsWithOriginalBalances accounts)
  else
  match find (fun acc => str_eqb (acc_id acc) debitAccount) accounts with
  | None =>
    response (Some amountInt) failed
      (ACCOUNT_NOT_FOUND PaymentMessages ++ colon_sp ++ debitAccount) AC03
      (accountsWithOriginalBalances accounts)
  | Some debitAccountObj =>
  match find (fun acc => str_eqb (acc_id acc) creditAccount) accounts with
  | None =>
    response (Some amountInt) failed
      (ACCOUNT_NOT_FOUND PaymentMessages ++ colon_sp ++ creditAccount) AC03
      (accountsWithOriginalBalances accounts)
  | Some creditAccountObj =>
  if negb (str_eqb (toUpperCase (acc_currency debitAccountObj))
                   (toUpperCase (acc_currency creditAccountObj))) then
    response (Some amountInt) failed
      (CURRENCY_MISMATCH PaymentMessages) CU01
      (transactionAccountsUnchanged accounts debitAccount creditAccount)
  else if negb (str_eqb currency
                        (toUpperCase (acc_currency debitAccountObj))) then
    response (Some amountInt) failed
      (CURRENCY_MISMATCH PaymentMessages) CU01
      (transactionAccountsUnchanged accounts debitAccount creditAccount)
  else if js_lt (Num (acc_balance debitAccountObj)) amountInt then
    response (Some amountInt) failed
      (INSUFFICIENT_FUNDS PaymentMessages ++ js ": has "
       ++ numberToString (Num (acc_balance debitAccountObj)) ++ js " "
       ++ currency ++ js ", needs " ++ numberToString amountInt ++ js " "
       ++ currency) AC01
      (transactionAccountsUnchanged accounts debitAccount creditAccount)
  else
  let '(shouldExecute, status, statusCode, statusReason) :=
    if truthy executeBy then
      match compareDateWithToday now
              (match executeBy with Some d => d | None => [] end) with
      | future => (false, pending, AP02, TRANSACTION_PENDING PaymentMessages)
      | _ => (true, successful, AP00, TRANSACTION_SUCCESSFUL PaymentMessages)
      end
    else (true, successful, AP00, TRANSACTION_SUCCESSFUL PaymentMessages) in
  let newDebitBalance :=
    if shouldExecute then js_sub (Num (acc_balance debitAccountObj)) amountInt
    else Num (acc_balance debitAccountObj) in
  let newCreditBalance :=
    if shouldExecute then js_add (Num (acc_balance creditAccountObj)) amountInt
    else Num (acc_balance creditAccountObj) in
  response (Some amountInt) status statusReason statusCode
    (transactionAccountsFinal accounts debitAccount creditAccount
       debitAccountObj creditAccountObj newDebitBalance newCreditBalance)
  end
  end.

(** [parsePaymentInstruction], as a function of the request and of the time
    value the clock shows during the call. *)
Definition parsePaymentInstructionAt (now : Z) (serviceData : ServiceData)
  : TransactionResult :=
  match parseInstruction (instruction serviceData) with
  | None => unparseable
  | Some parsed => processParsed now (accounts serviceData) parsed
  end.

(** What a call can observe besides its arguments. *)
Record World : Type := mkWorld {
  clock : Z  (* the time value of [new Date()] *)
}.

(** [parsePaymentInstruction(serviceData, options)]: the response, and the
    request object and the world as the call leaves them.  The body reads
    [accounts] with [map], [find] and [forEach], pushes only to arrays it
    created, and never looks at [options]. *)
Definition parsePaymentInstruction {Options : Type}
  (serviceData : ServiceData) (options : Options) (w : World)
  : TransactionResult * ServiceData * World :=
  (parsePaymentInstructionAt (clock w) serviceData, serviceData, w).

End Processor.

(** [handler] of the endpoint: the HTTP status of a response. *)
Definition httpStatus (response : TransactionResult) : nat :=
  match r_status response with
  | failed => 400
  | _ => 200
  end.

(** ** The scan, factored

    Both branches of [parseInstruction] run the same scan; they differ in
    the keywords and in which account comes first.  [k0] is the leading
    keyword, [kA] the one that ends the amount and currency, [kB] and [kC]
    the two between [FOR] and the second [ACCOUNT]. *)
Definition scanBody (k0 kA kB kC : str) (t : str)
  : option (str * str * str * str * option str) :=
  found i1 <- findKeywordIndex t kA (length k0) ;;
  match filter nonEmpty (split " " (extractBetween t (length k0) (Some i1))) with
  | amount :: currencyToken :: _ =>
      found i2 <- findKeywordIndex t (js "ACCOUNT") i1 ;;
      found i3 <- findKeywordIndex t (js "FOR") (i2 + 7) ;;
      let first := trim (extractBetween t (i2 + 7) (Some i3)) in
      found i4 <- findKeywordIndex t kB i3 ;;
      found i5 <- findKeywordIndex t kC (i4 + length kB) ;;
      found i6 <- findKeywordIndex t (js "ACCOUNT") i5 ;;
      let '(second, executeBy) :=
        match findKeywordIndex t (js "ON") (i6 + 7) with
        | Some on =>
            (trim (extractBetween t (i6 + 7) (Some on)),
             Some (trim (extractBetween t (on + 2) None)))
        | None => (trim (extractBetween t (i6 + 7) None), None)
        end in
      Some (amount, toUpperCase currencyToken, first, second, orNull executeBy)
  | _ => None
  end.

Definition asDebit (f : str * str * str * str * option str)
  : ParsedInstruction :=
  let '(amount, currency, first, second, executeBy) := f in
  mkParsed DEBIT amount currency first second executeBy.

Definition asCredit (f : str * str * str * str * option str)
  : ParsedInstruction :=
  let '(amount, currency, first, second, executeBy) := f in
  mkParsed CREDIT amount currency second first executeBy.

(** ** The validation chain, as the specification words it

    A check is [true] when the instruction passes it. *)
Definition Check : Type := list Account -> ParsedInstruction -> bool.

Definition findAccount (accounts : list Account) (accountId : str)
  : option Account :=
  find (fun acc => str_eqb (acc_id acc) accountId) accounts.

Definition amountFormat : Check :=
  fun _ p => isPositiveInteger (p_amount p).

Definition debitIdFormat : Check :=
  fun _ p => isValidAccountId (p_debitAccount p).

Definition creditIdFormat : Check :=
  fun _ p => isValidAccountId (p_creditAccount p).

Definition dateFormat : Check :=
  fun _ p =>
    match p_executeBy p with
    | Some d => isValidDate d
    | None => true
    end.

Definition currencySupported : Check :=
  fun _ p => includes SUPPORTED_CURRENCIES (p_currency p).

Definition accountsDiffer : Check :=
  fun _ p => negb (str_eqb (p_debitAccount p) (p_creditAccount p)).

Definition debitExists : Check :=
  fun accounts p =>
    match findAccount accounts (p_debitAccount p) with
    | Some _ => true
    | None => false
    end.

Definition creditExists : Check :=
  fun accounts p =>
    match findAccount accounts (p_creditAccount p) with
    | Some _ => true
    | None => false
    end.

Definition accountCurrenciesEqual : Check :=
  fun accounts p =>
    match findAccount accounts (p_debitAccount p),
          findAccount accounts (p_creditAccount p) with
    | Some d, Some c =>
        str_eqb (toUpperCase (acc_currency d)) (toUpperCase (acc_currency c))
    | _, _ => false
    end.

Definition instructionCurrencyEqual : Check :=
  fun accounts p =>
    match findAccount accounts (p_debitAccount p) with
    | Some d => str_eqb (p_currency p) (toUpperCase (acc_currency d))
    | None => false
    end.

Definition sufficientFunds : Check :=
  fun accounts p =>
    match findAccount accounts (p_debitAccount p) with
    | Some d => negb (js_lt (Num (acc_balance d)) (parseInt (p_amount p)))
    | None => false
    end.

(** The eleven checks in their order, each with the code of its failure. *)
Definition validationChain : list (Check * StatusCode) :=
  [ (amountFormat, AM01);
    (debitIdFormat, AC04);
    (creditIdFormat, AC04);
    (dateFormat, DT01);
    (currencySupported, CU02);
    (accountsDiffer, AC02);
    (debitExists, AC03);
    (creditExists, AC03);
    (accountCurrenciesEqual, CU01);
    (instructionCurrencyEqual, CU01);
    (sufficientFunds, AC01) ].

(** The code of the first check of [chain] that fails, if one does. *)
Fixpoint firstFailure (chain : list (Check * StatusCode))
  (accounts : list Account) (p : ParsedInstruction) : option StatusCode :=
  match chain with
  | [] => None
  | (check, failure) :: rest =>
      if check accounts p then firstFailure rest accounts p else Some failure
  end.

(** The position (from 1) of the first failing check. *)
Fixpoint firstFailureIndex (chain : list (Check * StatusCode))
  (accounts : list Account) (p : ParsedInstruction) : option nat :=
  match chain with
  | [] => None
  | (check, _) :: rest =>
      if check accounts p then option_map S (firstFailureIndex rest accounts p)
      else Some 1%nat
  end.

(** The code the [k]-th check (from 1) fails with. *)
Definition failureCode (k : nat) : StatusCode :=
  nth (k - 1) (map snd validationChain) SY03.

(** What the code echoes when the [k]-th check fails: every account up to
    the eighth check, the two parties from the ninth on. *)
Definition failureSnapshots (k : nat) (accounts : list Account)
  (p : ParsedInstruction) : list AccountSnapshot :=
  if (k <=? 8)%nat then accountsWithOriginalBalances accounts
  else transactionAccountsUnchanged accounts
         (p_debitAccount p) (p_creditAccount p).

(** The codes of the checks 1 to 8: the responses that echo every
    account. *)
Definition echoesAll (c : StatusCode) : bool :=
  match c with
  | AM01 | AC04 | DT01 | CU02 | AC02 | AC03 => true
  | _ => false
  end.

(** The codes of the checks 9 to 11: the failures that echo the two
    parties. *)
Definition echoesParties (c : StatusCode) : bool :=
  match c with
  | CU01 | AC01 => true
  | _ => false
  end.

(** The amount of a failure response. *)
Definition failureAmount (k : nat) (p : ParsedInstruction)
  : option JsNumber :=
  if (k =? 1)%nat && negb (nonEmpty (p_amount p)) then None
  else Some (parseInt (p_amount p)).

(** The reason of a failure response. *)
Definition failureReason (M : Messages) (k : nat) (accounts : list Account)
  (p : ParsedInstruction) : str :=
  match k with
  | 1 => INVALID_AMOUNT M
  | 2 => INVALID_ACCOUNT_ID M ++ colon_sp ++ p_debitAccount p
  | 3 => INVALID_ACCOUNT_ID M ++ colon_sp ++ p_creditAccount p
  | 4 => INVALID_DATE_FORMAT M
  | 5 => UNSUPPORTED_CURRENCY M
         ++ js ". Only NGN, USD, GBP, and GHS are supported"
  | 6 => SAME_ACCOUNT_ERROR M
  | 7 => ACCOUNT_NOT_FOUND M ++ colon_sp ++ p_debitAccount p
  | 8 => ACCOUNT_NOT_FOUND M ++ colon_sp ++ p_creditAccount p
  | 9 | 10 => CURRENCY_MISMATCH M
  | _ =>
      INSUFFICIENT_FUNDS M ++ js ": has "
      ++ match findAccount accounts (p_debitAccount p) with
         | Some d => numberToString (Num (acc_balance d))
         | None => []
         end
      ++ js " " ++ p_currency p ++ js ", needs "
      ++ numberToString (parseInt (p_amount p)) ++ js " " ++ p_currency p
  end%nat.

(** The response to an instruction that passed every check: executed, or
    left pending when its date is still to come. *)
Definition finalResponse (M : Messages) (now : Z) (accounts : list Account)
  (p : ParsedInstruction) (d c : Account) (a : Z) : TransactionResult :=
  match option_map (compareDateWithToday now) (p_executeBy p) with
  | Some future =>
      response p (Some (Num a)) pending (TRANSACTION_PENDING M) AP02
        (transactionAccountsFinal accounts (p_debitAccount p)
           (p_creditAccount p) d c
           (Num (acc_balance d)) (Num (acc_balance c)))
  | _ =>
      response p (Some (Num a)) successful (TRANSACTION_SUCCESSFUL M) AP00
        (transactionAccountsFinal accounts (p_debitAccount p)
           (p_creditAccount p) d c
           (js_sub (Num (acc_balance d)) (Num a))
           (js_add (Num (acc_balance c)) (Num a)))
  end.

(** [2^52]: the sum and the difference of two integers up to it in
    absolute value are doubles. *)
Definition halfSafe : Z := 4503599627370496.

(** Balances whose sums and differences the code computes exactly. *)
Definition safeBalances (accounts : list Account) : bool :=
  forallb (fun acc => (Z.abs (acc_balance acc) <=? halfSafe)%Z) accounts.

(** Where a valid instruction stands with respect to the clock. *)
Definition dateClass (now : Z) (p : ParsedInstruction) : option DateRelation :=
  option_map (compareDateWithToday now) (p_executeBy p).

(** ** The grammar of the two formats, as the specification words it

<<
DEBIT  <amount> <currency> FROM ACCOUNT <debitId> FOR CREDIT TO ACCOUNT <creditId> [ON <date>]
CREDIT <amount> <currency> TO ACCOUNT <creditId> FOR DEBIT FROM ACCOUNT <debitId> [ON <date>]
>>
*)
Definition grammar (t : InstructionType) : list str :=
  match t with
  | DEBIT =>
      [js "DEBIT"; js "FROM"; js "ACCOUNT"; js "FOR"; js "CREDIT"; js "TO";
       js "ACCOUNT"; js "ON"]
  | CREDIT =>
      [js "CREDIT"; js "TO"; js "ACCOUNT"; js "FOR"; js "DEBIT"; js "FROM";
       js "ACCOUNT"; js "ON"]
  end.

Definition keywordAt (t : InstructionType) (i : nat) : str :=
  nth i (grammar t) [].

(** A gap: one or more white-space characters. *)
Definition isGap (g : str) : bool := nonEmpty g && forallb is_ws g.

Definition spacesOnly (g : str) : bool :=
  forallb (fun c => Ascii.eqb c " ") g.

(** How an instruction is written down: the spelling of the keyword in
    each of the eight slots, the white space in each of the twelve gaps,
    and the white space around the whole. *)
Record Layout : Type := mkLayout {
  spelling : nat -> str;
  gap : nat -> str;
  leading : str;
  trailing : str
}.

(** Any casing of the keywords, any white space in the gaps and around;
    between the amount and the currency (gap 1), spaces only. *)
Definition layoutOk (t : InstructionType) (L : Layout) : bool :=
  forallb
    (fun i => str_eqb (toLowerCase (spelling L i)) (toLowerCase (keywordAt t i)))
    (seq 0 8)
  && forallb (fun i => isGap (gap L i)) (seq 0 12)
  && spacesOnly (gap L 1)
  && forallb is_ws (leading L)
  && forallb is_ws (trailing L).

(** A token: not empty, no white space inside. *)
Definition token (t : str) : bool :=
  nonEmpty t && forallb (fun c => negb (is_ws c)) t.

(** The fields of an instruction are tokens. *)
Definition wellFormed (p : ParsedInstruction) : bool :=
  token (p_amount p) && token (p_currency p)
  && token (p_debitAccount p) && token (p_creditAccount p)
  && match p_executeBy p with
     | Some d => token d
     | None => true
     end.

Definition firstAccount (p : ParsedInstruction) : str :=
  match p_type p with
  | DEBIT => p_debitAccount p
  | CREDIT => p_creditAccount p
  end.

Definition secondAccount (p : ParsedInstruction) : str :=
  match p_type p with
  | DEBIT => p_creditAccount p
  | CREDIT => p_debitAccount p
  end.

(** The text from the leading keyword to the second account, then [tail]. *)
Definition body (L : Layout) (p : ParsedInstruction) (tail : str) : str :=
  spelling L 0 ++ gap L 0 ++ p_amount p ++ gap L 1
  ++ p_currency p ++ gap L 2
  ++ spelling L 1 ++ gap L 3 ++ spelling L 2 ++ gap L 4
  ++ firstAccount p ++ gap L 5
  ++ spelling L 3 ++ gap L 6 ++ spelling L 4 ++ gap L 7
  ++ spelling L 5 ++ gap L 8 ++ spelling L 6 ++ gap L 9
  ++ secondAccount p ++ tail.

Definition dateTail (L : Layout) (executeBy : option str) : str :=
  match executeBy with
  | Some d => gap L 10 ++ spelling L 7 ++ gap L 11 ++ d
  | None => []
  end.

(** The instruction string with the fields of [p], laid out by [L]. *)
Definition render (L : Layout) (p : ParsedInstruction) : str :=
  leading L ++ body L p (dateTail L (p_executeBy p)) ++ trailing L.

(** The same without a date, but closed by [ON] and nothing (or white
    space only) after it. *)
Definition renderBlankOn (L : Layout) (p : ParsedInstruction) : str :=
  leading L ++ body L p (gap L 10 ++ spelling L 7) ++ trailing L.

(** What the scanner is expected to return for [render L p]. *)
Definition expected (p : ParsedInstruction) : ParsedInstruction :=
  mkParsed (p_type p) (p_amount p) (toUpperCase (p_currency p))
    (p_debitAccount p) (p_creditAccount p) (p_executeBy p).

Definition withoutDate (p : ParsedInstruction) : ParsedInstruction :=
  mkParsed (p_type p) (p_amount p) (p_currency p)
    (p_debitAccount p) (p_creditAccount p) None.

(** [kw] occurs in [t], in any casing. *)
Definition mentions (t kw : str) : bool :=
  negb (notFound (find_sub (toLowerCase kw) (toLowerCase t))).

(** No field holds the keyword the scanner looks for next: the amount and
    the currency do not hold the keyword that follows them, the first
    account does not hold [FOR], the second does not hold [ON]. *)
Definition scanSafe (p : ParsedInstruction) : bool :=
  negb (mentions (p_amount p) (keywordAt (p_type p) 1))
  && negb (mentions (p_currency p) (keywordAt (p_type p) 1))
  && negb (mentions (firstAccount p) (js "FOR"))
  && negb (mentions (secondAccount p) (js "ON")).

(** The string does not begin with [DEBIT] or [CREDIT], or one of the
    keywords both formats need occurs nowhere in it. *)
Definition keywordIncomplete (s : str) : bool :=
  let t := toLowerCase (trim s) in
  (negb (prefixb (js "debit") t) && negb (prefixb (js "credit") t))
  || existsb (fun kw => negb (mentions (trim s) kw))
       [js "DEBIT"; js "CREDIT"; js "FROM"; js "TO"; js "ACCOUNT"; js "FOR"].

(** The UTC day a time value falls on. *)
Definition utcDay (now : Z) : Z := (now / msPerDay)%Z.

(** ** Sample data *)

(** The texts of the status table of the README. *)
Definition sampleMessages : Messages :=
  mkMessages
    (js "Malformed instruction")
    (js "Amount must be a positive integer")
    (js "Invalid account ID format")
    (js "Invalid date format")
    (js "Unsupported currency")
    (js "Debit and credit accounts cannot be the same")
    (js "Account not found")
    (js "Account currency mismatch")
    (js "Insufficient funds in debit account")
    (js "Transaction executed successfully")
    (js "Transaction scheduled for future execution").

(** The accounts of the README request. *)
Definition sampleAccounts : list Account :=
  [mkAccount (js "a") 230 (js "USD"); mkAccount (js "b") 300 (js "USD")].

Definition threeAccounts : list Account :=
  [mkAccount (js "a") 230 (js "USD");
   mkAccount (js "b") 300 (js "USD");
   mkAccount (js "c") 75 (js "usd")].

(** Two accounts, one with a balance of [2^53]. *)
Definition largeAccounts : list Account :=
  [mkAccount (js "a") 10 (js "USD");
   mkAccount (js "b") 9007199254740992 (js "USD")].

(** Midnight UTC of a civil date, as a time value. *)
Definition midnight (y m d : Z) : Z := (msPerDay * days_from_civil y m d)%Z.

(** Keywords in capitals, single spaces, nothing around. *)
Definition plainLayout (t : InstructionType) : Layout :=
  mkLayout (keywordAt t) (fun _ => js " ") [] [].

(** Mixed casing, wider gaps with tabs and line feeds in them, white space
    around. *)
Definition looseLayout : Layout :=
  mkLayout
    (fun i => nth i [js "Debit"; js "from"; js "Account"; js "FOR";
                     js "cReDiT"; js "To"; js "ACCOUNT"; js "on"] [])
    (fun i => nth i [js " "; js "   "; ["009"]; js "  "; [" "; "009"]; ["010"]]
                (js " "))
    (js "  ")
    [" "; "009"; "010"].

Definition sampleDebit : ParsedInstruction :=
  mkParsed DEBIT (js "30") (js "usd") (js "a") (js "b") (Some (js "2026-12-31")).

Definition sampleParsed : ParsedInstruction :=
  mkParsed DEBIT (js "30") (js "USD") (js "a") (js "b") None.

(** ** Notions used in the statements *)

(** [acc] is one of the two parties of [p]. *)
Definition isParty (p : ParsedInstruction) (acc : Account) : bool :=
  str_eqb (acc_id acc) (p_debitAccount p)
  || str_eqb (acc_id acc) (p_creditAccount p).

(** The account with its currency in capitals. *)
Definition upperCurrency (acc : Account) : Account :=
  mkAccount (acc_id acc) (acc_balance acc) (toUpperCase (acc_currency acc)).



(** The snapshot policy as claimed: every account up to the sixth check,
    the two parties from the seventh on. *)
Definition claimedSnapshots (k : nat) (accounts : list Account)
  (p : ParsedInstruction) : list AccountSnapshot :=
  if (k <=? 6)%nat then map originalBalance accounts
  else map originalBalance (filter (isParty p) accounts).

(** ** Notions used in the proofs *)

(** The first character is not white space. *)
Definition startsClean (m : str) : bool :=
  match m with
  | c :: _ => negb (is_ws c)
  | [] => false
  end.

Definition endsClean (m : str) : bool := startsClean (rev m).

(** [rest] is what [T] holds from position [i] on. *)
Definition at_pos (T : str) (i : nat) (rest : str) : Prop :=
  exists P, T = P ++ rest /\ length P = i.

(** ** Notions used in the further properties *)

(** [s] holds a digit other than [0]. *)
Definition hasNonZeroDigit (s : str) : bool :=
  existsb (fun c => negb (Ascii.eqb c "0")) s.

(** No space character. *)
Definition spaceFree (t : str) : bool :=
  forallb (fun c => negb (Ascii.eqb c " ")) t.

(** Trimmed: empty, or white space at neither end. *)
Definition isTrimmed (t : str) : bool :=
  match t with
  | [] => true
  | _ => startsClean t && startsClean (rev t)
  end.

(** The Gregorian leap years and the lengths of the months. *)
Definition isLeap (y : Z) : bool :=
  ((y mod 4 =? 0) && negb (y mod 100 =? 0) || (y mod 400 =? 0))%Z.

Definition daysInMonth (y m : Z) : Z :=
  if (m =? 2)%Z then (if isLeap y then 29 else 28)%Z
  else if ((m =? 4) || (m =? 6) || (m =? 9) || (m =? 11))%Z then 30%Z
  else 31%Z.

(** [YYYY-MM-DD]: ten characters, [-] at positions 4 and 7, digits
    elsewhere. *)
Definition dateShape (s : str) : bool :=
  (length s =? 10)%nat
  && charAt_is s 4 "-" && charAt_is s 7 "-"
  && forallb is_digit (substring s 0 4)
  && forallb is_digit (substring s 5 7)
  && forallb is_digit (substring s 8 10).

(** The year, month and day a string of that shape writes. *)
Definition dateNumbers (s : str) : Z * Z * Z :=
  (digits_value (substring s 0 4), digits_value (substring s 5 7),
   digits_value (substring s 8 10)).

(** What [scanBody] does once it has the amount and the currency: the
    scan from the position [i1] of the keyword that ends them. *)
Definition scanAfter (kB kC : str) (t : str) (i1 : nat)
  (amount currencyToken : str)
  : option (str * str * str * str * option str) :=
  found i2 <- findKeywordIndex t (js "ACCOUNT") i1 ;;
  found i3 <- findKeywordIndex t (js "FOR") (i2 + 7) ;;
  let first := trim (extractBetween t (i2 + 7) (Some i3)) in
  found i4 <- findKeywordIndex t kB i3 ;;
  found i5 <- findKeywordIndex t kC (i4 + length kB) ;;
  found i6 <- findKeywordIndex t (js "ACCOUNT") i5 ;;
  let '(second, executeBy) :=
    match findKeywordIndex t (js "ON") (i6 + 7) with
    | Some on =>
        (trim (extractBetween t (i6 + 7) (Some on)),
         Some (trim (extractBetween t (on + 2) None)))
    | None => (trim (extractBetween t (i6 + 7) None), None)
    end in
  Some (amount, toUpperCase currencyToken, first, second, orNull executeBy).

(** Words written after the currency, each behind its own run of
    spaces. *)
Definition extraWords (extras : list (str * str)) : str :=
  flat_map (fun e => fst e ++ snd e) extras.

Definition extraWordsOk (kw : str) (extras : list (str * str)) : bool :=
  forallb
    (fun e =>
       isGap (fst e) && spacesOnly (fst e) && token (snd e)
       && negb (mentions (snd e) kw))
    extras.

(** * Strings: searching, trimming, splitting *)

Lemma str_eqb_eq (a b : str) : str_eqb a b = true <-> a = b.
Proof.
  revert b; induction a as [|x a IH]; intros [|y b]; simpl;
    try (split; [discriminate | congruence]); try tauto.
  rewrite andb_true_iff, Ascii.eqb_eq, IH.
  split; [intros [-> ->]; reflexivity | intros H; inversion H; auto].
Qed.

Lemma str_eqb_refl (a : str) : str_eqb a a = true.
Proof. apply str_eqb_eq; reflexivity. Qed.

Lemma str_eqb_neq (a b : str) : str_eqb a b = false <-> a <> b.
Proof.
  rewrite <- str_eqb_eq. destruct (str_eqb a b); split; congruence.
Qed.

Lemma prefixb_app (kw rest : str) : prefixb kw (kw ++ rest) = true.
Proof.
  induction kw as [|k kw IH]; simpl; [reflexivity|].
  rewrite Ascii.eqb_refl; exact IH.
Qed.

(** A keyword cannot run over a character it does not contain. *)
Lemma prefixb_stop (kw t s : str) (c : ascii) :
  ~ In c kw -> prefixb kw (t ++ c :: s) = prefixb kw t.
Proof.
  revert t; induction kw as [|k kw IH]; intros t Hc; [destruct t; reflexivity|].
  destruct t as [|x t]; simpl.
  - destruct (Ascii.eqb_spec k c) as [->|]; [|reflexivity].
    exfalso; apply Hc; left; reflexivity.
  - rewrite IH; [reflexivity|]. intros H; apply Hc; right; exact H.
Qed.

Lemma find_sub_hit (kw rest : str) : find_sub kw (kw ++ rest) = Some 0%nat.
Proof.
  destruct kw; simpl; [destruct rest; reflexivity|].
  rewrite Ascii.eqb_refl, prefixb_app; reflexivity.
Qed.

Lemma find_sub_cons (kw s : str) (c : ascii) :
  prefixb kw (c :: s) = false ->
  find_sub kw (c :: s) = option_map S (find_sub kw s).
Proof. intros H; simpl find_sub at 1; rewrite H; reflexivity. Qed.

Lemma option_map_add (n m : nat) (o : option nat) :
  option_map (Nat.add n) (option_map (Nat.add m) o)
  = option_map (Nat.add (n + m)) o.
Proof. destruct o; simpl; f_equal; lia. Qed.

Lemma option_map_S (n : nat) (o : option nat) :
  option_map S (option_map (Nat.add n) o) = option_map (Nat.add (S n)) o.
Proof. destruct o; reflexivity. Qed.

Lemma option_map_add0 (o : option nat) : option_map (Nat.add 0) o = o.
Proof. destruct o; reflexivity. Qed.

(** Stepping over a token that does not hold the keyword, and the
    character that closes it. *)
Lemma find_sub_token (kw t s : str) (c : ascii) :
  kw <> [] -> ~ In c kw -> find_sub kw t = None ->
  find_sub kw (t ++ c :: s)
  = option_map (Nat.add (S (length t))) (find_sub kw s).
Proof.
  intros Hne Hc; induction t as [|x t IH]; intros Ht.
  - simpl app. rewrite find_sub_cons.
    + destruct (find_sub kw s); reflexivity.
    + change (c :: s) with ([] ++ c :: s). rewrite prefixb_stop by exact Hc.
      destruct kw; [contradiction Hne; reflexivity | reflexivity].
  - simpl in Ht. destruct (prefixb kw (x :: t)) eqn:Hp; [discriminate|].
    destruct (find_sub kw t) eqn:Hf; [discriminate|].
    change ((x :: t) ++ c :: s) with (x :: (t ++ c :: s)).
    rewrite find_sub_cons.
    + rewrite IH by reflexivity. apply option_map_S.
    + change (x :: t ++ c :: s) with ((x :: t) ++ c :: s).
      rewrite prefixb_stop by exact Hc. exact Hp.
Qed.

Lemma find_sub_nil (kw : str) : kw <> [] -> find_sub kw [] = None.
Proof. destruct kw; [congruence | reflexivity]. Qed.

Lemma ws_not_in_token (kw : str) (c : ascii) :
  token kw = true -> is_ws c = true -> ~ In c kw.
Proof.
  unfold token. intros H Hc Hin. apply andb_true_iff in H as [_ H].
  rewrite forallb_forall in H. specialize (H c Hin). rewrite Hc in H.
  discriminate H.
Qed.

Lemma token_nonempty (t : str) : token t = true -> t <> [].
Proof. destruct t; [discriminate | congruence]. Qed.

(** Stepping over white space. *)
Lemma find_sub_ws (kw s g : str) :
  token kw = true -> forallb is_ws g = true ->
  find_sub kw (g ++ s) = option_map (Nat.add (length g)) (find_sub kw s).
Proof.
  intros Hkw. induction g as [|c g IH]; intros Hg.
  - simpl. symmetry; apply option_map_add0.
  - simpl in Hg. apply andb_true_iff in Hg as [Hc Hg].
    change ((c :: g) ++ s) with ([] ++ c :: (g ++ s)).
    rewrite find_sub_token
      by (auto using find_sub_nil, token_nonempty, ws_not_in_token).
    rewrite IH by exact Hg. simpl length. rewrite option_map_add.
    reflexivity.
Qed.

(** A block: a token free of the keyword, then a gap. *)
Lemma find_sub_block (kw t s g : str) :
  token kw = true -> isGap g = true -> find_sub kw t = None ->
  find_sub kw (t ++ g ++ s)
  = option_map (Nat.add (length t + length g)) (find_sub kw s).
Proof.
  intros Hkw Hg Ht. unfold isGap in Hg. apply andb_true_iff in Hg as [Hne Hg].
  destruct g as [|c g]; [discriminate Hne|].
  simpl in Hg. apply andb_true_iff in Hg as [Hc Hg].
  change ((c :: g) ++ s) with (c :: (g ++ s)).
  rewrite find_sub_token
    by (auto using token_nonempty, ws_not_in_token).
  rewrite find_sub_ws by assumption.
  rewrite option_map_add. simpl length. f_equal. f_equal. lia.
Qed.

Lemma find_sub_gap (kw s g : str) :
  token kw = true -> isGap g = true ->
  find_sub kw (g ++ s) = option_map (Nat.add (length g)) (find_sub kw s).
Proof.
  intros Hkw Hg. unfold isGap in Hg. apply andb_true_iff in Hg as [_ Hg].
  apply find_sub_ws; assumption.
Qed.

(** A keyword that is nowhere in [s] is in no suffix of it. *)
Lemma find_sub_skipn (kw s : str) (n : nat) :
  find_sub kw s = None -> find_sub kw (skipn n s) = None.
Proof.
  revert s; induction n as [|n IH]; intros s H; [exact H|].
  destruct s as [|x s]; [exact H|].
  simpl skipn. apply IH. simpl in H.
  destruct (prefixb kw (x :: s)); [discriminate|].
  destruct (find_sub kw s); [discriminate | reflexivity].
Qed.

Lemma indexOf_found (s kw : str) (from i : nat) :
  indexOf s kw from = Some i -> find_sub kw s <> None.
Proof.
  unfold indexOf. intros H Hn.
  rewrite (find_sub_skipn _ _ from Hn) in H. discriminate.
Qed.

(** ** Case *)

Lemma toLowerCase_app (a b : str) :
  toLowerCase (a ++ b) = toLowerCase a ++ toLowerCase b.
Proof. apply map_app. Qed.

Lemma toLowerCase_length (a : str) : length (toLowerCase a) = length a.
Proof. apply length_map. Qed.

Lemma lower_char_ws (c : ascii) : is_ws (lower_char c) = is_ws c.
Proof. destruct c as [[] [] [] [] [] [] [] []]; reflexivity. Qed.

Lemma lower_char_of_ws (c : ascii) : is_ws c = true -> lower_char c = c.
Proof.
  destruct c as [[] [] [] [] [] [] [] []]; intros H;
    first [reflexivity | discriminate H].
Qed.

Lemma toLowerCase_ws (g : str) :
  forallb is_ws g = true -> toLowerCase g = g.
Proof.
  induction g as [|c g IH]; simpl; [reflexivity|].
  intros H. apply andb_true_iff in H as [Hc Hg].
  rewrite lower_char_of_ws, IH by assumption. reflexivity.
Qed.

Lemma isGap_ws (g : str) : isGap g = true -> forallb is_ws g = true.
Proof. unfold isGap. intros H. apply andb_true_iff in H as [_ H]. exact H. Qed.

Lemma toLowerCase_gap (g : str) : isGap g = true -> toLowerCase g = g.
Proof. intros H. apply toLowerCase_ws, isGap_ws, H. Qed.

Lemma upper_char_idem (c : ascii) : upper_char (upper_char c) = upper_char c.
Proof. destruct c as [[] [] [] [] [] [] [] []]; reflexivity. Qed.

Lemma toUpperCase_idem (s : str) : toUpperCase (toUpperCase s) = toUpperCase s.
Proof.
  unfold toUpperCase. rewrite map_map. apply map_ext. apply upper_char_idem.
Qed.

Lemma same_lower_length (K kw : str) :
  toLowerCase K = toLowerCase kw -> length K = length kw.
Proof.
  intros H. rewrite <- (toLowerCase_length K), H. apply toLowerCase_length.
Qed.

(** ** Trimming *)

Lemma trimStart_ws (l m : str) :
  forallb is_ws l = true -> trimStart (l ++ m) = trimStart m.
Proof.
  induction l as [|c l IH]; simpl; [reflexivity|].
  intros H; apply andb_true_iff in H as [Hc Hl].
  unfold trimStart in *; simpl. rewrite Hc. auto.
Qed.

Lemma trimStart_clean (m : str) : startsClean m = true -> trimStart m = m.
Proof.
  destruct m as [|c m]; simpl; [reflexivity|].
  intros H; apply negb_true_iff in H. unfold trimStart; simpl.
  rewrite H; reflexivity.
Qed.

Lemma startsClean_app (a b : str) :
  startsClean a = true -> startsClean (a ++ b) = true.
Proof. destruct a; simpl; [discriminate | auto]. Qed.

Lemma endsClean_app (a b : str) :
  endsClean b = true -> endsClean (a ++ b) = true.
Proof.
  unfold endsClean. rewrite rev_app_distr. apply startsClean_app.
Qed.

Lemma forallb_rev {A} (f : A -> bool) (l : list A) :
  forallb f (rev l) = forallb f l.
Proof.
  induction l as [|x l IH]; simpl; [reflexivity|].
  rewrite forallb_app, IH; simpl. rewrite andb_true_r. apply andb_comm.
Qed.

(** White space around a string that begins and ends with something else
    is all that [trim] removes. *)
Lemma trim_ctx (l m r : str) :
  forallb is_ws l = true -> forallb is_ws r = true ->
  startsClean m = true -> endsClean m = true ->
  trim (l ++ m ++ r) = m.
Proof.
  intros Hl Hr Hs He. unfold trim.
  rewrite (trimStart_ws l) by exact Hl.
  rewrite (trimStart_clean (m ++ r)) by (apply startsClean_app; exact Hs).
  rewrite rev_app_distr.
  rewrite (trimStart_ws (rev r)) by (rewrite forallb_rev; exact Hr).
  rewrite (trimStart_clean (rev m)) by exact He.
  apply rev_involutive.
Qed.

Lemma trim_clean (m : str) :
  startsClean m = true -> endsClean m = true -> trim m = m.
Proof.
  intros Hs He. rewrite <- (trim_ctx [] m []) at 2 by auto.
  simpl. rewrite app_nil_r. reflexivity.
Qed.

Lemma trim_gap_l (g m : str) :
  isGap g = true -> startsClean m = true -> endsClean m = true ->
  trim (g ++ m) = m.
Proof.
  intros Hg Hs He. rewrite <- (trim_ctx g m []) at 2; auto using isGap_ws.
  rewrite app_nil_r; reflexivity.
Qed.

Lemma token_starts (t : str) : token t = true -> startsClean t = true.
Proof.
  destruct t as [|c t]; [discriminate|]. unfold token; simpl.
  intros H; apply andb_true_iff in H as [H _]. exact H.
Qed.

Lemma token_rev (t : str) : token (rev t) = token t.
Proof.
  unfold token, nonEmpty. rewrite length_rev, forallb_rev. reflexivity.
Qed.

Lemma token_ends (t : str) : token t = true -> endsClean t = true.
Proof.
  intros H. unfold endsClean. apply token_starts. rewrite token_rev. exact H.
Qed.

Lemma token_lower (K : str) : token (toLowerCase K) = token K.
Proof.
  unfold token, nonEmpty. rewrite toLowerCase_length. f_equal.
  unfold toLowerCase. induction K as [|c K IH]; simpl; [reflexivity|].
  rewrite lower_char_ws, IH. reflexivity.
Qed.

Lemma token_spelling (K kw : str) :
  toLowerCase K = toLowerCase kw -> token (toLowerCase kw) = true ->
  token K = true.
Proof. intros H Hk. rewrite <- token_lower, H. exact Hk. Qed.

(** ** Splitting on spaces *)

Lemma token_no_space (t : str) :
  token t = true -> forallb (fun c => negb (Ascii.eqb c " ")) t = true.
Proof.
  unfold token. intros H; apply andb_true_iff in H as [_ H].
  rewrite forallb_forall in *. intros c Hc. specialize (H c Hc).
  destruct (Ascii.eqb_spec c " ") as [->|]; [discriminate H | reflexivity].
Qed.

Lemma split_word (t s : str) :
  forallb (fun c => negb (Ascii.eqb c " ")) t = true ->
  split " " (t ++ " " :: s) = t :: split " " s.
Proof.
  induction t as [|c t IH]; simpl; intros H; [reflexivity|].
  apply andb_true_iff in H as [Hc Ht]. apply negb_true_iff in Hc.
  rewrite Hc, IH by exact Ht. reflexivity.
Qed.

Lemma split_last (t : str) :
  forallb (fun c => negb (Ascii.eqb c " ")) t = true -> split " " t = [t].
Proof.
  induction t as [|c t IH]; simpl; intros H; [reflexivity|].
  apply andb_true_iff in H as [Hc Ht]. apply negb_true_iff in Hc.
  rewrite Hc, IH by exact Ht. reflexivity.
Qed.

Lemma words_spaces_last (n : nat) (b : str) :
  token b = true -> filter nonEmpty (split " " (repeat " " n ++ b)) = [b].
Proof.
  intros Hb. induction n as [|n IH]; simpl.
  - rewrite split_last by (apply token_no_space; exact Hb). simpl.
    unfold token in Hb. apply andb_true_iff in Hb as [-> _]. reflexivity.
  - exact IH.
Qed.

Lemma spacesOnly_repeat (g : str) :
  spacesOnly g = true -> g = repeat " " (length g).
Proof.
  induction g as [|c g IH]; simpl; [reflexivity|].
  intros H. apply andb_true_iff in H as [Hc Hg].
  apply Ascii.eqb_eq in Hc. subst c. f_equal. apply IH; exact Hg.
Qed.

(** The amount and the currency are the two words around a gap of
    spaces. *)
Lemma words_two (a b g : str) :
  token a = true -> token b = true ->
  isGap g = true -> spacesOnly g = true ->
  filter nonEmpty (split " " (a ++ g ++ b)) = [a; b].
Proof.
  intros Ha Hb Hg Hs. rewrite (spacesOnly_repeat g Hs).
  destruct g as [|c g]; [discriminate Hg|]. simpl length. simpl repeat.
  change ((" " :: repeat " " (length g)) ++ b)
    with (" " :: (repeat " " (length g) ++ b)).
  rewrite split_word by (apply token_no_space; exact Ha).
  simpl filter. rewrite words_spaces_last by exact Hb.
  unfold token in Ha. apply andb_true_iff in Ha as [-> _]. reflexivity.
Qed.

(** ** Positions *)

Lemma at_start (T : str) : at_pos T 0 T.
Proof. exists []; split; reflexivity. Qed.

Lemma at_app (T X rest : str) (i : nat) :
  at_pos T i (X ++ rest) -> at_pos T (i + length X) rest.
Proof.
  intros (P & -> & <-). exists (P ++ X). split.
  - rewrite app_assoc; reflexivity.
  - apply length_app.
Qed.

Lemma at_app_len (T X rest : str) (i n j : nat) :
  at_pos T i (X ++ rest) -> length X = n -> (i + n = j)%nat ->
  at_pos T j rest.
Proof. intros H <- <-. apply at_app; exact H. Qed.

Lemma at_skipn (T rest : str) (i : nat) : at_pos T i rest -> skipn i T = rest.
Proof.
  intros (P & -> & <-). rewrite skipn_app, skipn_all, Nat.sub_diag.
  reflexivity.
Qed.

Lemma at_lower (T rest : str) (i : nat) :
  at_pos T i rest -> at_pos (toLowerCase T) i (toLowerCase rest).
Proof.
  intros (P & -> & <-). exists (toLowerCase P). split.
  - apply toLowerCase_app.
  - apply toLowerCase_length.
Qed.

Lemma findKeywordIndex_at (T rest kw : str) (i : nat) :
  at_pos T i rest ->
  findKeywordIndex T kw i
  = option_map (Nat.add i) (find_sub (toLowerCase kw) (toLowerCase rest)).
Proof.
  intros H. unfold findKeywordIndex, indexOf.
  rewrite (at_skipn _ _ _ (at_lower _ _ _ H)). reflexivity.
Qed.

Lemma substring_at (T X rest : str) (i j : nat) :
  at_pos T i (X ++ rest) -> (i + length X = j)%nat -> substring T i j = X.
Proof.
  intros H <-. unfold substring.
  rewrite Nat.min_l, Nat.max_r by lia.
  rewrite (at_skipn _ _ _ H).
  replace (i + length X - i)%nat with (length X + 0)%nat by lia.
  rewrite firstn_app_2. simpl. apply app_nil_r.
Qed.

Lemma substringFrom_at (T rest : str) (i : nat) :
  at_pos T i rest -> substringFrom T i = rest.
Proof. apply at_skipn. Qed.

(** ** One stage of the scan

    The scanner stands at position [i] of [T]; what follows is a stretch
    [pre] free of the keyword, then the keyword spelled [K]. *)

Lemma stage_gen (T pre K more kw : str) (i : nat) :
  at_pos T i (pre ++ K ++ more) ->
  toLowerCase K = toLowerCase kw ->
  find_sub (toLowerCase kw)
    (toLowerCase pre ++ toLowerCase kw ++ toLowerCase more)
  = Some (length pre) ->
  findKeywordIndex T kw i = Some (i + length pre)%nat
  /\ at_pos T (i + length pre) (K ++ more)
  /\ substring T i (i + length pre) = pre.
Proof.
  intros Hat HK Hfind. repeat split.
  - rewrite (findKeywordIndex_at _ _ _ _ Hat).
    rewrite !toLowerCase_app, HK, Hfind. reflexivity.
  - apply at_app; exact Hat.
  - apply (substring_at _ _ _ _ _ Hat). reflexivity.
Qed.

(** [pre] is a gap. *)
Lemma stage_gap (T K more kw a : str) (i : nat) :
  at_pos T i (a ++ K ++ more) ->
  toLowerCase K = toLowerCase kw -> token (toLowerCase kw) = true ->
  isGap a = true ->
  findKeywordIndex T kw i = Some (i + length a)%nat
  /\ at_pos T (i + length a) (K ++ more).
Proof.
  intros Hat HK Hkw Ha.
  destruct (stage_gen T a K more kw i Hat HK) as (F & A & _); auto.
  rewrite (toLowerCase_gap a), find_sub_gap, find_sub_hit by assumption.
  cbn [option_map]. f_equal. lia.
Qed.

(** [pre] is the previous keyword and a gap. *)
Lemma stage_after_keyword (T Kprev K more kw a : str) (i : nat) :
  at_pos T i (Kprev ++ a ++ K ++ more) ->
  toLowerCase K = toLowerCase kw -> token (toLowerCase kw) = true ->
  isGap a = true ->
  find_sub (toLowerCase kw) (toLowerCase Kprev) = None ->
  findKeywordIndex T kw i = Some (i + length (Kprev ++ a))%nat
  /\ at_pos T (i + length (Kprev ++ a)) (K ++ more).
Proof.
  intros Hat HK Hkw Ha Hprev.
  rewrite app_assoc in Hat.
  destruct (stage_gen T (Kprev ++ a) K more kw i Hat HK) as (F & A & _);
    auto.
  rewrite toLowerCase_app, (toLowerCase_gap a), <- app_assoc by assumption.
  rewrite find_sub_block, find_sub_hit by assumption.
  cbn [option_map]. rewrite length_app, toLowerCase_length. f_equal. lia.
Qed.

(** [pre] is a gap, a token and a gap. *)
Lemma stage_token (T t K more kw a b : str) (i : nat) :
  at_pos T i (a ++ t ++ b ++ K ++ more) ->
  toLowerCase K = toLowerCase kw -> token (toLowerCase kw) = true ->
  isGap a = true -> isGap b = true ->
  find_sub (toLowerCase kw) (toLowerCase t) = None ->
  findKeywordIndex T kw i = Some (i + length (a ++ t ++ b))%nat
  /\ at_pos T (i + length (a ++ t ++ b)) (K ++ more)
  /\ substring T i (i + length (a ++ t ++ b)) = a ++ t ++ b.
Proof.
  intros Hat HK Hkw Ha Hb Ht.
  assert (Hat' : at_pos T i ((a ++ t ++ b) ++ K ++ more))
    by (repeat rewrite <- app_assoc; exact Hat).
  apply (stage_gen T (a ++ t ++ b) K more kw i Hat' HK).
  rewrite !toLowerCase_app, (toLowerCase_gap a), (toLowerCase_gap b)
    by assumption.
  repeat rewrite <- app_assoc.
  rewrite find_sub_gap, find_sub_block, find_sub_hit by assumption.
  cbn [option_map]. rewrite !length_app, toLowerCase_length. f_equal. lia.
Qed.

(** [pre] is a gap, two tokens with a gap between, and a gap. *)
Lemma stage_two_tokens (T t1 t2 K more kw a b c : str) (i : nat) :
  at_pos T i (a ++ t1 ++ b ++ t2 ++ c ++ K ++ more) ->
  toLowerCase K = toLowerCase kw -> token (toLowerCase kw) = true ->
  isGap a = true -> isGap b = true -> isGap c = true ->
  find_sub (toLowerCase kw) (toLowerCase t1) = None ->
  find_sub (toLowerCase kw) (toLowerCase t2) = None ->
  findKeywordIndex T kw i
  = Some (i + length (a ++ (t1 ++ b ++ t2) ++ c))%nat
  /\ at_pos T (i + length (a ++ (t1 ++ b ++ t2) ++ c)) (K ++ more)
  /\ substring T i (i + length (a ++ (t1 ++ b ++ t2) ++ c))
     = a ++ (t1 ++ b ++ t2) ++ c.
Proof.
  intros Hat HK Hkw Ha Hb Hc H1 H2.
  assert (Hat' : at_pos T i ((a ++ (t1 ++ b ++ t2) ++ c) ++ K ++ more))
    by (repeat rewrite <- app_assoc; exact Hat).
  apply (stage_gen T _ K more kw i Hat' HK).
  rewrite !toLowerCase_app, (toLowerCase_gap a), (toLowerCase_gap b),
    (toLowerCase_gap c) by assumption.
  repeat rewrite <- app_assoc.
  rewrite find_sub_gap, find_sub_block, find_sub_block, find_sub_hit
    by assumption.
  cbn [option_map]. rewrite !length_app, !toLowerCase_length. f_equal. lia.
Qed.

Lemma extractBetween_some (T : str) (a b : nat) :
  extractBetween T a (Some b) = trim (substring T a b).
Proof. reflexivity. Qed.

Lemma extractBetween_none (T : str) (a : nat) :
  extractBetween T a None = trim (substringFrom T a).
Proof. reflexivity. Qed.

Section ScanBody.

Variables k0 kA kB kC : str.
Variable L : Layout.
Variable p : ParsedInstruction.

Hypothesis H0 : toLowerCase (spelling L 0) = toLowerCase k0.
Hypothesis HA : toLowerCase (spelling L 1) = toLowerCase kA.
Hypothesis Hacc1 : toLowerCase (spelling L 2) = toLowerCase (js "ACCOUNT").
Hypothesis Hfor : toLowerCase (spelling L 3) = toLowerCase (js "FOR").
Hypothesis HB : toLowerCase (spelling L 4) = toLowerCase kB.
Hypothesis HC : toLowerCase (spelling L 5) = toLowerCase kC.
Hypothesis Hacc2 : toLowerCase (spelling L 6) = toLowerCase (js "ACCOUNT").
Hypothesis Hon : toLowerCase (spelling L 7) = toLowerCase (js "ON").

Hypothesis tokA : token (toLowerCase kA) = true.
Hypothesis tokB : token (toLowerCase kB) = true.
Hypothesis tokC : token (toLowerCase kC) = true.
Hypothesis accA : find_sub (toLowerCase (js "ACCOUNT")) (toLowerCase kA) = None.
Hypothesis forB : find_sub (toLowerCase kB) (toLowerCase (js "FOR")) = None.
Hypothesis accC : find_sub (toLowerCase (js "ACCOUNT")) (toLowerCase kC) = None.

Hypothesis gaps : forall i, (i < 12)%nat -> isGap (gap L i) = true.
Hypothesis gap_spaces : spacesOnly (gap L 1) = true.

Hypothesis tok_amount : token (p_amount p) = true.
Hypothesis tok_currency : token (p_currency p) = true.
Hypothesis tok_first : token (firstAccount p) = true.
Hypothesis tok_second : token (secondAccount p) = true.

Hypothesis safe_amount :
  find_sub (toLowerCase kA) (toLowerCase (p_amount p)) = None.
Hypothesis safe_currency :
  find_sub (toLowerCase kA) (toLowerCase (p_currency p)) = None.
Hypothesis safe_first :
  find_sub (toLowerCase (js "FOR")) (toLowerCase (firstAccount p)) = None.
Hypothesis safe_second :
  find_sub (toLowerCase (js "ON")) (toLowerCase (secondAccount p)) = None.

(** Up to the second [ACCOUNT]: the scanner ends right behind it, with the
    amount, the currency and the first account in hand. *)
Lemma scan_front (tail : str) :
  exists j,
    at_pos (body L p tail) j (gap L 9 ++ secondAccount p ++ tail)
    /\ scanBody k0 kA kB kC (body L p tail)
       = let T := body L p tail in
         let '(second, executeBy) :=
           match findKeywordIndex T (js "ON") j with
           | Some on =>
               (trim (extractBetween T j (Some on)),
                Some (trim (extractBetween T (on + 2) None)))
           | None => (trim (extractBetween T j None), None)
           end in
         Some (p_amount p, toUpperCase (p_currency p), firstAccount p,
               second, orNull executeBy).
Proof.
  set (T := body L p tail).
  pose proof (at_start T) as A0. unfold T at 2, body in A0.
  pose proof (at_app_len _ _ _ _ _ (length k0) A0
                (same_lower_length _ _ H0) eq_refl) as A1.
  pose proof (fun i (H : (i < 12)%nat) => gaps i H) as G.
  pose proof (G 0%nat ltac:(lia)) as G0. pose proof (G 1%nat ltac:(lia)) as G1.
  pose proof (G 2%nat ltac:(lia)) as G2. pose proof (G 4%nat ltac:(lia)) as G4.
  pose proof (G 5%nat ltac:(lia)) as G5.
  destruct (stage_two_tokens _ _ _ _ _ _ _ _ _ _ A1 HA tokA G0 G1 G2
              safe_amount safe_currency) as (F1 & A2 & S1).
  unfold scanBody. rewrite F1. cbv beta iota.
  rewrite extractBetween_some, S1.
  rewrite trim_ctx
    by auto using isGap_ws, token_starts, token_ends, startsClean_app,
         endsClean_app.
  rewrite words_two by assumption.
  cbv beta iota.
  destruct (stage_after_keyword _ _ _ _ _ _ _ A2 Hacc1 eq_refl
              (G 3%nat ltac:(lia))) as (F2 & A3).
  { rewrite HA; exact accA. }
  rewrite F2. cbv beta iota.
  pose proof (at_app_len _ _ _ _ _ _ A3
                (same_lower_length _ _ Hacc1) eq_refl) as A4.
  destruct (stage_token _ _ _ _ _ _ _ _ A4 Hfor eq_refl G4 G5 safe_first)
    as (F3 & A5 & S3).
  change (length (js "ACCOUNT")) with 7%nat in *.
  rewrite F3. cbv beta iota.
  rewrite extractBetween_some, S3.
  rewrite trim_ctx, trim_clean
    by auto using isGap_ws, token_starts, token_ends.
  destruct (stage_after_keyword _ _ _ _ _ _ _ A5 HB tokB
              (G 6%nat ltac:(lia))) as (F4 & A6).
  { rewrite Hfor; exact forB. }
  rewrite F4. cbv beta iota.
  pose proof (at_app_len _ _ _ _ _ _ A6
                (same_lower_length _ _ HB) eq_refl) as A7.
  destruct (stage_gap _ _ _ _ _ _ A7 HC tokC (G 7%nat ltac:(lia)))
    as (F5 & A8).
  rewrite F5. cbv beta iota.
  destruct (stage_after_keyword _ _ _ _ _ _ _ A8 Hacc2 eq_refl
              (G 8%nat ltac:(lia))) as (F6 & A9).
  { rewrite HC; exact accC. }
  rewrite F6. cbv beta iota.
  pose proof (at_app_len _ _ _ _ _ _ A9
                (same_lower_length _ _ Hacc2) eq_refl) as A10.
  change (length (js "ACCOUNT")) with 7%nat in *.
  eexists; split; [exact A10 | reflexivity].
Qed.

(** No [ON]: the second account runs to the end. *)
Lemma scan_plain :
  scanBody k0 kA kB kC (body L p [])
  = Some (p_amount p, toUpperCase (p_currency p), firstAccount p,
          secondAccount p, None).
Proof.
  destruct (scan_front []) as (j & A & ->). cbv zeta.
  rewrite (findKeywordIndex_at _ _ _ _ A).
  assert (G9 : isGap (gap L 9) = true) by (apply gaps; lia).
  rewrite !toLowerCase_app, (toLowerCase_gap (gap L 9)), app_nil_r
    by exact G9.
  rewrite find_sub_gap by (first [reflexivity | exact G9]).
  rewrite safe_second. cbv beta iota delta [option_map].
  rewrite extractBetween_none, (substringFrom_at _ _ _ A), app_nil_r.
  rewrite trim_gap_l, trim_clean by auto using token_starts, token_ends.
  reflexivity.
Qed.

(** [ON] and whatever follows it: the second account ends at [ON], the
    rest, trimmed, is the date. *)
Lemma scan_dated (X : str) :
  scanBody k0 kA kB kC (body L p (gap L 10 ++ spelling L 7 ++ X))
  = Some (p_amount p, toUpperCase (p_currency p), firstAccount p,
          secondAccount p, orNull (Some (trim (trim X)))).
Proof.
  destruct (scan_front (gap L 10 ++ spelling L 7 ++ X)) as (j & A & ->).
  cbv zeta.
  assert (G9 : isGap (gap L 9) = true) by (apply gaps; lia).
  assert (G10 : isGap (gap L 10) = true) by (apply gaps; lia).
  destruct (stage_token _ _ _ _ _ _ _ _ A Hon eq_refl G9 G10 safe_second)
    as (F & A' & S').
  rewrite F. cbv beta iota.
  rewrite extractBetween_some, S', extractBetween_none.
  pose proof (at_app_len _ _ _ _ _ _ A' (same_lower_length _ _ Hon) eq_refl)
    as A''.
  change (length (js "ON")) with 2%nat in A''.
  rewrite (substringFrom_at _ _ _ A'').
  rewrite trim_ctx, trim_clean
    by auto using isGap_ws, token_starts, token_ends.
  reflexivity.
Qed.

End ScanBody.

(** ** From the scan to [parseInstruction] *)

Lemma parseInstruction_scan (s : str) :
  parseInstruction s
  = let t := trim s in
    if starts_at_zero (findKeywordIndex t (js "DEBIT") 0) then
      option_map asDebit
        (scanBody (js "DEBIT") (js "FROM") (js "CREDIT") (js "TO") t)
    else if starts_at_zero (findKeywordIndex t (js "CREDIT") 0) then
      option_map asCredit
        (scanBody (js "CREDIT") (js "TO") (js "DEBIT") (js "FROM") t)
    else None.
Proof.
  unfold parseInstruction, scanBody. cbv zeta.
  generalize (trim s) as t. intros t.
  change (length (js "DEBIT")) with 5%nat.
  change (length (js "CREDIT")) with 6%nat.
  destruct (starts_at_zero (findKeywordIndex t (js "DEBIT") 0));
    [|destruct (starts_at_zero (findKeywordIndex t (js "CREDIT") 0))];
    cbn [negb andb]; try reflexivity;
    repeat match goal with
      | |- context [match findKeywordIndex ?a ?b ?c with _ => _ end] =>
          destruct (findKeywordIndex a b c); cbn [option_map]; try reflexivity
      | |- context [match filter ?f ?l with _ => _ end] =>
          destruct (filter f l) as [|? [|? ?]]; cbn [option_map];
          try reflexivity
      end.
Qed.

Lemma layoutOk_parts (t : InstructionType) (L : Layout) :
  layoutOk t L = true ->
  (forall i, (i < 8)%nat ->
     toLowerCase (spelling L i) = toLowerCase (keywordAt t i))
  /\ (forall i, (i < 12)%nat -> isGap (gap L i) = true)
  /\ spacesOnly (gap L 1) = true
  /\ forallb is_ws (leading L) = true
  /\ forallb is_ws (trailing L) = true.
Proof.
  unfold layoutOk. intros H.
  apply andb_true_iff in H as [H Ht]. apply andb_true_iff in H as [H Hl].
  apply andb_true_iff in H as [H Hs]. apply andb_true_iff in H as [Hk Hg].
  rewrite forallb_forall in Hk, Hg.
  repeat split; try assumption.
  - intros i Hi. apply str_eqb_eq, Hk, in_seq. lia.
  - intros i Hi. apply Hg, in_seq. lia.
Qed.

Lemma layoutOk_spelling (t : InstructionType) (L : Layout) (i : nat) :
  layoutOk t L = true -> (i < 8)%nat ->
  toLowerCase (spelling L i) = toLowerCase (keywordAt t i).
Proof. intros H. apply (layoutOk_parts t L H). Qed.

Lemma layoutOk_gap (t : InstructionType) (L : Layout) (i : nat) :
  layoutOk t L = true -> (i < 12)%nat -> isGap (gap L i) = true.
Proof. intros H. apply (layoutOk_parts t L H). Qed.

Lemma layoutOk_around (t : InstructionType) (L : Layout) :
  layoutOk t L = true ->
  forallb is_ws (leading L) = true /\ forallb is_ws (trailing L) = true.
Proof. intros H. split; apply (layoutOk_parts t L H). Qed.

Lemma body_startsClean (t : InstructionType) (L : Layout)
  (p : ParsedInstruction) (tail : str) :
  layoutOk t L = true -> startsClean (body L p tail) = true.
Proof.
  intros H. unfold body. apply startsClean_app, token_starts.
  apply (token_spelling _ _ (layoutOk_spelling t L 0 H ltac:(lia))).
  destruct t; reflexivity.
Qed.

Lemma body_endsClean (L : Layout) (p : ParsedInstruction) (tail : str) :
  endsClean (secondAccount p ++ tail) = true ->
  endsClean (body L p tail) = true.
Proof. intros H. unfold body. do 20 apply endsClean_app. exact H. Qed.

Lemma trim_laid_out (t : InstructionType) (L : Layout)
  (p : ParsedInstruction) (tail : str) :
  layoutOk t L = true -> endsClean (secondAccount p ++ tail) = true ->
  trim (leading L ++ body L p tail ++ trailing L) = body L p tail.
Proof.
  intros H He. destruct (layoutOk_around _ _ H) as [Hl Hr].
  apply trim_ctx; eauto using body_startsClean, body_endsClean.
Qed.

Lemma starts_with_keyword (K rest kw : str) :
  toLowerCase K = toLowerCase kw ->
  starts_at_zero (findKeywordIndex (K ++ rest) kw 0) = true.
Proof.
  intros H. rewrite (findKeywordIndex_at _ _ _ _ (at_start _)).
  rewrite toLowerCase_app, H, find_sub_hit. reflexivity.
Qed.

Lemma starts_with_other (K rest kw : str) :
  prefixb (toLowerCase kw) (toLowerCase K ++ toLowerCase rest) = false ->
  starts_at_zero (findKeywordIndex (K ++ rest) kw 0) = false.
Proof.
  intros H. rewrite (findKeywordIndex_at _ _ _ _ (at_start _)).
  rewrite toLowerCase_app.
  destruct (toLowerCase K ++ toLowerCase rest) as [|c s] eqn:E.
  - simpl find_sub. rewrite H. reflexivity.
  - simpl find_sub. rewrite H. destruct (find_sub (toLowerCase kw) s);
      reflexivity.
Qed.

Lemma parse_laid_out (L : Layout) (p : ParsedInstruction) (tail : str) :
  layoutOk (p_type p) L = true ->
  endsClean (secondAccount p ++ tail) = true ->
  parseInstruction (leading L ++ body L p tail ++ trailing L)
  = match p_type p with
    | DEBIT =>
        option_map asDebit
          (scanBody (js "DEBIT") (js "FROM") (js "CREDIT") (js "TO")
             (body L p tail))
    | CREDIT =>
        option_map asCredit
          (scanBody (js "CREDIT") (js "TO") (js "DEBIT") (js "FROM")
             (body L p tail))
    end.
Proof.
  intros H He. rewrite parseInstruction_scan. cbv zeta.
  rewrite (trim_laid_out _ _ _ _ H He).
  pose proof (layoutOk_spelling _ _ 0 H ltac:(lia)) as H0.
  destruct (p_type p); unfold body at 1.
  - rewrite starts_with_keyword by exact H0. reflexivity.
  - unfold body at 2.
    rewrite starts_with_other by (rewrite H0; reflexivity).
    rewrite starts_with_keyword by exact H0. reflexivity.
Qed.

Lemma mentions_false (t kw : str) :
  negb (mentions t kw) = true ->
  find_sub (toLowerCase kw) (toLowerCase t) = None.
Proof.
  unfold mentions. rewrite negb_involutive.
  destruct (find_sub (toLowerCase kw) (toLowerCase t)); [discriminate | auto].
Qed.

(** The scan of a laid-out instruction, whatever follows the second
    account: nothing, or [ON] and some text. *)
Lemma scan_laid_out (L : Layout) (p : ParsedInstruction) :
  layoutOk (p_type p) L = true ->
  token (p_amount p) = true -> token (p_currency p) = true ->
  token (p_debitAccount p) = true -> token (p_creditAccount p) = true ->
  scanSafe p = true ->
  let scan tail :=
    match p_type p with
    | DEBIT =>
        option_map asDebit
          (scanBody (js "DEBIT") (js "FROM") (js "CREDIT") (js "TO")
             (body L p tail))
    | CREDIT =>
        option_map asCredit
          (scanBody (js "CREDIT") (js "TO") (js "DEBIT") (js "FROM")
             (body L p tail))
    end in
  scan [] = Some (expected (withoutDate p))
  /\ forall X,
       scan (gap L 10 ++ spelling L 7 ++ X)
       = Some (mkParsed (p_type p) (p_amount p) (toUpperCase (p_currency p))
                 (p_debitAccount p) (p_creditAccount p)
                 (orNull (Some (trim (trim X))))).
Proof.
  intros HL Ta Tc Td Tr Hsafe. unfold scanSafe in Hsafe.
  apply andb_true_iff in Hsafe as [Hsafe S4].
  apply andb_true_iff in Hsafe as [Hsafe S3].
  apply andb_true_iff in Hsafe as [S1 S2].
  apply mentions_false in S1, S2, S3, S4.
  pose proof (fun i Hi => layoutOk_spelling _ _ i HL Hi) as HK.
  pose proof (fun i Hi => layoutOk_gap _ _ i HL Hi) as HG.
  destruct (layoutOk_parts _ _ HL) as (_ & _ & HS & _).
  unfold firstAccount, secondAccount in *.
  destruct p as [ty amt cur deb cre date]; simpl p_type in *;
    simpl p_amount in *; simpl p_currency in *; simpl p_debitAccount in *;
    simpl p_creditAccount in *; cbv zeta.
  destruct ty; split; intros.
  - rewrite scan_plain; try reflexivity; try assumption;
      try (apply HK; lia).
  - rewrite scan_dated; try reflexivity; try assumption;
      try (apply HK; lia).
  - rewrite scan_plain; try reflexivity; try assumption;
      try (apply HK; lia).
  - rewrite scan_dated; try reflexivity; try assumption;
      try (apply HK; lia).
Qed.

(** A laid-out instruction with safe fields scans to its fields. *)
Lemma parse_render (L : Layout) (p : ParsedInstruction) :
  layoutOk (p_type p) L = true -> wellFormed p = true -> scanSafe p = true ->
  parseInstruction (render L p) = Some (expected p).
Proof.
  intros HL Hwf Hsafe. unfold wellFormed in Hwf.
  apply andb_true_iff in Hwf as [Hwf Tdate].
  apply andb_true_iff in Hwf as [Hwf Tr].
  apply andb_true_iff in Hwf as [Hwf Td].
  apply andb_true_iff in Hwf as [Ta Tc].
  destruct (scan_laid_out L p HL Ta Tc Td Tr Hsafe) as [Hplain Hdated].
  assert (Tsecond : token (secondAccount p) = true)
    by (unfold secondAccount; destruct (p_type p); assumption).
  unfold render, dateTail. destruct (p_executeBy p) as [d|] eqn:Hd.
  - rewrite parse_laid_out.
    + rewrite Hdated. unfold expected. rewrite Hd.
      rewrite trim_gap_l, trim_clean
        by (eauto using token_starts, token_ends, layoutOk_gap with arith).
      destruct d; [discriminate Tdate | reflexivity].
    + exact HL.
    + do 4 apply endsClean_app. apply token_ends; exact Tdate.
  - rewrite parse_laid_out.
    + rewrite Hplain. unfold expected, withoutDate; simpl. rewrite Hd.
      reflexivity.
    + exact HL.
    + rewrite app_nil_r. apply token_ends; exact Tsecond.
Qed.

(** [ON] with nothing but white space after it: the instruction scans as
    if it had no date. *)
Lemma parse_renderBlankOn (L : Layout) (p : ParsedInstruction) :
  layoutOk (p_type p) L = true -> wellFormed p = true -> scanSafe p = true ->
  parseInstruction (renderBlankOn L p) = Some (expected (withoutDate p)).
Proof.
  intros HL Hwf Hsafe. unfold wellFormed in Hwf.
  apply andb_true_iff in Hwf as [Hwf _].
  apply andb_true_iff in Hwf as [Hwf Tr].
  apply andb_true_iff in Hwf as [Hwf Td].
  apply andb_true_iff in Hwf as [Ta Tc].
  destruct (scan_laid_out L p HL Ta Tc Td Tr Hsafe) as [_ Hdated].
  unfold renderBlankOn.
  rewrite <- (app_nil_r (spelling L 7)).
  rewrite parse_laid_out.
  - rewrite Hdated. reflexivity.
  - exact HL.
  - rewrite app_nil_r. do 2 apply endsClean_app. apply token_ends.
    apply (token_spelling _ _ (layoutOk_spelling _ _ 7 HL ltac:(lia))).
    destruct (p_type p); reflexivity.
Qed.

(** ** Strings the scanner gives up on *)

Lemma starts_at_zero_prefix (T kw : str) :
  starts_at_zero (findKeywordIndex T kw 0)
  = prefixb (toLowerCase kw) (toLowerCase T).
Proof.
  rewrite (findKeywordIndex_at _ _ _ _ (at_start _)).
  destruct (toLowerCase T) as [|c s]; simpl find_sub;
    destruct (prefixb (toLowerCase kw) _); try reflexivity.
  destruct (find_sub (toLowerCase kw) s); reflexivity.
Qed.

Lemma findKeywordIndex_mentions (T kw : str) (from i : nat) :
  findKeywordIndex T kw from = Some i -> mentions T kw = true.
Proof.
  unfold findKeywordIndex, mentions. intros H.
  apply indexOf_found in H.
  destruct (find_sub (toLowerCase kw) (toLowerCase T)); [reflexivity|].
  contradiction H; reflexivity.
Qed.

Lemma prefix_mentions (T kw : str) :
  prefixb (toLowerCase kw) (toLowerCase T) = true -> mentions T kw = true.
Proof.
  unfold mentions. intros H.
  destruct (toLowerCase T); simpl find_sub; rewrite H; reflexivity.
Qed.

(** A scan that succeeds has met every keyword it looks for. *)
Lemma scanBody_mentions (k0 kA kB kC t : str)
  (r : str * str * str * str * option str) :
  scanBody k0 kA kB kC t = Some r ->
  forallb (mentions t) [kA; js "ACCOUNT"; js "FOR"; kB; kC] = true.
Proof.
  unfold scanBody. intros H.
  destruct (findKeywordIndex t kA (length k0)) as [i1|] eqn:E1;
    [|discriminate].
  destruct (filter nonEmpty _) as [|? [|? ?]]; try discriminate.
  destruct (findKeywordIndex t (js "ACCOUNT") i1) as [i2|] eqn:E2;
    [|discriminate].
  destruct (findKeywordIndex t (js "FOR") (i2 + 7)) as [i3|] eqn:E3;
    [|discriminate].
  destruct (findKeywordIndex t kB i3) as [i4|] eqn:E4; [|discriminate].
  destruct (findKeywordIndex t kC (i4 + length kB)) as [i5|] eqn:E5;
    [|discriminate].
  cbn [forallb].
  rewrite (findKeywordIndex_mentions _ _ _ _ E1),
    (findKeywordIndex_mentions _ _ _ _ E2),
    (findKeywordIndex_mentions _ _ _ _ E3),
    (findKeywordIndex_mentions _ _ _ _ E4),
    (findKeywordIndex_mentions _ _ _ _ E5).
  reflexivity.
Qed.

Lemma parse_incomplete (s : str) :
  keywordIncomplete s = true -> parseInstruction s = None.
Proof.
  unfold keywordIncomplete. cbv zeta. intros H.
  rewrite parseInstruction_scan. cbv zeta.
  rewrite !starts_at_zero_prefix.
  change (toLowerCase (js "DEBIT")) with (js "debit").
  change (toLowerCase (js "CREDIT")) with (js "credit").
  destruct (prefixb (js "debit") (toLowerCase (trim s))) eqn:Pd.
  - destruct (scanBody _ _ _ _ (trim s)) as [r|] eqn:Hs; [|reflexivity].
    apply scanBody_mentions in Hs. cbn [forallb] in Hs.
    pose proof (prefix_mentions (trim s) (js "DEBIT") Pd) as Md.
    cbn [negb andb orb existsb] in H. rewrite Md in H.
    repeat (apply andb_true_iff in Hs as [?M Hs]).
    repeat match goal with
           | M : mentions _ _ = true |- _ => rewrite M in H; clear M
           end.
    discriminate H.
  - destruct (prefixb (js "credit") (toLowerCase (trim s))) eqn:Pc;
      [|reflexivity].
    destruct (scanBody _ _ _ _ (trim s)) as [r|] eqn:Hs; [|reflexivity].
    apply scanBody_mentions in Hs. cbn [forallb] in Hs.
    pose proof (prefix_mentions (trim s) (js "CREDIT") Pc) as Mc.
    cbn [negb andb orb existsb] in H. rewrite Mc in H.
    repeat (apply andb_true_iff in Hs as [?M Hs]).
    repeat match goal with
           | M : mentions _ _ = true |- _ => rewrite M in H; clear M
           end.
    discriminate H.
Qed.

(** * The processor *)

(** An integer up to [2^53] in absolute value is its own Number value. *)
Lemma toNumber_safe (z : Z) : (Z.abs z <= maxSafe)%Z -> toNumber z = Num z.
Proof.
  intros H. unfold toNumber, roundToDouble.
  destruct (Z.leb_spec (Z.abs z) maxSafe) as [_|Hgt]; [|lia].
  assert (Hmax : (maxSafe < 2 ^ 1024)%Z) by reflexivity.
  destruct (Z.ltb_spec (Z.abs z) (2 ^ 1024)) as [_|Hbig]; [reflexivity|].
  revert Hmax Hbig. generalize (2 ^ 1024)%Z. intros big Hmax Hbig. lia.
Qed.

Lemma safeBalances_In (accounts : list Account) (acc : Account) :
  safeBalances accounts = true -> In acc accounts ->
  (Z.abs (acc_balance acc) <= halfSafe)%Z.
Proof.
  unfold safeBalances. rewrite forallb_forall. intros H Hin.
  apply Z.leb_le, H, Hin.
Qed.

(** Within [safeBalances] a transfer is computed exactly. *)
Lemma safe_transfer (accounts : list Account) (d c : Account) (a : Z) :
  safeBalances accounts = true -> In d accounts -> In c accounts ->
  (0 < a <= acc_balance d)%Z ->
  js_sub (Num (acc_balance d)) (Num a) = Num (acc_balance d - a)
  /\ js_add (Num (acc_balance c)) (Num a) = Num (acc_balance c + a).
Proof.
  intros Hsafe Hd Hc Ha.
  pose proof (safeBalances_In _ _ Hsafe Hd) as Sd.
  pose proof (safeBalances_In _ _ Hsafe Hc) as Sc.
  split; apply toNumber_safe; unfold maxSafe, halfSafe in *; lia.
Qed.

Lemma js_gt_zero (n : JsNumber) :
  js_gt n (Num 0) = true ->
  (exists a, n = Num a /\ (0 < a)%Z) \/ n = Infinity false.
Proof.
  destruct n as [|a|[]]; simpl; try discriminate.
  - intros H. left. exists a.
    split; [reflexivity | apply Z.ltb_lt; exact H].
  - intros _. right. reflexivity.
Qed.

(** An amount that passes [isPositiveInteger] parses to a positive
    integer, or to [Infinity] when it is beyond the doubles. *)
Lemma isPositiveInteger_parseInt (amount : str) :
  isPositiveInteger amount = true ->
  (exists a, parseInt amount = Num a /\ (0 < a)%Z)
  \/ parseInt amount = Infinity false.
Proof.
  unfold isPositiveInteger. intros H.
  destruct (length amount =? 0)%nat; [discriminate|].
  destruct (_ || _); [discriminate|].
  destruct (negb _); [discriminate|].
  apply js_gt_zero; exact H.
Qed.

(** An amount that passes [isPositiveInteger] and the funds check is a
    positive integer within the balance. *)
Lemma amount_in_funds (amount : str) (balance : Z) :
  isPositiveInteger amount = true ->
  js_lt (Num balance) (parseInt amount) = false ->
  exists a, parseInt amount = Num a /\ (0 < a <= balance)%Z.
Proof.
  intros Hpos Hlt.
  destruct (isPositiveInteger_parseInt _ Hpos) as [(a & Ha & Hp) | Hinf].
  - exists a. split; [exact Ha|]. rewrite Ha in Hlt. cbn [js_lt] in Hlt.
    apply Z.ltb_ge in Hlt. lia.
  - rewrite Hinf in Hlt. discriminate Hlt.
Qed.

(** The processor is the validation chain: it answers with the failure of
    the first check that fails, and with the final response when none
    does. *)
Lemma processParsed_spec (M : Messages) (now : Z) (accounts : list Account)
  (p : ParsedInstruction) :
  p_executeBy p <> Some [] ->
  match firstFailureIndex validationChain accounts p with
  | Some k =>
      processParsed M now accounts p
      = response p (failureAmount k p) failed
          (failureReason M k accounts p) (failureCode k)
          (failureSnapshots k accounts p)
  | None =>
      exists d c a,
        findAccount accounts (p_debitAccount p) = Some d
        /\ findAccount accounts (p_creditAccount p) = Some c
        /\ parseInt (p_amount p) = Num a
        /\ (0 < a <= acc_balance d)%Z
        /\ processParsed M now accounts p = finalResponse M now accounts p d c a
  end.
Proof.
  intros Hdate. unfold processParsed, finalResponse. cbv zeta.
  cbn [firstFailureIndex validationChain].
  unfold amountFormat, debitIdFormat, creditIdFormat, dateFormat,
    currencySupported, accountsDiffer, debitExists, creditExists,
    accountCurrenciesEqual, instructionCurrencyEqual, sufficientFunds,
    findAccount.
  destruct (isPositiveInteger (p_amount p)) eqn:Ha; cbn [negb option_map].
  2: { unfold failureAmount. cbn [Nat.eqb andb].
       destruct (nonEmpty (p_amount p)); reflexivity. }
  destruct (isValidAccountId (p_debitAccount p)); cbn [negb option_map];
    [|reflexivity].
  destruct (isValidAccountId (p_creditAccount p)); cbn [negb option_map];
    [|reflexivity].
  destruct (p_executeBy p) as [[|c0 d0]|] eqn:Hd;
    [contradiction Hdate; reflexivity| |];
    cbn [truthy andb negb option_map].
  1: destruct (isValidDate (c0 :: d0)); cbn [negb option_map];
       [|reflexivity].
  all: destruct (includes SUPPORTED_CURRENCIES (p_currency p));
    cbn [negb option_map]; [|reflexivity].
  all: destruct (str_eqb (p_debitAccount p) (p_creditAccount p));
    cbn [negb option_map]; [reflexivity|].
  all: destruct (find _ accounts) as [d|] eqn:Hfd; cbn [option_map];
    [|reflexivity].
  all: destruct (find (fun acc => str_eqb (acc_id acc) (p_creditAccount p))
                   accounts) as [c|] eqn:Hfc; cbn [option_map];
    [|reflexivity].
  all: destruct (str_eqb (toUpperCase (acc_currency d))
                   (toUpperCase (acc_currency c)));
    cbn [negb option_map]; [|reflexivity].
  all: destruct (str_eqb (p_currency p) (toUpperCase (acc_currency d)));
    cbn [negb option_map]; [|reflexivity].
  all: destruct (js_lt (Num (acc_balance d)) (parseInt (p_amount p)))
         eqn:Hlt; cbn [negb option_map].
  all: try (unfold failureReason, failureAmount, findAccount;
            rewrite Hfd; reflexivity).
  all: destruct (amount_in_funds _ _ Ha Hlt) as (a & Hpa & Hfunds).
  all: exists d, c, a.
  all: split; [reflexivity|]; split; [reflexivity|]; split; [exact Hpa|].
  all: split; [exact Hfunds|].
  all: rewrite Hpa.
  - destruct (compareDateWithToday now (c0 :: d0)); reflexivity.
  - reflexivity.
Qed.

Lemma firstFailureIndex_pos (chain : list (Check * StatusCode))
  (accounts : list Account) (p : ParsedInstruction) (k : nat) :
  firstFailureIndex chain accounts p = Some k -> (1 <= k)%nat.
Proof.
  destruct chain as [|[check failure] rest]; simpl; [discriminate|].
  destruct (check accounts p).
  - destruct (firstFailureIndex rest accounts p); simpl; [|discriminate].
    intros H; inversion H; lia.
  - intros H; inversion H; lia.
Qed.

(** The code of the first failure is the code listed with the first
    failing check. *)
Lemma firstFailure_code (chain : list (Check * StatusCode))
  (accounts : list Account) (p : ParsedInstruction) :
  firstFailure chain accounts p
  = option_map (fun k => nth (k - 1) (map snd chain) SY03)
      (firstFailureIndex chain accounts p).
Proof.
  induction chain as [|[check failure] rest IH]; simpl; [reflexivity|].
  destruct (check accounts p); [|reflexivity].
  rewrite IH.
  destruct (firstFailureIndex rest accounts p) as [k|] eqn:E; simpl;
    [|reflexivity].
  apply firstFailureIndex_pos in E.
  destruct k as [|k]; [lia|]. simpl. rewrite Nat.sub_0_r. reflexivity.
Qed.

Lemma firstFailureIndex_le (chain : list (Check * StatusCode))
  (accounts : list Account) (p : ParsedInstruction) (k : nat) :
  firstFailureIndex chain accounts p = Some k -> (k <= length chain)%nat.
Proof.
  revert k; induction chain as [|[check failure] rest IH]; simpl;
    [discriminate|].
  intros k. destruct (check accounts p).
  - destruct (firstFailureIndex rest accounts p) as [j|]; simpl;
      [|discriminate].
    intros H; inversion H; subst. specialize (IH j eq_refl). lia.
  - intros H; inversion H; lia.
Qed.

(** The checks are numbered 1 to 11. *)
Lemma firstFailureIndex_range (accounts : list Account)
  (p : ParsedInstruction) (k : nat) :
  firstFailureIndex validationChain accounts p = Some k ->
  In k (seq 1 11).
Proof.
  intros H. apply in_seq.
  pose proof (firstFailureIndex_pos _ _ _ _ H).
  pose proof (firstFailureIndex_le _ _ _ _ H) as Hle. simpl in Hle. lia.
Qed.

Lemma scanBody_executeBy (k0 kA kB kC t a c f s : str) (e : option str) :
  scanBody k0 kA kB kC t = Some (a, c, f, s, e) -> e <> Some [].
Proof.
  unfold scanBody. intros H.
  repeat match type of H with
         | match findKeywordIndex ?x ?y ?z with _ => _ end = _ =>
             destruct (findKeywordIndex x y z); [|discriminate H]
         | match filter ?g ?l with _ => _ end = _ =>
             destruct (filter g l) as [|? [|? ?]]; try discriminate H
         end.
  destruct (findKeywordIndex t (js "ON") _); injection H;
    intros <- _ _ _ _; try destruct (trim (trim _)); intros Hc;
    discriminate Hc.
Qed.

(** The scanner never hands over an empty date. *)
Lemma parse_executeBy (s : str) (p : ParsedInstruction) :
  parseInstruction s = Some p -> p_executeBy p <> Some [].
Proof.
  rewrite parseInstruction_scan. cbv zeta.
  destruct (starts_at_zero _);
    [|destruct (starts_at_zero _); [|discriminate]].
  - destruct (scanBody _ _ _ _ _) as [[[[[a c] f] s'] e]|] eqn:E;
      [|discriminate].
    simpl. intros H; inversion H; simpl.
    apply (scanBody_executeBy _ _ _ _ _ _ _ _ _ _ E).
  - destruct (scanBody _ _ _ _ _) as [[[[[a c] f] s'] e]|] eqn:E;
      [|discriminate].
    simpl. intros H; inversion H; simpl.
    apply (scanBody_executeBy _ _ _ _ _ _ _ _ _ _ E).
Qed.

(** The processor on a request whose instruction scans to [p]. *)
Lemma parsePaymentInstructionAt_parsed (M : Messages) (now : Z)
  (data : ServiceData) (p : ParsedInstruction) :
  parseInstruction (instruction data) = Some p ->
  parsePaymentInstructionAt M now data = processParsed M now (accounts data) p.
Proof. unfold parsePaymentInstructionAt. intros ->. reflexivity. Qed.

(** * The claims *)

(** C1. For every request whose instruction scans to a [ParsedInstruction],
    the processor runs the eleven checks in the order of [validationChain]
    (amount, debit id, credit id, date, currency support, same account,
    debit exists, credit exists, account currencies, instruction currency,
    funds): the first check that fails ends the run with status [failed]
    and its own code (AM01, AC04, AC04, DT01, CU02, AC02, AC03, AC03, CU01,
    CU01, AC01), whatever the later checks would say; when none fails the
    response is not a failure. *)
Theorem validation_order (M : Messages) (now : Z) (data : ServiceData)
  (p : ParsedInstruction) :
  parseInstruction (instruction data) = Some p ->
  let r := parsePaymentInstructionAt M now data in
  match firstFailure validationChain (accounts data) p with
  | Some failure => r_status r = failed /\ r_status_code r = failure
  | None => r_status r <> failed
  end.
Proof.
  intros Hp. cbv zeta.
  rewrite (parsePaymentInstructionAt_parsed _ _ _ _ Hp).
  pose proof (processParsed_spec M now (accounts data) p
                (parse_executeBy _ _ Hp)) as Hspec.
  rewrite firstFailure_code.
  destruct (firstFailureIndex validationChain (accounts data) p) as [k|];
    cbn [option_map].
  - rewrite Hspec. split; reflexivity.
  - destruct Hspec as (d & c & a & _ & _ & _ & _ & ->).
    unfold finalResponse.
    destruct (option_map _ _) as [[]|]; simpl; discriminate.
Qed.

Lemma validation_order_witness :
  let r :=
    parsePaymentInstructionAt sampleMessages (midnight 2026 11 1)
      (mkServiceData sampleAccounts
         (js "DEBIT 300 USD FROM ACCOUNT a FOR CREDIT TO ACCOUNT b")) in
  r_status r = failed /\ r_status_code r = AC01.
Proof.
  exact (validation_order sampleMessages (midnight 2026 11 1)
           (mkServiceData sampleAccounts
              (js "DEBIT 300 USD FROM ACCOUNT a FOR CREDIT TO ACCOUNT b"))
           (mkParsed DEBIT (js "300") (js "USD") (js "a") (js "b") None)
           eq_refl).
Defined.

(** ** The final response *)

Lemma firstFailureIndex_none (chain : list (Check * StatusCode))
  (accounts : list Account) (p : ParsedInstruction) :
  firstFailureIndex chain accounts p = None ->
  forall check failure, In (check, failure) chain -> check accounts p = true.
Proof.
  induction chain as [|[check0 failure0] rest IH]; simpl; [tauto|].
  destruct (check0 accounts p) eqn:E; [|discriminate].
  destruct (firstFailureIndex rest accounts p); [discriminate|].
  intros _ check failure [H|H]; [inversion H; subst; exact E | eauto].
Qed.

Lemma firstFailure_none (accounts : list Account) (p : ParsedInstruction) :
  firstFailure validationChain accounts p = None ->
  firstFailureIndex validationChain accounts p = None.
Proof.
  rewrite firstFailure_code.
  destruct (firstFailureIndex validationChain accounts p);
    [discriminate | reflexivity].
Qed.

Lemma passed_accountsDiffer (accounts : list Account) (p : ParsedInstruction) :
  firstFailureIndex validationChain accounts p = None ->
  p_debitAccount p <> p_creditAccount p.
Proof.
  intros H.
  pose proof (firstFailureIndex_none _ _ _ H accountsDiffer AC02) as Hd.
  unfold accountsDiffer in Hd. apply str_eqb_neq, negb_true_iff, Hd.
  simpl; tauto.
Qed.

Lemma findAccount_some (accounts : list Account) (accountId : str)
  (acc : Account) :
  findAccount accounts accountId = Some acc ->
  In acc accounts /\ acc_id acc = accountId.
Proof.
  unfold findAccount. intros H. apply find_some in H as [Hin Heq].
  split; [exact Hin | apply str_eqb_eq; exact Heq].
Qed.

(** Every snapshot of the final response is a party's: the debit side
    carries the new debit balance, the credit side the new credit
    balance, each with the balance of the account [find] resolved. *)
Lemma In_transactionAccountsFinal (accounts : list Account)
  (debitAccount creditAccount : str) (d c : Account) (nd nc : JsNumber)
  (s : AccountSnapshot) :
  In s (transactionAccountsFinal accounts debitAccount creditAccount
          d c nd nc) ->
  (snap_id s = debitAccount /\ snap_balance s = nd
   /\ snap_balance_before s = Num (acc_balance d))
  \/ (snap_id s <> debitAccount /\ snap_id s = creditAccount
      /\ snap_balance s = nc
      /\ snap_balance_before s = Num (acc_balance c)).
Proof.
  unfold transactionAccountsFinal. rewrite in_flat_map.
  intros (acc & _ & Hs).
  destruct (str_eqb (acc_id acc) debitAccount) eqn:Ed.
  - destruct Hs as [<-|[]]. left. simpl.
    apply str_eqb_eq in Ed. auto.
  - destruct (str_eqb (acc_id acc) creditAccount) eqn:Ec;
      [|contradiction Hs].
    destruct Hs as [<-|[]]. right. simpl.
    apply str_eqb_neq in Ed. apply str_eqb_eq in Ec. auto.
Qed.

Lemma transactionAccountsFinal_debit (accounts : list Account)
  (debitAccount creditAccount : str) (d c acc : Account) (nd nc : JsNumber) :
  In acc accounts -> acc_id acc = debitAccount ->
  exists s,
    In s (transactionAccountsFinal accounts debitAccount creditAccount
            d c nd nc)
    /\ snap_id s = debitAccount.
Proof.
  intros Hin Hid. eexists. split.
  - unfold transactionAccountsFinal. apply in_flat_map. exists acc.
    split; [exact Hin|]. rewrite Hid, str_eqb_refl. left; reflexivity.
  - reflexivity.
Qed.

Lemma transactionAccountsFinal_credit (accounts : list Account)
  (debitAccount creditAccount : str) (d c acc : Account) (nd nc : JsNumber) :
  In acc accounts -> acc_id acc = creditAccount ->
  debitAccount <> creditAccount ->
  exists s,
    In s (transactionAccountsFinal accounts debitAccount creditAccount
            d c nd nc)
    /\ snap_id s = creditAccount.
Proof.
  intros Hin Hid Hne. eexists. split.
  - unfold transactionAccountsFinal. apply in_flat_map. exists acc.
    split; [exact Hin|]. rewrite Hid, str_eqb_refl.
    replace (str_eqb creditAccount debitAccount) with false
      by (symmetry; apply str_eqb_neq; congruence).
    left; reflexivity.
  - reflexivity.
Qed.

(** C2, amended. For every request that passes all eleven checks:
    without a date, or with a date that is past or today, the response is
    [successful] with code AP00, every debit snapshot holds the double
    nearest to the old debit balance less the amount and every credit
    snapshot the double nearest to the old credit balance plus the
    amount, which are the exact difference and sum whenever these are at
    most [2^53] in absolute value; with a date still to come the response
    is [pending] with code AP02 and every snapshot has its balance equal
    to its balance before.  Both parties have a snapshot in the
    response. *)
Theorem execute_or_defer (M : Messages) (now : Z) (data : ServiceData)
  (p : ParsedInstruction) :
  parseInstruction (instruction data) = Some p ->
  firstFailure validationChain (accounts data) p = None ->
  let r := parsePaymentInstructionAt M now data in
  exists d c a,
    findAccount (accounts data) (p_debitAccount p) = Some d
    /\ findAccount (accounts data) (p_creditAccount p) = Some c
    /\ parseInt (p_amount p) = Num a
    /\ (exists s, In s (r_accounts r) /\ snap_id s = p_debitAccount p)
    /\ (exists s, In s (r_accounts r) /\ snap_id s = p_creditAccount p)
    /\ match dateClass now p with
       | Some future =>
           r_status r = pending /\ r_status_code r = AP02
           /\ forall s, In s (r_accounts r) ->
                snap_balance s = snap_balance_before s
       | _ =>
           r_status r = successful /\ r_status_code r = AP00
           /\ forall s, In s (r_accounts r) ->
                (snap_id s = p_debitAccount p ->
                 snap_balance s = toNumber (acc_balance d - a)
                 /\ snap_balance_before s = Num (acc_balance d)
                 /\ ((Z.abs (acc_balance d - a) <= maxSafe)%Z ->
                     snap_balance s = Num (acc_balance d - a)))
                /\ (snap_id s = p_creditAccount p ->
                    snap_balance s = toNumber (acc_balance c + a)
                    /\ snap_balance_before s = Num (acc_balance c)
                    /\ ((Z.abs (acc_balance c + a) <= maxSafe)%Z ->
                        snap_balance s = Num (acc_balance c + a)))
       end.
Proof.
  intros Hp Hpass. cbv zeta. apply firstFailure_none in Hpass.
  rewrite (parsePaymentInstructionAt_parsed _ _ _ _ Hp).
  pose proof (processParsed_spec M now (accounts data) p
                (parse_executeBy _ _ Hp)) as Hspec.
  pose proof (passed_accountsDiffer _ _ Hpass) as Hne.
  rewrite Hpass in Hspec. destruct Hspec as (d & c & a & Hd & Hc & Ha & _ & ->).
  destruct (findAccount_some _ _ _ Hd) as [Hind Hidd].
  destruct (findAccount_some _ _ _ Hc) as [Hinc Hidc].
  exists d, c, a. repeat (split; [assumption|]).
  unfold finalResponse, dateClass.
  destruct (option_map (compareDateWithToday now) (p_executeBy p))
    as [[]|]; cbn [r_accounts r_status r_status_code response js_sub js_add].
  all: split;
    [exact (transactionAccountsFinal_debit _ _ _ _ _ d _ _ Hind Hidd)|].
  all: split;
    [exact (transactionAccountsFinal_credit _ _ _ _ _ c _ _ Hinc Hidc Hne)|].
  all: split; [reflexivity|]; split; [reflexivity|].
  all: intros s Hs; apply In_transactionAccountsFinal in Hs.
  all: destruct Hs as [(H1 & H2 & H3)|(H0 & H1 & H2 & H3)].
  all: try congruence.
  all: split; intros Hid; try congruence.
  all: split; [assumption|]; split; [assumption|].
  all: intros Hsafe; rewrite H2; apply toNumber_safe; exact Hsafe.
Qed.

Lemma execute_or_defer_witness :
  let r :=
    parsePaymentInstructionAt sampleMessages (midnight 2026 11 1)
      (mkServiceData sampleAccounts
         (js "DEBIT 30 USD FROM ACCOUNT a FOR CREDIT TO ACCOUNT b")) in
  exists d c a,
    findAccount sampleAccounts (js "a") = Some d
    /\ findAccount sampleAccounts (js "b") = Some c
    /\ parseInt (js "30") = Num a
    /\ (exists s, In s (r_accounts r) /\ snap_id s = js "a")
    /\ (exists s, In s (r_accounts r) /\ snap_id s = js "b")
    /\ r_status r = successful /\ r_status_code r = AP00
    /\ forall s, In s (r_accounts r) ->
         (snap_id s = js "a" ->
          snap_balance s = toNumber (acc_balance d - a)
          /\ snap_balance_before s = Num (acc_balance d)
          /\ ((Z.abs (acc_balance d - a) <= maxSafe)%Z ->
              snap_balance s = Num (acc_balance d - a)))
         /\ (snap_id s = js "b" ->
             snap_balance s = toNumber (acc_balance c + a)
             /\ snap_balance_before s = Num (acc_balance c)
             /\ ((Z.abs (acc_balance c + a) <= maxSafe)%Z ->
                 snap_balance s = Num (acc_balance c + a))).
Proof.
  exact (execute_or_defer sampleMessages (midnight 2026 11 1)
           (mkServiceData sampleAccounts
              (js "DEBIT 30 USD FROM ACCOUNT a FOR CREDIT TO ACCOUNT b"))
           sampleParsed eq_refl eq_refl).
Defined.

(** C2 as claimed fails beyond [2^53]: the request passes every check and
    is executed, and the credit account, which held [2^53], still holds
    [2^53] after 1 was added, not its old balance plus the amount. *)
Theorem execute_or_defer_counterexample :
  let data :=
    mkServiceData largeAccounts
      (js "DEBIT 1 USD FROM ACCOUNT a FOR CREDIT TO ACCOUNT b") in
  let p := mkParsed DEBIT (js "1") (js "USD") (js "a") (js "b") None in
  let r := parsePaymentInstructionAt sampleMessages (midnight 2026 11 1) data in
  parseInstruction (instruction data) = Some p
  /\ firstFailure validationChain (accounts data) p = None
  /\ r_status r = successful /\ r_status_code r = AP00
  /\ r_accounts r
     = [mkSnapshot (js "a") (Num 9) (Num 10) (js "USD");
        mkSnapshot (js "b") (Num 9007199254740992) (Num 9007199254740992)
          (js "USD")]
  /\ Num 9007199254740992 <> Num (9007199254740992 + 1).
Proof. vm_compute. repeat split; discriminate. Qed.

(** C3, amended. Whenever the response is [successful] and every balance
    of the request is at most [2^52] in absolute value, the new balances
    of the debit and credit snapshots add up to the old balances of the
    two accounts: new debit + new credit = old debit + old credit. *)
Theorem balance_conservation (M : Messages) (now : Z) (data : ServiceData) :
  safeBalances (accounts data) = true ->
  let r := parsePaymentInstructionAt M now data in
  r_status r = successful ->
  exists p d c,
    parseInstruction (instruction data) = Some p
    /\ findAccount (accounts data) (p_debitAccount p) = Some d
    /\ findAccount (accounts data) (p_creditAccount p) = Some c
    /\ (exists sd, In sd (r_accounts r) /\ snap_id sd = p_debitAccount p)
    /\ (exists sc, In sc (r_accounts r) /\ snap_id sc = p_creditAccount p)
    /\ forall sd sc,
         In sd (r_accounts r) -> In sc (r_accounts r) ->
         snap_id sd = p_debitAccount p -> snap_id sc = p_creditAccount p ->
         exists nd nc,
           snap_balance sd = Num nd /\ snap_balance sc = Num nc
           /\ snap_balance_before sd = Num (acc_balance d)
           /\ snap_balance_before sc = Num (acc_balance c)
           /\ (nd + nc = acc_balance d + acc_balance c)%Z.
Proof.
  intros Hsafe. cbv zeta. unfold parsePaymentInstructionAt.
  destruct (parseInstruction (instruction data)) as [p|] eqn:Hp;
    [|discriminate].
  pose proof (processParsed_spec M now (accounts data) p
                (parse_executeBy _ _ Hp)) as Hspec.
  destruct (firstFailureIndex validationChain (accounts data) p) as [k|]
    eqn:Hk; [rewrite Hspec; discriminate|].
  pose proof (passed_accountsDiffer _ _ Hk) as Hne.
  destruct Hspec as (d & c & a & Hd & Hc & Ha & Hfunds & ->).
  destruct (findAccount_some _ _ _ Hd) as [Hind Hidd].
  destruct (findAccount_some _ _ _ Hc) as [Hinc Hidc].
  pose proof (safeBalances_In _ _ Hsafe Hind) as Sd.
  pose proof (safeBalances_In _ _ Hsafe Hinc) as Sc.
  assert (Ed : js_sub (Num (acc_balance d)) (Num a)
               = Num (acc_balance d - a))
    by (apply toNumber_safe; unfold maxSafe, halfSafe in *; lia).
  assert (Ec : js_add (Num (acc_balance c)) (Num a)
               = Num (acc_balance c + a))
    by (apply toNumber_safe; unfold maxSafe, halfSafe in *; lia).
  unfold finalResponse. rewrite Ed, Ec.
  destruct (option_map (compareDateWithToday now) (p_executeBy p))
    as [[]|]; cbn [r_accounts r_status response]; try discriminate.
  all: intros _; exists p, d, c.
  all: split; [reflexivity|]; split; [exact Hd|]; split; [exact Hc|].
  all: split;
    [exact (transactionAccountsFinal_debit _ _ _ _ _ d _ _ Hind Hidd)|].
  all: split;
    [exact (transactionAccountsFinal_credit _ _ _ _ _ c _ _ Hinc Hidc Hne)|].
  all: intros sd sc Hsd Hsc Hid1 Hid2.
  all: apply In_transactionAccountsFinal in Hsd, Hsc.
  all: destruct Hsd as [(_ & D1 & D2)|(D0 & _)]; [|congruence].
  all: destruct Hsc as [(C0 & _)|(_ & _ & C1 & C2)]; [congruence|].
  all: exists (acc_balance d - a)%Z, (acc_balance c + a)%Z.
  all: repeat (split; [assumption|]); lia.
Qed.

Lemma balance_conservation_witness :
  exists p d c,
    parseInstruction
      (js "DEBIT 30 USD FROM ACCOUNT a FOR CREDIT TO ACCOUNT b") = Some p
    /\ findAccount sampleAccounts (p_debitAccount p) = Some d
    /\ findAccount sampleAccounts (p_creditAccount p) = Some c
    /\ (exists sd,
          In sd [mkSnapshot (js "a") (Num 200) (Num 230) (js "USD");
                 mkSnapshot (js "b") (Num 330) (Num 300) (js "USD")]
          /\ snap_id sd = p_debitAccount p)
    /\ (exists sc,
          In sc [mkSnapshot (js "a") (Num 200) (Num 230) (js "USD");
                 mkSnapshot (js "b") (Num 330) (Num 300) (js "USD")]
          /\ snap_id sc = p_creditAccount p)
    /\ forall sd sc,
         In sd [mkSnapshot (js "a") (Num 200) (Num 230) (js "USD");
                mkSnapshot (js "b") (Num 330) (Num 300) (js "USD")] ->
         In sc [mkSnapshot (js "a") (Num 200) (Num 230) (js "USD");
                mkSnapshot (js "b") (Num 330) (Num 300) (js "USD")] ->
         snap_id sd = p_debitAccount p -> snap_id sc = p_creditAccount p ->
         exists nd nc,
           snap_balance sd = Num nd /\ snap_balance sc = Num nc
           /\ snap_balance_before sd = Num (acc_balance d)
           /\ snap_balance_before sc = Num (acc_balance c)
           /\ (nd + nc = acc_balance d + acc_balance c)%Z.
Proof.
  exact (balance_conservation sampleMessages (midnight 2026 11 1)
           (mkServiceData sampleAccounts
              (js "DEBIT 30 USD FROM ACCOUNT a FOR CREDIT TO ACCOUNT b"))
           eq_refl eq_refl).
Defined.

(** C3 as claimed fails beyond [2^53]: the debit account goes from 10 to
    9 and the credit account, which held [2^53], still holds [2^53], so
    the new balances add up to one less than the old ones. *)
Theorem balance_conservation_counterexample :
  let r :=
    parsePaymentInstructionAt sampleMessages (midnight 2026 11 1)
      (mkServiceData largeAccounts
         (js "DEBIT 1 USD FROM ACCOUNT a FOR CREDIT TO ACCOUNT b")) in
  r_status r = successful
  /\ r_accounts r
     = [mkSnapshot (js "a") (Num 9) (Num 10) (js "USD");
        mkSnapshot (js "b") (Num 9007199254740992) (Num 9007199254740992)
          (js "USD")]
  /\ (9 + 9007199254740992 <> 10 + 9007199254740992)%Z.
Proof. vm_compute. repeat split; discriminate. Qed.

(** ** The account snapshots *)

Lemma transactionAccountsUnchanged_filter (accounts : list Account)
  (p : ParsedInstruction) :
  transactionAccountsUnchanged accounts (p_debitAccount p) (p_creditAccount p)
  = map originalBalance (filter (isParty p) accounts).
Proof.
  unfold transactionAccountsUnchanged, isParty.
  induction accounts as [|acc accounts IH]; simpl; [reflexivity|].
  rewrite IH. destruct (_ || _); reflexivity.
Qed.

Lemma transactionAccountsFinal_ids (accounts : list Account)
  (p : ParsedInstruction) (d c : Account) (nd nc : JsNumber) :
  map snap_id
    (transactionAccountsFinal accounts (p_debitAccount p) (p_creditAccount p)
       d c nd nc)
  = map acc_id (filter (isParty p) accounts).
Proof.
  unfold transactionAccountsFinal, isParty.
  induction accounts as [|acc accounts IH]; simpl; [reflexivity|].
  rewrite map_app, IH.
  destruct (str_eqb (acc_id acc) (p_debitAccount p)); simpl;
    [reflexivity|].
  destruct (str_eqb (acc_id acc) (p_creditAccount p)); reflexivity.
Qed.

Lemma originalBalance_unchanged (accounts : list Account)
  (s : AccountSnapshot) :
  In s (map originalBalance accounts) ->
  snap_balance s = snap_balance_before s.
Proof. rewrite in_map_iff. intros (acc & <- & _). reflexivity. Qed.

(** C4, amended. For every scanned instruction, read off the status code
    of the response: with a code of the checks 1 to 8 (AM01, AC04, DT01,
    CU02, AC02, and AC03 of the two account-existence checks) every input
    account is echoed, in the input order; with a code of the checks 9 to
    11 (CU01, AC01) only the two parties are, in the input order; in both
    cases every snapshot has its balance equal to its balance before.
    The final response (AP00 or AP02) lists the two parties, in the input
    order.  There is no other code. *)
Theorem snapshot_policy (M : Messages) (now : Z) (data : ServiceData)
  (p : ParsedInstruction) :
  parseInstruction (instruction data) = Some p ->
  let r := parsePaymentInstructionAt M now data in
  (echoesAll (r_status_code r) = true ->
   r_status r = failed
   /\ r_accounts r = map originalBalance (accounts data)
   /\ forall s, In s (r_accounts r) ->
        snap_balance s = snap_balance_before s)
  /\ (echoesParties (r_status_code r) = true ->
      r_status r = failed
      /\ r_accounts r
         = map originalBalance (filter (isParty p) (accounts data))
      /\ forall s, In s (r_accounts r) ->
           snap_balance s = snap_balance_before s)
  /\ (r_status r <> failed ->
      map snap_id (r_accounts r)
      = map acc_id (filter (isParty p) (accounts data)))
  /\ (r_status r = failed ->
      echoesAll (r_status_code r) || echoesParties (r_status_code r) = true)
  /\ (r_status r <> failed ->
      r_status_code r = AP00 \/ r_status_code r = AP02).
Proof.
  intros Hp. cbv zeta.
  rewrite (parsePaymentInstructionAt_parsed _ _ _ _ Hp).
  pose proof (processParsed_spec M now (accounts data) p
                (parse_executeBy _ _ Hp)) as Hspec.
  destruct (firstFailureIndex validationChain (accounts data) p) as [k|]
    eqn:Hk.
  - rewrite Hspec.
    cbn [r_accounts r_status r_status_code response].
    unfold failureSnapshots.
    rewrite transactionAccountsUnchanged_filter.
    unfold accountsWithOriginalBalances.
    apply firstFailureIndex_range in Hk. cbn in Hk.
    repeat (destruct Hk as [<-|Hk]); try contradiction Hk;
      cbn [failureCode nth map snd validationChain Nat.sub Nat.leb
             echoesAll echoesParties orb];
      (split; [intros H;
               first [discriminate H
                     | split; [reflexivity|]; split; [reflexivity|];
                       intros s; apply originalBalance_unchanged]|]);
      (split; [intros H;
               first [discriminate H
                     | split; [reflexivity|]; split; [reflexivity|];
                       intros s; apply originalBalance_unchanged]|]);
      (split; [intros H; contradiction H; reflexivity|]);
      (split; [reflexivity | intros H; contradiction H; reflexivity]).
  - destruct Hspec as (d & c & a & _ & _ & _ & _ & ->).
    unfold finalResponse.
    destruct (option_map _ _) as [[]|];
      cbn [r_accounts r_status r_status_code response echoesAll
             echoesParties];
      (split; [discriminate|]); (split; [discriminate|]);
      (split; [intros _; apply transactionAccountsFinal_ids|]);
      (split; [discriminate|]); intros _; tauto.
Qed.

Lemma snapshot_policy_witness :
  let r :=
    parsePaymentInstructionAt sampleMessages (midnight 2026 11 1)
      (mkServiceData threeAccounts
         (js "DEBIT 300 USD FROM ACCOUNT a FOR CREDIT TO ACCOUNT b")) in
  r_status r = failed
  /\ r_accounts r
     = [mkSnapshot (js "a") (Num 230) (Num 230) (js "USD");
        mkSnapshot (js "b") (Num 300) (Num 300) (js "USD")]
  /\ forall s, In s (r_accounts r) -> snap_balance s = snap_balance_before s.
Proof.
  exact (proj1 (proj2
           (snapshot_policy sampleMessages (midnight 2026 11 1)
              (mkServiceData threeAccounts
                 (js "DEBIT 300 USD FROM ACCOUNT a FOR CREDIT TO ACCOUNT b"))
              (mkParsed DEBIT (js "300") (js "USD") (js "a") (js "b") None)
              eq_refl))
           eq_refl).
Defined.

(** C4 as claimed fails at the seventh check: the debit account [x] is
    not in the list, the run ends with AC03, and the response echoes all
    three accounts, not the parties only. *)
Lemma snapshot_policy_counterexample :
  let accs := threeAccounts in
  let p := mkParsed DEBIT (js "30") (js "USD") (js "x") (js "b") None in
  let r :=
    parsePaymentInstructionAt sampleMessages (midnight 2026 11 1)
      (mkServiceData accs
         (js "DEBIT 30 USD FROM ACCOUNT x FOR CREDIT TO ACCOUNT b")) in
  parseInstruction (js "DEBIT 30 USD FROM ACCOUNT x FOR CREDIT TO ACCOUNT b")
  = Some p
  /\ firstFailureIndex validationChain accs p = Some 7%nat
  /\ r_status_code r = AC03
  /\ map snap_id (r_accounts r) = [js "a"; js "b"; js "c"]
  /\ r_accounts r <> claimedSnapshots 7 accs p
  /\ exists s,
       In s (r_accounts r)
       /\ snap_id s <> p_debitAccount p /\ snap_id s <> p_creditAccount p.
Proof.
  cbv zeta. do 4 (split; [reflexivity|]). split.
  - vm_compute. discriminate.
  - exists (mkSnapshot (js "a") (Num 230) (Num 230) (js "USD")).
    split; [left; reflexivity|].
    split; intros Hc; vm_compute in Hc; discriminate Hc.
Qed.

(** ** The scanner against the grammar *)

(** C5, amended. An instruction laid out by the grammar (keywords in any
    casing, any white space between the tokens and around the whole, but
    spaces only between the amount and the currency) whose amount and
    currency do not hold the keyword that follows them, whose first
    account does not hold [FOR] and whose second does not hold [ON] (in
    any casing) scans to its own fields, the case of every token kept and
    the currency in capitals; and a string that does not begin with
    [DEBIT] or [CREDIT], or in which one of [DEBIT], [CREDIT], [FROM],
    [TO], [ACCOUNT], [FOR] occurs nowhere, scans to [null]. *)
Theorem scanner_on_grammar (L : Layout) (p : ParsedInstruction) (s : str) :
  layoutOk (p_type p) L = true -> wellFormed p = true -> scanSafe p = true ->
  keywordIncomplete s = true ->
  parseInstruction (render L p) = Some (expected p)
  /\ parseInstruction s = None.
Proof.
  intros HL Hwf Hsafe Hs. split.
  - apply parse_render; assumption.
  - apply parse_incomplete; exact Hs.
Qed.

Lemma scanner_on_grammar_witness :
  layoutOk DEBIT looseLayout = true
  /\ wellFormed sampleDebit = true
  /\ scanSafe sampleDebit = true
  /\ keywordIncomplete (js "DEBIT 30 USD FROM ACCOUNT a TO ACCOUNT b") = true
  /\ parseInstruction (render looseLayout sampleDebit)
     = Some (mkParsed DEBIT (js "30") (js "USD") (js "a") (js "b")
               (Some (js "2026-12-31")))
  /\ parseInstruction (js "DEBIT 30 USD FROM ACCOUNT a TO ACCOUNT b") = None.
Proof.
  do 4 (split; [reflexivity|]).
  exact (scanner_on_grammar looseLayout sampleDebit
           (js "DEBIT 30 USD FROM ACCOUNT a TO ACCOUNT b")
           eq_refl eq_refl eq_refl eq_refl).
Defined.

(** C5 as claimed fails on a well-formed instruction whose credit account
    is [jon]: the scanner takes the [on] in it for the keyword and returns
    the account [j].  It fails on one whose amount and currency are a TAB
    apart: the two are split on spaces only, and the scanner returns
    [null].  And it fails on a malformed one: with the credit account
    missing the scanner still returns a structure. *)
Lemma scanner_on_grammar_counterexample :
  let p := mkParsed DEBIT (js "30") (js "USD") (js "a") (js "jon") None in
  layoutOk DEBIT (plainLayout DEBIT) = true
  /\ wellFormed p = true
  /\ isPositiveInteger (p_amount p) = true
  /\ isValidAccountId (p_debitAccount p) = true
  /\ isValidAccountId (p_creditAccount p) = true
  /\ render (plainLayout DEBIT) p
     = js "DEBIT 30 USD FROM ACCOUNT a FOR CREDIT TO ACCOUNT jon"
  /\ parseInstruction (render (plainLayout DEBIT) p)
     = Some (mkParsed DEBIT (js "30") (js "USD") (js "a") (js "j") None)
  /\ parseInstruction (render (plainLayout DEBIT) p) <> Some (expected p)
  /\ parseInstruction
       (js "DEBIT 30" ++ ["009"]
        ++ js "USD FROM ACCOUNT a FOR CREDIT TO ACCOUNT b") = None
  /\ parseInstruction (js "DEBIT 30 USD FROM ACCOUNT a FOR CREDIT TO ACCOUNT")
     = Some (mkParsed DEBIT (js "30") (js "USD") (js "a") [] None).
Proof.
  cbv zeta. do 7 (split; [reflexivity|]).
  split; [|split; reflexivity].
  vm_compute. discriminate.
Qed.

(** ** The clock *)

(** The classification of a date looks at the clock only for its UTC
    day. *)
Lemma compareDateWithToday_day (n1 n2 : Z) (dateStr : str) :
  utcDay n1 = utcDay n2 ->
  compareDateWithToday n1 dateStr = compareDateWithToday n2 dateStr.
Proof.
  unfold utcDay, compareDateWithToday, getUTCFullYear, getUTCMonth,
    getUTCDate.
  intros ->. reflexivity.
Qed.

Lemma processParsed_day (M : Messages) (n1 n2 : Z) (accounts : list Account)
  (p : ParsedInstruction) :
  utcDay n1 = utcDay n2 ->
  processParsed M n1 accounts p = processParsed M n2 accounts p.
Proof.
  intros H. unfold processParsed.
  rewrite (compareDateWithToday_day n1 n2 _ H). reflexivity.
Qed.

(** C6, amended. The response is determined by the request and by the UTC
    day the system clock shows during the call; the clock is read inside
    the call and [options] is ignored.  Two calls with the same request on
    the same UTC day return the same response, and a call leaves the
    request (its accounts list included) and the world as they were. *)
Theorem determined_by_request_and_clock_day (M : Messages)
  (Options1 Options2 : Type) (data : ServiceData)
  (o1 : Options1) (o2 : Options2) (w1 w2 : World) :
  utcDay (clock w1) = utcDay (clock w2) ->
  let '(r1, data1, w1') := parsePaymentInstruction M data o1 w1 in
  let '(r2, data2, w2') := parsePaymentInstruction M data o2 w2 in
  r1 = r2
  /\ data1 = data /\ accounts data1 = accounts data /\ w1' = w1
  /\ data2 = data /\ accounts data2 = accounts data /\ w2' = w2.
Proof.
  intros H. unfold parsePaymentInstruction, parsePaymentInstructionAt.
  split; [|repeat split; reflexivity].
  destruct (parseInstruction (instruction data)); [|reflexivity].
  apply processParsed_day; exact H.
Qed.

Lemma determined_by_request_and_clock_day_witness :
  let data :=
    mkServiceData sampleAccounts
      (js "DEBIT 30 USD FROM ACCOUNT a FOR CREDIT TO ACCOUNT b ON 2026-11-02")
  in
  let '(r1, data1, w1') :=
    parsePaymentInstruction sampleMessages data tt
      (mkWorld (midnight 2026 11 1)) in
  let '(r2, data2, w2') :=
    parsePaymentInstruction sampleMessages data (Some (js "2020-01-01"))
      (mkWorld (midnight 2026 11 1 + 3600000)) in
  r1 = r2
  /\ data1 = data /\ accounts data1 = accounts data
  /\ w1' = mkWorld (midnight 2026 11 1)
  /\ data2 = data /\ accounts data2 = accounts data
  /\ w2' = mkWorld (midnight 2026 11 1 + 3600000).
Proof.
  exact (determined_by_request_and_clock_day sampleMessages unit (option str)
           (mkServiceData sampleAccounts
              (js "DEBIT 30 USD FROM ACCOUNT a FOR CREDIT TO ACCOUNT b ON 2026-11-02"))
           tt (Some (js "2020-01-01"))
           (mkWorld (midnight 2026 11 1))
           (mkWorld (midnight 2026 11 1 + 3600000))
           eq_refl).
Defined.

(** C6 as claimed fails: with the same request and the same reference
    date handed over as [options], the response follows the system clock.
    On 2026-11-01 the instruction dated 2026-11-15 is pending, on
    2026-12-01 it is executed. *)
Lemma clock_is_read_counterexample :
  let data :=
    mkServiceData sampleAccounts
      (js "DEBIT 30 USD FROM ACCOUNT a FOR CREDIT TO ACCOUNT b ON 2026-11-15")
  in
  let reference := midnight 2026 11 1 in
  let '(r1, _, _) :=
    parsePaymentInstruction sampleMessages data reference
      (mkWorld (midnight 2026 11 1)) in
  let '(r2, _, _) :=
    parsePaymentInstruction sampleMessages data reference
      (mkWorld (midnight 2026 12 1)) in
  r_status_code r1 = AP02 /\ r_status_code r2 = AP00 /\ r1 <> r2.
Proof.
  cbv zeta. split; [reflexivity|]. split; [reflexivity|].
  intros H. apply (f_equal r_status_code) in H. vm_compute in H.
  discriminate H.
Qed.

(** ** Failures as values *)


(** ** The amount field *)

(** Past the amount check the amount of the response is a positive
    integer, or [Infinity] when the digits of the amount are beyond the
    doubles. *)
Lemma amount_positive_past_AM01 (M : Messages) (now : Z) (data : ServiceData) :
  let r := parsePaymentInstructionAt M now data in
  r_status_code r <> SY03 -> r_status_code r <> AM01 ->
  (exists a, r_amount r = Some (Num a) /\ (0 < a)%Z)
  \/ r_amount r = Some (Infinity false).
Proof.
  cbv zeta. unfold parsePaymentInstructionAt.
  destruct (parseInstruction (instruction data)) as [p|] eqn:Hp;
    [|intros H; contradiction H; reflexivity].
  pose proof (processParsed_spec M now (accounts data) p
                (parse_executeBy _ _ Hp)) as Hspec.
  destruct (firstFailureIndex validationChain (accounts data) p) as [k|]
    eqn:Hk.
  - rewrite Hspec. cbn [r_status_code r_amount response]. intros _ Hk1.
    assert (Hne : k <> 1%nat) by (intros ->; apply Hk1; reflexivity).
    pose proof (firstFailureIndex_pos _ _ _ _ Hk) as Hpos.
    assert (Ha : amountFormat (accounts data) p = true).
    { revert Hk. cbn [firstFailureIndex validationChain].
      destruct (amountFormat (accounts data) p); [reflexivity|].
      intros H; inversion H; congruence. }
    assert (Hamt : failureAmount k p = Some (parseInt (p_amount p)))
      by (unfold failureAmount;
          destruct k as [|[|k]]; [lia | congruence | reflexivity]).
    rewrite Hamt.
    destruct (isPositiveInteger_parseInt _ Ha) as [(a & Hpa & Ha0) | Hinf].
    + left. exists a. rewrite Hpa. split; [reflexivity | exact Ha0].
    + right. rewrite Hinf. reflexivity.
  - destruct Hspec as (d & c & a & _ & _ & _ & Ha & ->).
    intros _ _. left. exists a. split; [|lia].
    unfold finalResponse. destruct (option_map _ _) as [[]|]; reflexivity.
Qed.

(** C8, at the failing input: an amount that is no number at all leaves
    [NaN], neither [null] nor an integer, in the AM01 response. *)
Theorem amount_is_NaN_on_a_wordy_amount :
  let r :=
    parsePaymentInstructionAt sampleMessages (midnight 2026 11 1)
      (mkServiceData sampleAccounts
         (js "DEBIT abc USD FROM ACCOUNT a FOR CREDIT TO ACCOUNT b")) in
  r_status r = failed /\ r_status_code r = AM01 /\ r_amount r = Some NaN.
Proof. cbv zeta. repeat split; reflexivity. Qed.

(** ** Currencies in capitals *)

Lemma originalBalance_upper (acc : Account) :
  originalBalance (upperCurrency acc) = originalBalance acc.
Proof.
  unfold originalBalance, upperCurrency; simpl.
  rewrite toUpperCase_idem. reflexivity.
Qed.

Lemma accountsWithOriginalBalances_upper (accounts : list Account) :
  accountsWithOriginalBalances (map upperCurrency accounts)
  = accountsWithOriginalBalances accounts.
Proof.
  unfold accountsWithOriginalBalances. rewrite map_map.
  apply map_ext. apply originalBalance_upper.
Qed.

Lemma find_upper (accounts : list Account) (accountId : str) :
  find (fun acc => str_eqb (acc_id acc) accountId)
    (map upperCurrency accounts)
  = option_map upperCurrency
      (find (fun acc => str_eqb (acc_id acc) accountId) accounts).
Proof.
  induction accounts as [|acc accounts IH]; simpl; [reflexivity|].
  destruct (str_eqb (acc_id acc) accountId); [reflexivity | exact IH].
Qed.

Lemma transactionAccountsUnchanged_upper (accounts : list Account)
  (debitAccount creditAccount : str) :
  transactionAccountsUnchanged (map upperCurrency accounts)
    debitAccount creditAccount
  = transactionAccountsUnchanged accounts debitAccount creditAccount.
Proof.
  unfold transactionAccountsUnchanged.
  induction accounts as [|acc accounts IH]; simpl; [reflexivity|].
  rewrite IH, originalBalance_upper. reflexivity.
Qed.

Lemma transactionAccountsFinal_upper (accounts : list Account)
  (debitAccount creditAccount : str) (d c : Account) (nd nc : JsNumber) :
  transactionAccountsFinal (map upperCurrency accounts)
    debitAccount creditAccount (upperCurrency d) (upperCurrency c) nd nc
  = transactionAccountsFinal accounts debitAccount creditAccount d c nd nc.
Proof.
  unfold transactionAccountsFinal.
  induction accounts as [|acc accounts IH]; [reflexivity|].
  cbn [map flat_map]. rewrite IH.
  cbn [upperCurrency acc_id acc_currency acc_balance].
  rewrite toUpperCase_idem. reflexivity.
Qed.

(** The processor does not see the casing of the account currencies. *)
Lemma processParsed_upper (M : Messages) (now : Z) (accounts : list Account)
  (p : ParsedInstruction) :
  processParsed M now (map upperCurrency accounts) p
  = processParsed M now accounts p.
Proof.
  unfold processParsed. cbv zeta.
  rewrite accountsWithOriginalBalances_upper,
    transactionAccountsUnchanged_upper, !find_upper.
  destruct (find (fun acc => str_eqb (acc_id acc) (p_debitAccount p))
              accounts) as [d|]; cbn [option_map]; [|reflexivity].
  destruct (find (fun acc => str_eqb (acc_id acc) (p_creditAccount p))
              accounts) as [c|]; cbn [option_map]; [|reflexivity].
  destruct (truthy (p_executeBy p));
    [destruct (compareDateWithToday now _)|]; cbv beta iota;
    rewrite transactionAccountsFinal_upper;
    cbn [upperCurrency acc_currency acc_balance];
    rewrite !toUpperCase_idem; reflexivity.
Qed.

(** Every snapshot of a response reports the currency of an input account
    with the same id, in capitals. *)
Lemma snapshot_currency (M : Messages) (now : Z) (accounts : list Account)
  (p : ParsedInstruction) (s : AccountSnapshot) :
  p_executeBy p <> Some [] ->
  In s (r_accounts (processParsed M now accounts p)) ->
  exists acc,
    In acc accounts /\ snap_id s = acc_id acc
    /\ snap_currency s = toUpperCase (acc_currency acc).
Proof.
  intros Hd. pose proof (processParsed_spec M now accounts p Hd) as Hspec.
  destruct (firstFailureIndex validationChain accounts p) as [k|].
  - rewrite Hspec. cbn [r_accounts response]. unfold failureSnapshots.
    rewrite transactionAccountsUnchanged_filter.
    unfold accountsWithOriginalBalances.
    destruct (k <=? 8)%nat; rewrite in_map_iff; intros (acc & <- & Hin).
    + exists acc. auto.
    + apply filter_In in Hin as [Hin _]. exists acc. auto.
  - destruct Hspec as (d & c & a & _ & _ & _ & _ & ->).
    unfold finalResponse.
    destruct (option_map _ _) as [[]|]; cbn [r_accounts response];
      unfold transactionAccountsFinal; rewrite in_flat_map;
      intros (acc & Hin & Hs); exists acc;
      (destruct (str_eqb (acc_id acc) (p_debitAccount p));
       [|destruct (str_eqb (acc_id acc) (p_creditAccount p));
         [|contradiction Hs]]);
      destruct Hs as [<-|[]]; auto.
Qed.

Lemma firstFailureIndex_app (chain1 chain2 : list (Check * StatusCode))
  (accounts : list Account) (p : ParsedInstruction) :
  firstFailureIndex (chain1 ++ chain2) accounts p
  = match firstFailureIndex chain1 accounts p with
    | Some k => Some k
    | None =>
        option_map (Nat.add (length chain1))
          (firstFailureIndex chain2 accounts p)
    end.
Proof.
  induction chain1 as [|[check failure] chain1 IH]; cbn [app firstFailureIndex].
  - cbn [length]. symmetry. apply option_map_add0.
  - destruct (check accounts p); [|reflexivity].
    rewrite IH. destruct (firstFailureIndex chain1 accounts p);
      cbn [option_map length]; [reflexivity|].
    destruct (firstFailureIndex chain2 accounts p); reflexivity.
Qed.

Lemma firstFailure_none_index (chain : list (Check * StatusCode))
  (accounts : list Account) (p : ParsedInstruction) :
  firstFailure chain accounts p = None ->
  firstFailureIndex chain accounts p = None.
Proof.
  rewrite firstFailure_code.
  destruct (firstFailureIndex chain accounts p); [discriminate | reflexivity].
Qed.

(** The snapshots of the final response carry the ids and the currencies,
    in capitals, of the parties, in the input order. *)
Lemma transactionAccountsFinal_currencies (accounts : list Account)
  (p : ParsedInstruction) (d c : Account) (nd nc : JsNumber) :
  map (fun s => (snap_id s, snap_currency s))
    (transactionAccountsFinal accounts (p_debitAccount p) (p_creditAccount p)
       d c nd nc)
  = map (fun acc => (acc_id acc, toUpperCase (acc_currency acc)))
      (filter (isParty p) accounts).
Proof.
  unfold transactionAccountsFinal, isParty.
  induction accounts as [|acc accounts IH]; simpl; [reflexivity|].
  rewrite map_app, IH.
  destruct (str_eqb (acc_id acc) (p_debitAccount p)); simpl;
    [reflexivity|].
  destruct (str_eqb (acc_id acc) (p_creditAccount p)); reflexivity.
Qed.

(** C9. The two currency checks compare currencies in capitals: once the
    checks 1 to 8 have passed the response is CU01 exactly when the
    currencies of the two accounts differ after upper-casing or the
    currency of the instruction is not the upper-cased currency of the
    debit account, so currencies that differ only in letter case pass.
    Every account a response lists (all of them with a code of the checks
    1 to 8, the two parties otherwise) has its snapshot, which reports
    its currency in capitals.  And re-casing the currencies of the
    accounts does not change the response. *)
Theorem currency_compared_in_capitals (M : Messages) (now : Z)
  (data : ServiceData) (p : ParsedInstruction) :
  parseInstruction (instruction data) = Some p ->
  let r := parsePaymentInstructionAt M now data in
  (firstFailure (firstn 8 validationChain) (accounts data) p = None ->
   exists d c,
     findAccount (accounts data) (p_debitAccount p) = Some d
     /\ findAccount (accounts data) (p_creditAccount p) = Some c
     /\ (r_status_code r = CU01
         <-> toUpperCase (acc_currency d) <> toUpperCase (acc_currency c)
             \/ p_currency p <> toUpperCase (acc_currency d)))
  /\ map (fun s => (snap_id s, snap_currency s)) (r_accounts r)
     = map (fun acc => (acc_id acc, toUpperCase (acc_currency acc)))
         (if echoesAll (r_status_code r) then accounts data
          else filter (isParty p) (accounts data))
  /\ forall accounts2,
       map upperCurrency accounts2 = map upperCurrency (accounts data) ->
       parsePaymentInstructionAt M now
         (mkServiceData accounts2 (instruction data))
       = r.
Proof.
  intros Hp. cbv zeta.
  rewrite (parsePaymentInstructionAt_parsed _ _ _ _ Hp).
  pose proof (processParsed_spec M now (accounts data) p
                (parse_executeBy _ _ Hp)) as Hspec.
  split; [|split].
  - intros Hpre. apply firstFailure_none_index in Hpre.
    pose proof (firstFailureIndex_none _ _ _ Hpre) as Hall.
    assert (H7 : debitExists (accounts data) p = true)
      by (apply (Hall _ AC03); cbn; tauto).
    assert (H8 : creditExists (accounts data) p = true)
      by (apply (Hall _ AC03); cbn; tauto).
    unfold debitExists in H7. unfold creditExists in H8.
    destruct (findAccount (accounts data) (p_debitAccount p)) as [d|] eqn:Hd;
      [|discriminate H7].
    destruct (findAccount (accounts data) (p_creditAccount p)) as [c|] eqn:Hc;
      [|discriminate H8].
    exists d, c. split; [reflexivity|]. split; [reflexivity|].
    assert (Hidx : firstFailureIndex validationChain (accounts data) p
                   = option_map (Nat.add 8)
                       (firstFailureIndex (skipn 8 validationChain)
                          (accounts data) p)).
    { rewrite <- (firstn_skipn 8 validationChain) at 1.
      rewrite firstFailureIndex_app, Hpre. reflexivity. }
    rewrite Hidx in Hspec. clear Hidx.
    cbn [skipn validationChain firstFailureIndex] in Hspec.
    unfold accountCurrenciesEqual, instructionCurrencyEqual in Hspec.
    rewrite Hd, Hc in Hspec.
    destruct (str_eqb (toUpperCase (acc_currency d))
                (toUpperCase (acc_currency c))) eqn:E9.
    + destruct (str_eqb (p_currency p) (toUpperCase (acc_currency d)))
        eqn:E10.
      * apply str_eqb_eq in E9, E10.
        assert (Hcode : r_status_code (processParsed M now (accounts data) p)
                        <> CU01).
        { destruct (sufficientFunds (accounts data) p);
            cbn [option_map] in Hspec.
          - destruct Hspec as (d' & c' & a & _ & _ & _ & _ & ->).
            unfold finalResponse.
            destruct (option_map _ _) as [[]|]; discriminate.
          - rewrite Hspec. discriminate. }
        split; [intros H; contradiction (Hcode H) | intros [H|H]; contradiction].
      * cbn [option_map] in Hspec. rewrite Hspec.
        apply str_eqb_neq in E10.
        split; [intros _; right; exact E10 | reflexivity].
    + cbn [option_map] in Hspec. rewrite Hspec.
      apply str_eqb_neq in E9.
      split; [intros _; left; exact E9 | reflexivity].
  - destruct (firstFailureIndex validationChain (accounts data) p) as [k|]
      eqn:Hk.
    + rewrite Hspec. cbn [r_accounts r_status_code response].
      unfold failureSnapshots.
      rewrite transactionAccountsUnchanged_filter.
      unfold accountsWithOriginalBalances.
      apply firstFailureIndex_range in Hk. cbn in Hk.
      repeat (destruct Hk as [<-|Hk]); try contradiction Hk;
        cbn [failureCode nth map snd validationChain Nat.sub Nat.leb
               echoesAll];
        rewrite map_map; reflexivity.
    + destruct Hspec as (d & c & a & _ & _ & _ & _ & ->).
      unfold finalResponse.
      destruct (option_map _ _) as [[]|];
        cbn [r_accounts r_status_code response echoesAll];
        apply transactionAccountsFinal_currencies.
  - intros accounts2 H. unfold parsePaymentInstructionAt.
    cbn [instruction accounts]. rewrite Hp.
    rewrite <- (processParsed_upper M now accounts2),
      <- (processParsed_upper M now (accounts data)), H. reflexivity.
Qed.

Lemma currency_compared_in_capitals_witness :
  let accs :=
    [mkAccount (js "a") 230 (js "usd"); mkAccount (js "b") 300 (js "Usd")] in
  let r :=
    parsePaymentInstructionAt sampleMessages (midnight 2026 11 1)
      (mkServiceData accs
         (js "DEBIT 30 USD FROM ACCOUNT a FOR CREDIT TO ACCOUNT b")) in
  (firstFailure (firstn 8 validationChain) accs sampleParsed = None ->
   exists d c,
     findAccount accs (js "a") = Some d
     /\ findAccount accs (js "b") = Some c
     /\ (r_status_code r = CU01
         <-> toUpperCase (acc_currency d) <> toUpperCase (acc_currency c)
             \/ js "USD" <> toUpperCase (acc_currency d)))
  /\ map (fun s => (snap_id s, snap_currency s)) (r_accounts r)
     = [(js "a", js "USD"); (js "b", js "USD")]
  /\ forall accounts2,
       map upperCurrency accounts2 = map upperCurrency accs ->
       parsePaymentInstructionAt sampleMessages (midnight 2026 11 1)
         (mkServiceData accounts2
            (js "DEBIT 30 USD FROM ACCOUNT a FOR CREDIT TO ACCOUNT b"))
       = r.
Proof.
  exact (currency_compared_in_capitals sampleMessages (midnight 2026 11 1)
           (mkServiceData
              [mkAccount (js "a") 230 (js "usd");
               mkAccount (js "b") 300 (js "Usd")]
              (js "DEBIT 30 USD FROM ACCOUNT a FOR CREDIT TO ACCOUNT b"))
           sampleParsed eq_refl).
Defined.

(** ** [ON] without a date *)

Lemma firstFailureIndex_failed (chain : list (Check * StatusCode))
  (accounts : list Account) (p : ParsedInstruction) (k : nat) :
  firstFailureIndex chain accounts p = Some k ->
  exists check failure,
    nth_error chain (k - 1) = Some (check, failure)
    /\ check accounts p = false.
Proof.
  revert k; induction chain as [|[check failure] rest IH]; simpl;
    [discriminate|].
  intros k. destruct (check accounts p) eqn:E.
  - destruct (firstFailureIndex rest accounts p) as [j|] eqn:Ej; simpl;
      [|discriminate].
    intros H; inversion H; subst.
    pose proof (firstFailureIndex_pos _ _ _ _ Ej).
    destruct (IH j eq_refl) as (c & f & Hn & Hc). exists c, f.
    split; [|exact Hc].
    destruct j as [|j]; [lia|]. simpl in *. rewrite Nat.sub_0_r in Hn.
    exact Hn.
  - intros H; inversion H; subst. exists check, failure. auto.
Qed.

(** An instruction without a date is never answered with DT01, and is
    executed when it passes the checks. *)
Lemma processParsed_without_date (M : Messages) (now : Z)
  (accounts : list Account) (p : ParsedInstruction) :
  p_executeBy p = None ->
  let r := processParsed M now accounts p in
  r_status_code r <> DT01
  /\ (firstFailure validationChain accounts p = None ->
      r_status r = successful /\ r_status_code r = AP00).
Proof.
  intros Hnone. cbv zeta.
  assert (Hd : p_executeBy p <> Some []) by (rewrite Hnone; discriminate).
  pose proof (processParsed_spec M now accounts p Hd) as Hspec.
  rewrite firstFailure_code.
  destruct (firstFailureIndex validationChain accounts p) as [k|] eqn:Hk.
  - rewrite Hspec. cbn [r_status_code r_status response option_map].
    split; [|discriminate].
    destruct (firstFailureIndex_failed _ _ _ _ Hk) as (check & f & Hn & Hc).
    apply firstFailureIndex_range in Hk. simpl in Hk.
    repeat (destruct Hk as [<-|Hk]); try contradiction Hk;
      try discriminate.
    simpl in Hn. inversion Hn; subst.
    unfold dateFormat in Hc. rewrite Hnone in Hc. discriminate Hc.
  - destruct Hspec as (d & c & a & _ & _ & _ & _ & ->).
    unfold finalResponse. rewrite Hnone. cbn. repeat split; discriminate.
Qed.

(** What executing means: the response to an instruction without a date
    that passes the checks lists both parties, the debit side with the
    old balance less the amount, the credit side with the old balance
    plus the amount, as the doubles nearest to them. *)
Lemma executed_without_date (M : Messages) (now : Z)
  (accounts : list Account) (p : ParsedInstruction) :
  p_executeBy p = None ->
  firstFailure validationChain accounts p = None ->
  let r := processParsed M now accounts p in
  exists d c a,
    findAccount accounts (p_debitAccount p) = Some d
    /\ findAccount accounts (p_creditAccount p) = Some c
    /\ parseInt (p_amount p) = Num a
    /\ (exists s, In s (r_accounts r) /\ snap_id s = p_debitAccount p)
    /\ (exists s, In s (r_accounts r) /\ snap_id s = p_creditAccount p)
    /\ forall s, In s (r_accounts r) ->
         (snap_id s = p_debitAccount p ->
          snap_balance s = toNumber (acc_balance d - a)
          /\ snap_balance_before s = Num (acc_balance d))
         /\ (snap_id s = p_creditAccount p ->
             snap_balance s = toNumber (acc_balance c + a)
             /\ snap_balance_before s = Num (acc_balance c)).
Proof.
  intros Hnone Hpass. cbv zeta. apply firstFailure_none in Hpass.
  assert (Hdate : p_executeBy p <> Some []) by (rewrite Hnone; discriminate).
  pose proof (processParsed_spec M now accounts p Hdate) as Hspec.
  pose proof (passed_accountsDiffer _ _ Hpass) as Hne.
  rewrite Hpass in Hspec. destruct Hspec as (d & c & a & Hd & Hc & Ha & _ & ->).
  destruct (findAccount_some _ _ _ Hd) as [Hind Hidd].
  destruct (findAccount_some _ _ _ Hc) as [Hinc Hidc].
  exists d, c, a. repeat (split; [assumption|]).
  unfold finalResponse. rewrite Hnone.
  cbn [option_map r_accounts response js_sub js_add].
  split;
    [exact (transactionAccountsFinal_debit _ _ _ _ _ d _ _ Hind Hidd)|].
  split;
    [exact (transactionAccountsFinal_credit _ _ _ _ _ c _ _ Hinc Hidc Hne)|].
  intros s Hs; apply In_transactionAccountsFinal in Hs.
  destruct Hs as [(H1 & H2 & H3)|(H0 & H1 & H2 & H3)];
    split; intros Hid; try congruence; split; assumption.
Qed.

(** C10, amended. An instruction laid out by the grammar (keywords in any
    casing, white space between the tokens, the amount and the currency
    free of the keyword that follows them, the first account free of
    [FOR] and the second of [ON]) and closed by [ON] with nothing, or
    white space only, after it scans with [executeBy = null]; it is
    treated as the same instruction without [ON]: the response is the
    same, it is never DT01, and when the checks pass it is executed at
    once: [successful] with AP00, the debit snapshot holding the old
    balance less the amount and the credit snapshot the old balance plus
    the amount (the doubles nearest to them). *)
Theorem blank_on_is_no_date (M : Messages) (now : Z)
  (accs : list Account) (L : Layout) (p : ParsedInstruction) :
  layoutOk (p_type p) L = true -> wellFormed p = true -> scanSafe p = true ->
  let q := expected (withoutDate p) in
  let r :=
    parsePaymentInstructionAt M now
      (mkServiceData accs (renderBlankOn L p)) in
  parseInstruction (renderBlankOn L p) = Some q
  /\ p_executeBy q = None
  /\ r = parsePaymentInstructionAt M now
           (mkServiceData accs (render L (withoutDate p)))
  /\ r_status_code r <> DT01
  /\ (firstFailure validationChain accs q = None ->
      r_status r = successful /\ r_status_code r = AP00
      /\ exists d c a,
           findAccount accs (p_debitAccount q) = Some d
           /\ findAccount accs (p_creditAccount q) = Some c
           /\ parseInt (p_amount q) = Num a
           /\ (exists s, In s (r_accounts r)
                         /\ snap_id s = p_debitAccount q)
           /\ (exists s, In s (r_accounts r)
                         /\ snap_id s = p_creditAccount q)
           /\ forall s, In s (r_accounts r) ->
                (snap_id s = p_debitAccount q ->
                 snap_balance s = toNumber (acc_balance d - a)
                 /\ snap_balance_before s = Num (acc_balance d))
                /\ (snap_id s = p_creditAccount q ->
                    snap_balance s = toNumber (acc_balance c + a)
                    /\ snap_balance_before s = Num (acc_balance c))).
Proof.
  intros HL Hwf Hsafe. cbv zeta.
  pose proof (parse_renderBlankOn L p HL Hwf Hsafe) as Hblank.
  assert (Hplain : parseInstruction (render L (withoutDate p))
                   = Some (expected (withoutDate p))).
  { apply parse_render.
    - exact HL.
    - unfold wellFormed in *. simpl.
      destruct (token (p_amount p) && token (p_currency p)
                && token (p_debitAccount p) && token (p_creditAccount p));
        [reflexivity | discriminate Hwf].
    - exact Hsafe. }
  split; [exact Hblank|]. split; [reflexivity|].
  unfold parsePaymentInstructionAt. cbn [instruction accounts].
  rewrite Hblank, Hplain.
  split; [reflexivity|].
  destruct (processParsed_without_date M now accs
              (expected (withoutDate p)) eq_refl) as [Hdt Hok].
  split; [exact Hdt|].
  intros Hpass. destruct (Hok Hpass) as [H1 H2].
  split; [exact H1|]. split; [exact H2|].
  exact (executed_without_date M now accs (expected (withoutDate p))
           eq_refl Hpass).
Qed.

Lemma blank_on_is_no_date_witness :
  let q := mkParsed DEBIT (js "30") (js "USD") (js "a") (js "b") None in
  let r :=
    parsePaymentInstructionAt sampleMessages (midnight 2026 11 1)
      (mkServiceData sampleAccounts (renderBlankOn looseLayout sampleDebit)) in
  parseInstruction (renderBlankOn looseLayout sampleDebit) = Some q
  /\ p_executeBy q = None
  /\ r = parsePaymentInstructionAt sampleMessages (midnight 2026 11 1)
           (mkServiceData sampleAccounts
              (render looseLayout (withoutDate sampleDebit)))
  /\ r_status_code r <> DT01
  /\ (firstFailure validationChain sampleAccounts q = None ->
      r_status r = successful /\ r_status_code r = AP00
      /\ exists d c a,
           findAccount sampleAccounts (js "a") = Some d
           /\ findAccount sampleAccounts (js "b") = Some c
           /\ parseInt (js "30") = Num a
           /\ (exists s, In s (r_accounts r) /\ snap_id s = js "a")
           /\ (exists s, In s (r_accounts r) /\ snap_id s = js "b")
           /\ forall s, In s (r_accounts r) ->
                (snap_id s = js "a" ->
                 snap_balance s = toNumber (acc_balance d - a)
                 /\ snap_balance_before s = Num (acc_balance d))
                /\ (snap_id s = js "b" ->
                    snap_balance s = toNumber (acc_balance c + a)
                    /\ snap_balance_before s = Num (acc_balance c))).
Proof.
  exact (blank_on_is_no_date sampleMessages (midnight 2026 11 1)
           sampleAccounts looseLayout sampleDebit eq_refl eq_refl eq_refl).
Defined.

(** C10 as claimed fails when the credit account holds [on]: the scanner
    stops at the [on] of [jon], takes the closing [ON] for the date, and
    the request is answered DT01, while the same instruction without the
    closing [ON] is executed. *)
Theorem blank_on_counterexample :
  let accs :=
    [mkAccount (js "a") 230 (js "USD"); mkAccount (js "j") 300 (js "USD")] in
  let closed := js "DEBIT 30 USD FROM ACCOUNT a FOR CREDIT TO ACCOUNT jon ON " in
  let bare := js "DEBIT 30 USD FROM ACCOUNT a FOR CREDIT TO ACCOUNT jon" in
  let r :=
    parsePaymentInstructionAt sampleMessages (midnight 2026 11 1)
      (mkServiceData accs closed) in
  let r' :=
    parsePaymentInstructionAt sampleMessages (midnight 2026 11 1)
      (mkServiceData accs bare) in
  parseInstruction closed
  = Some (mkParsed DEBIT (js "30") (js "USD") (js "a") (js "j")
            (Some (js "ON")))
  /\ r_status r = failed /\ r_status_code r = DT01
  /\ parseInstruction bare
     = Some (mkParsed DEBIT (js "30") (js "USD") (js "a") (js "j") None)
  /\ r_status r' = successful /\ r_status_code r' = AP00.
Proof. vm_compute. repeat split; reflexivity. Qed.

(** * Worked examples: the requests of the README and the scenarios of the
    specification *)

Example parse_readme_debit :
  parseInstruction (js "DEBIT 30 USD FROM ACCOUNT a FOR CREDIT TO ACCOUNT b")
  = Some (mkParsed DEBIT (js "30") (js "USD") (js "a") (js "b") None).
Proof. reflexivity. Qed.

Example parse_readme_credit :
  parseInstruction
    (js "CREDIT 300 NGN TO ACCOUNT acc-002 FOR DEBIT FROM ACCOUNT acc-001 ON 2026-12-31")
  = Some (mkParsed CREDIT (js "300") (js "NGN") (js "acc-001") (js "acc-002")
            (Some (js "2026-12-31"))).
Proof. reflexivity. Qed.

Example scenario_executed :
  let r :=
    parsePaymentInstructionAt sampleMessages (midnight 2026 11 1)
      (mkServiceData sampleAccounts
         (js "DEBIT 30 USD FROM ACCOUNT a FOR CREDIT TO ACCOUNT b")) in
  r_status r = successful /\ r_status_code r = AP00
  /\ r_amount r = Some (Num 30)
  /\ r_accounts r
     = [mkSnapshot (js "a") (Num 200) (Num 230) (js "USD");
        mkSnapshot (js "b") (Num 330) (Num 300) (js "USD")]
  /\ httpStatus r = 200%nat.
Proof. cbv zeta. repeat split; reflexivity. Qed.

Example scenario_pending :
  let r :=
    parsePaymentInstructionAt sampleMessages (midnight 2026 11 1)
      (mkServiceData sampleAccounts
         (js "DEBIT 30 USD FROM ACCOUNT a FOR CREDIT TO ACCOUNT b ON 2026-12-31"))
  in
  r_status r = pending /\ r_status_code r = AP02
  /\ r_accounts r
     = [mkSnapshot (js "a") (Num 230) (Num 230) (js "USD");
        mkSnapshot (js "b") (Num 300) (Num 300) (js "USD")].
Proof. cbv zeta. repeat split; reflexivity. Qed.

Example scenario_currency_mismatch :
  r_status_code
    (parsePaymentInstructionAt sampleMessages (midnight 2026 11 1)
       (mkServiceData
          [mkAccount (js "a") 100 (js "USD"); mkAccount (js "b") 500 (js "GBP")]
          (js "DEBIT 50 USD FROM ACCOUNT a FOR CREDIT TO ACCOUNT b")))
  = CU01.
Proof. reflexivity. Qed.

Example scenario_unparseable :
  let r :=
    parsePaymentInstructionAt sampleMessages (midnight 2026 11 1)
      (mkServiceData sampleAccounts (js "SEND 30 USD TO ACCOUNT b")) in
  r_status_code r = SY03 /\ r_accounts r = [] /\ httpStatus r = 400%nat.
Proof. cbv zeta. repeat split; reflexivity. Qed.

Example boundary_dates :
  isValidDate (js "2024-02-30") = false
  /\ isValidDate (js "2024-02-29") = true
  /\ isValidDate (js "2023-02-29") = false
  /\ isValidDate (js "2024-1a-31") = false.
Proof. repeat split; reflexivity. Qed.

Example boundary_amounts :
  isPositiveInteger (js "0") = false
  /\ isPositiveInteger (js "-5") = false
  /\ isPositiveInteger (js "5.5") = false
  /\ isPositiveInteger (js "30") = true.
Proof. repeat split; reflexivity. Qed.

(** Numbers beyond [2^53]: [parseInt], [+] and the template string. *)
Example rounding_of_numbers :
  parseInt (js "9007199254740993") = Num 9007199254740992
  /\ js_add (Num 9007199254740992) (Num 1) = Num 9007199254740992
  /\ js_add (Num 9007199254740992) (Num 3) = Num 9007199254740996
  /\ js_sub (Num 1152921504606846976) (Num 1) = Num 1152921504606846976
  /\ parseInt (repeat "9" 400) = Infinity false
  /\ numberToString (Num 18446744073709551616) = js "18446744073709552000"
  /\ numberToString (Num (10 ^ 21)) = js "1e+21"
  /\ numberToString (Num (2 ^ 70)) = js "1.1805916207174113e+21"
  /\ numberToString (Infinity false) = js "Infinity".
Proof. vm_compute. repeat split; reflexivity. Qed.

(** An amount that rounds down to the balance passes the funds check and
    is executed. *)
Example scenario_rounded_amount :
  let r :=
    parsePaymentInstructionAt sampleMessages (midnight 2026 11 1)
      (mkServiceData
         [mkAccount (js "a") 9007199254740992 (js "USD");
          mkAccount (js "b") 0 (js "USD")]
         (js "DEBIT 9007199254740993 USD FROM ACCOUNT a FOR CREDIT TO ACCOUNT b"))
  in
  r_status r = successful /\ r_status_code r = AP00
  /\ r_amount r = Some (Num 9007199254740992)
  /\ r_accounts r
     = [mkSnapshot (js "a") (Num 0) (Num 9007199254740992) (js "USD");
        mkSnapshot (js "b") (Num 9007199254740992) (Num 0) (js "USD")]
  /\ httpStatus r = 200%nat.
Proof. vm_compute. repeat split; reflexivity. Qed.

(** An amount of 400 digits is [Infinity], more than any balance. *)
Example scenario_infinite_amount :
  let r :=
    parsePaymentInstructionAt sampleMessages (midnight 2026 11 1)
      (mkServiceData sampleAccounts
         (js "DEBIT " ++ repeat "9" 400
          ++ js " USD FROM ACCOUNT a FOR CREDIT TO ACCOUNT b")) in
  r_status r = failed /\ r_status_code r = AC01
  /\ r_amount r = Some (Infinity false)
  /\ r_status_reason r
     = INSUFFICIENT_FUNDS sampleMessages
       ++ js ": has 230 USD, needs Infinity USD".
Proof. vm_compute. repeat split; reflexivity. Qed.

(** Account currencies in any casing pass the currency checks and are
    reported in capitals. *)
Example scenario_mixed_case_currencies :
  let r :=
    parsePaymentInstructionAt sampleMessages (midnight 2026 11 1)
      (mkServiceData
         [mkAccount (js "a") 230 (js "usd"); mkAccount (js "b") 300 (js "Usd")]
         (js "DEBIT 30 USD FROM ACCOUNT a FOR CREDIT TO ACCOUNT b")) in
  r_status r = successful /\ r_status_code r = AP00
  /\ r_accounts r
     = [mkSnapshot (js "a") (Num 200) (Num 230) (js "USD");
        mkSnapshot (js "b") (Num 330) (Num 300) (js "USD")].
Proof. vm_compute. repeat split; reflexivity. Qed.

(** * Further properties of the code *)

(** ** [findKeywordIndex]: the first match at or after the start *)

Lemma prefixb_firstn (kw s : str) :
  prefixb kw s = true <-> firstn (length kw) s = kw.
Proof.
  revert s; induction kw as [|k kw IH]; intros s; simpl.
  - split; reflexivity.
  - destruct s as [|c s]; simpl; [split; discriminate|].
    rewrite andb_true_iff, Ascii.eqb_eq, IH.
    split; [intros [-> ->]; reflexivity|].
    intros H; injection H as Hc Hk. split; [symmetry; exact Hc | exact Hk].
Qed.

Lemma find_sub_some (kw s : str) (n : nat) :
  find_sub kw s = Some n ->
  prefixb kw (skipn n s) = true
  /\ forall j, (j < n)%nat -> prefixb kw (skipn j s) = false.
Proof.
  revert n; induction s as [|c s IH]; intros n; simpl.
  - destruct (prefixb kw []) eqn:E; [|discriminate].
    intros H; inversion H; subst. split; [exact E | intros j Hj; lia].
  - destruct (prefixb kw (c :: s)) eqn:E.
    + intros H; inversion H; subst. split; [exact E | intros j Hj; lia].
    + destruct (find_sub kw s) as [m|]; simpl; [|discriminate].
      intros H; inversion H; subst. destruct (IH m eq_refl) as [H1 H2].
      split; [exact H1|]. intros [|j] Hj; [exact E | apply H2; lia].
Qed.

Lemma find_sub_none (kw s : str) :
  find_sub kw s = None -> forall j, prefixb kw (skipn j s) = false.
Proof.
  induction s as [|c s IH]; simpl.
  - destruct (prefixb kw []) eqn:E; [discriminate|].
    intros _ [|j]; exact E.
  - destruct (prefixb kw (c :: s)) eqn:E; [discriminate|].
    destruct (find_sub kw s); [discriminate|].
    intros _ [|j]; [exact E | apply IH; reflexivity].
Qed.

Lemma prefixb_length (kw s : str) :
  prefixb kw s = true -> (length kw <= length s)%nat.
Proof.
  revert s; induction kw as [|k kw IH]; intros [|c s]; simpl;
    try discriminate; try lia.
  intros H; apply andb_true_iff in H as [_ H]. apply IH in H. lia.
Qed.

Lemma toLowerCase_substring (T : str) (a b : nat) :
  toLowerCase (substring T a b) = substring (toLowerCase T) a b.
Proof.
  unfold substring, toLowerCase. rewrite skipn_map, firstn_map. reflexivity.
Qed.

Lemma substring_window (s : str) (i n : nat) :
  substring s i (i + n) = firstn n (skipn i s).
Proof.
  unfold substring. rewrite Nat.min_l, Nat.max_r by lia.
  f_equal. lia.
Qed.

(** X1. [findKeywordIndex] returns the first position at or after
    [startFrom] where the keyword stands in the instruction, in any casing:
    the keyword is there, it fits in the string, and it is at no earlier
    position from [startFrom] on; and it returns [-1] only when the
    keyword is at no position from [startFrom] on. *)
Theorem findKeywordIndex_first_match (T kw : str) (startFrom : nat) :
  kw <> [] ->
  match findKeywordIndex T kw startFrom with
  | Some i =>
      (startFrom <= i)%nat /\ (i + length kw <= length T)%nat
      /\ toLowerCase (substring T i (i + length kw)) = toLowerCase kw
      /\ forall j, (startFrom <= j < i)%nat ->
           toLowerCase (substring T j (j + length kw)) <> toLowerCase kw
  | None =>
      forall j, (startFrom <= j)%nat ->
        toLowerCase (substring T j (j + length kw)) <> toLowerCase kw
  end.
Proof.
  intros Hne. unfold findKeywordIndex, indexOf.
  assert (Hw : forall j,
             toLowerCase (substring T j (j + length kw)) = toLowerCase kw
             <-> prefixb (toLowerCase kw) (skipn j (toLowerCase T)) = true).
  { intros j. rewrite toLowerCase_substring, substring_window.
    rewrite prefixb_firstn, toLowerCase_length. reflexivity. }
  destruct (find_sub (toLowerCase kw) (skipn startFrom (toLowerCase T)))
    as [n|] eqn:E; cbn [option_map].
  - destruct (find_sub_some _ _ _ E) as [H1 H2].
    rewrite skipn_skipn in H1. rewrite Nat.add_comm in H1.
    split; [lia|]. split.
    + pose proof (prefixb_length _ _ H1) as Hl.
      rewrite length_skipn, !toLowerCase_length in Hl.
      assert (length kw <> 0)%nat by (destruct kw; simpl; congruence). lia.
    + split; [apply Hw; exact H1|].
      intros j Hj Hc. apply Hw in Hc.
      specialize (H2 (j - startFrom)%nat ltac:(lia)).
      rewrite skipn_skipn in H2.
      replace (j - startFrom + startFrom)%nat with j in H2 by lia.
      congruence.
  - intros j Hj Hc. apply Hw in Hc.
    pose proof (find_sub_none _ _ E (j - startFrom)%nat) as H2.
    rewrite skipn_skipn in H2.
    replace (j - startFrom + startFrom)%nat with j in H2 by lia.
    congruence.
Qed.

Lemma findKeywordIndex_first_match_witness :
  (5 <= 13)%nat /\ (13 + 4 <= 51)%nat
  /\ toLowerCase
       (substring (js "DEBIT 30 USD from ACCOUNT a FOR CREDIT TO ACCOUNT b")
          13 (13 + 4))
     = toLowerCase (js "FROM")
  /\ forall j, (5 <= j < 13)%nat ->
       toLowerCase
         (substring (js "DEBIT 30 USD from ACCOUNT a FOR CREDIT TO ACCOUNT b")
            j (j + 4))
       <> toLowerCase (js "FROM").
Proof.
  exact (findKeywordIndex_first_match
           (js "DEBIT 30 USD from ACCOUNT a FOR CREDIT TO ACCOUNT b")
           (js "FROM") 5 ltac:(discriminate)).
Defined.

(** ** [trim] and [extractBetween] *)

Lemma dropWhile_app {A} (f : A -> bool) (a b : list A) :
  dropWhile f (a ++ b)
  = if forallb f a then dropWhile f b else dropWhile f a ++ b.
Proof.
  induction a as [|x a IH]; simpl; [reflexivity|].
  destruct (f x); simpl; [exact IH | reflexivity].
Qed.

Lemma dropWhile_all {A} (f : A -> bool) (a : list A) :
  forallb f a = true -> dropWhile f a = [].
Proof.
  induction a as [|x a IH]; simpl; [reflexivity|].
  destruct (f x); simpl; [exact IH | discriminate].
Qed.

Lemma trimStart_startsClean (s : str) :
  trimStart s = [] \/ startsClean (trimStart s) = true.
Proof.
  unfold trimStart. induction s as [|c s IH]; simpl; [left; reflexivity|].
  destruct (is_ws c) eqn:E; [exact IH|]. right. simpl. rewrite E. reflexivity.
Qed.

Lemma trimStart_snoc (l : str) (c : ascii) :
  is_ws c = false -> exists w, trimStart (l ++ [c]) = w ++ [c].
Proof.
  intros Hc. unfold trimStart. induction l as [|x l IH]; simpl.
  - rewrite Hc. exists []. reflexivity.
  - destruct (is_ws x); [exact IH|]. exists (x :: l). reflexivity.
Qed.

(** What [trim] returns has white space at neither end. *)
Lemma trim_isTrimmed (s : str) : isTrimmed (trim s) = true.
Proof.
  unfold trim. destruct (trimStart s) as [|c u] eqn:Eu; [reflexivity|].
  assert (Hc : is_ws c = false).
  { destruct (trimStart_startsClean s) as [H|H]; rewrite Eu in H;
      [discriminate H|]. simpl in H. apply negb_true_iff; exact H. }
  change (rev (c :: u)) with (rev u ++ [c]).
  destruct (trimStart_snoc (rev u) c Hc) as (w & Hw).
  pose proof (trimStart_startsClean (rev u ++ [c])) as Hv.
  rewrite Hw in *. destruct Hv as [Hv|Hv]; [destruct w; discriminate Hv|].
  rewrite rev_app_distr. simpl rev. simpl app.
  unfold isTrimmed. cbn [startsClean]. rewrite Hc. simpl negb. simpl andb.
  rewrite rev_involutive. exact Hv.
Qed.

Lemma isTrimmed_trim (t : str) : isTrimmed t = true -> trim t = t.
Proof.
  destruct t as [|c t]; [reflexivity|]. unfold isTrimmed.
  intros H. apply andb_true_iff in H as [Hs He].
  apply trim_clean; assumption.
Qed.

Lemma trim_idempotent (s : str) : trim (trim s) = trim s.
Proof. apply isTrimmed_trim, trim_isTrimmed. Qed.

(** X2. What [extractBetween] returns is trimmed: white space at neither
    end.  Trimming it again, as [parseInstruction] does with every account
    and with the date, changes nothing. *)
Theorem extractBetween_trimmed (instr : str) (startPos : nat)
  (endPos : option nat) :
  isTrimmed (extractBetween instr startPos endPos) = true
  /\ trim (extractBetween instr startPos endPos)
     = extractBetween instr startPos endPos.
Proof.
  destruct endPos; simpl; split;
    first [apply trim_isTrimmed | apply trim_idempotent].
Qed.

(** White space around a string does not change what [trim] returns. *)
Lemma trim_around (l s r : str) :
  forallb is_ws l = true -> forallb is_ws r = true ->
  trim (l ++ s ++ r) = trim s.
Proof.
  intros Hl Hr. unfold trim. rewrite (trimStart_ws l) by exact Hl.
  unfold trimStart at 2. rewrite dropWhile_app.
  destruct (forallb is_ws s) eqn:Es.
  - rewrite (dropWhile_all _ r Hr).
    unfold trimStart at 3. rewrite (dropWhile_all _ s Es). reflexivity.
  - fold (trimStart s). rewrite rev_app_distr.
    rewrite (trimStart_ws (rev r)) by (rewrite forallb_rev; exact Hr).
    reflexivity.
Qed.

(** X3. White space before and after the instruction is ignored: the
    scanner returns for the padded instruction what it returns for the
    instruction itself.  An instruction of white space only (the empty one
    included) scans to [null]. *)
Theorem parseInstruction_padding (l s r : str) :
  forallb is_ws l = true -> forallb is_ws r = true ->
  parseInstruction (l ++ s ++ r) = parseInstruction s
  /\ parseInstruction (l ++ r) = None.
Proof.
  intros Hl Hr. split.
  - unfold parseInstruction. rewrite (trim_around l s r Hl Hr). reflexivity.
  - assert (Hb : trim (l ++ r) = [])
      by exact (trim_around l [] r Hl Hr).
    unfold parseInstruction. rewrite Hb. reflexivity.
Qed.

Lemma parseInstruction_padding_witness :
  parseInstruction
    (js "  " ++ js "DEBIT 30 USD FROM ACCOUNT a FOR CREDIT TO ACCOUNT b"
     ++ [" "; "010"])
  = parseInstruction (js "DEBIT 30 USD FROM ACCOUNT a FOR CREDIT TO ACCOUNT b")
  /\ parseInstruction (js "  " ++ [" "; "010"]) = None.
Proof.
  exact (parseInstruction_padding (js "  ")
           (js "DEBIT 30 USD FROM ACCOUNT a FOR CREDIT TO ACCOUNT b")
           [" "; "010"] eq_refl eq_refl).
Defined.

(** ** What the scanner hands over *)

Lemma split_spaceFree (x w : str) :
  In w (split " " x) -> spaceFree w = true.
Proof.
  revert w; induction x as [|c x IH]; simpl; intros w.
  - intros [<-|[]]. reflexivity.
  - destruct (Ascii.eqb c " ") eqn:Ec.
    + intros [<-|H]; [reflexivity | apply IH; exact H].
    + destruct (split " " x) as [|w0 ws] eqn:Es.
      * intros [<-|[]]. unfold spaceFree. simpl. rewrite Ec. reflexivity.
      * intros [<-|H].
        -- unfold spaceFree. simpl. rewrite Ec. simpl.
           apply (IH w0). left; reflexivity.
        -- apply IH. right; exact H.
Qed.

Lemma words_spaceFree (x w : str) :
  In w (filter nonEmpty (split " " x)) ->
  nonEmpty w = true /\ spaceFree w = true.
Proof.
  intros H. apply filter_In in H as [H1 H2].
  split; [exact H2 | apply (split_spaceFree x); exact H1].
Qed.

Lemma upper_char_space (c : ascii) :
  Ascii.eqb (upper_char c) " " = Ascii.eqb c " ".
Proof. destruct c as [[] [] [] [] [] [] [] []]; reflexivity. Qed.

Lemma toUpperCase_spaceFree (t : str) :
  spaceFree (toUpperCase t) = spaceFree t.
Proof.
  unfold spaceFree, toUpperCase. induction t as [|c t IH]; simpl;
    [reflexivity|].
  rewrite upper_char_space, IH. reflexivity.
Qed.

Lemma toUpperCase_nonEmpty (t : str) : nonEmpty (toUpperCase t) = nonEmpty t.
Proof. unfold nonEmpty, toUpperCase. rewrite length_map. reflexivity. Qed.

Lemma orNull_cases (d : str) :
  isTrimmed d = true ->
  match orNull (Some d) with
  | Some e => nonEmpty e = true /\ isTrimmed e = true
  | None => True
  end.
Proof. destruct d; simpl; auto. Qed.

Lemma scanBody_shape (k0 kA kB kC t a c f s : str) (e : option str) :
  scanBody k0 kA kB kC t = Some (a, c, f, s, e) ->
  nonEmpty a = true /\ spaceFree a = true
  /\ nonEmpty c = true /\ spaceFree c = true /\ toUpperCase c = c
  /\ isTrimmed f = true /\ isTrimmed s = true
  /\ match e with
     | Some d => nonEmpty d = true /\ isTrimmed d = true
     | None => True
     end.
Proof.
  unfold scanBody. intros H.
  destruct (findKeywordIndex t kA (length k0)) as [i1|]; [|discriminate H].
  destruct (filter nonEmpty _) as [|w1 [|w2 ws]] eqn:Ew;
    try discriminate H.
  assert (H1 : nonEmpty w1 = true /\ spaceFree w1 = true).
  { eapply words_spaceFree. rewrite Ew. left; reflexivity. }
  assert (H2 : nonEmpty w2 = true /\ spaceFree w2 = true).
  { eapply words_spaceFree. rewrite Ew. right; left; reflexivity. }
  repeat match type of H with
         | match findKeywordIndex ?x ?y ?z with _ => _ end = _ =>
             destruct (findKeywordIndex x y z); [|discriminate H]
         end.
  destruct H1 as [H1a H1b], H2 as [H2a H2b].
  destruct (findKeywordIndex t (js "ON") _); injection H;
    intros <- <- <- <- <-.
  all: rewrite toUpperCase_nonEmpty, toUpperCase_spaceFree, toUpperCase_idem.
  all: repeat (split; [first [assumption | reflexivity
                             | apply trim_isTrimmed]|]).
  - apply orNull_cases, trim_isTrimmed.
  - exact I.
Qed.

(** X4. Whatever the instruction, a structure the scanner returns has a
    non-empty amount and a non-empty currency without a space in them, the
    currency in capitals, account ids with white space at neither end
    (they may be empty), and a date that is absent or non-empty and
    trimmed. *)
Theorem parseInstruction_shape (s : str) (p : ParsedInstruction) :
  parseInstruction s = Some p ->
  nonEmpty (p_amount p) = true /\ spaceFree (p_amount p) = true
  /\ nonEmpty (p_currency p) = true /\ spaceFree (p_currency p) = true
  /\ toUpperCase (p_currency p) = p_currency p
  /\ isTrimmed (p_debitAccount p) = true
  /\ isTrimmed (p_creditAccount p) = true
  /\ match p_executeBy p with
     | Some d => nonEmpty d = true /\ isTrimmed d = true
     | None => True
     end.
Proof.
  rewrite parseInstruction_scan. cbv zeta.
  destruct (starts_at_zero _);
    [|destruct (starts_at_zero _); [|discriminate]].
  - destruct (scanBody _ _ _ _ _) as [[[[[a c] f] s'] e]|] eqn:E;
      [|discriminate].
    simpl. intros H; injection H as <-. simpl.
    apply (scanBody_shape _ _ _ _ _ _ _ _ _ _ E).
  - destruct (scanBody _ _ _ _ _) as [[[[[a c] f] s'] e]|] eqn:E;
      [|discriminate].
    simpl. intros H; injection H as <-. simpl.
    destruct (scanBody_shape _ _ _ _ _ _ _ _ _ _ E)
      as (H1 & H2 & H3 & H4 & H5 & H6 & H7 & H8).
    repeat split; assumption.
Qed.

Lemma parseInstruction_shape_witness :
  let p := mkParsed DEBIT (js "30") (js "USD") (js "a") [] None in
  nonEmpty (p_amount p) = true /\ spaceFree (p_amount p) = true
  /\ nonEmpty (p_currency p) = true /\ spaceFree (p_currency p) = true
  /\ toUpperCase (p_currency p) = p_currency p
  /\ isTrimmed (p_debitAccount p) = true
  /\ isTrimmed (p_creditAccount p) = true
  /\ True.
Proof.
  exact (parseInstruction_shape
           (js "debit 30 usd from account a for credit to account")
           (mkParsed DEBIT (js "30") (js "USD") (js "a") [] None) eq_refl).
Defined.

(** ** [isPositiveInteger] *)

Lemma digit_facts (c : ascii) :
  is_digit c = true ->
  is_ws c = false
  /\ Ascii.eqb "." c = false /\ Ascii.eqb "-" c = false
  /\ (0 <= digit_value c <= 9)%Z
  /\ (digit_value c =? 0)%Z = Ascii.eqb c "0".
Proof.
  destruct c as [[] [] [] [] [] [] [] []]; intros H;
    first [discriminate H | vm_compute; intuition congruence].
Qed.

Lemma find_sub_char (k : ascii) (s : str) :
  forallb (fun c => negb (Ascii.eqb k c)) s = true ->
  find_sub [k] s = None.
Proof.
  induction s as [|c s IH]; simpl; [reflexivity|].
  intros H. apply andb_true_iff in H as [Hc Hs].
  apply negb_true_iff in Hc. rewrite Hc. simpl. rewrite IH by exact Hs.
  reflexivity.
Qed.

Lemma digits_have_no (k : ascii) (s : str) :
  (forall c, is_digit c = true -> Ascii.eqb k c = false) ->
  forallb is_digit s = true ->
  notFound (indexOf s [k] 0) = true.
Proof.
  intros Hk Hs. unfold indexOf. simpl skipn. rewrite find_sub_char.
  - reflexivity.
  - rewrite forallb_forall in *. intros c Hc.
    rewrite (Hk c (Hs c Hc)). reflexivity.
Qed.

Lemma takeWhile_all {A} (f : A -> bool) (l : list A) :
  forallb f l = true -> takeWhile f l = l.
Proof.
  induction l as [|x l IH]; simpl; [reflexivity|].
  destruct (f x); simpl; [intros H; rewrite IH by exact H; reflexivity|].
  discriminate.
Qed.

Lemma parseInt_digit_first (c : ascii) (t : str) :
  is_digit c = true ->
  parseInt (c :: t) = toNumber (digits_value (c :: takeWhile is_digit t)).
Proof.
  destruct c as [[] [] [] [] [] [] [] []]; intros H;
    first [discriminate H | reflexivity].
Qed.

(** A run of digits parses to the Number value of its value. *)
Lemma parseInt_digits (s : str) :
  s <> [] -> forallb is_digit s = true ->
  parseInt s = toNumber (digits_value s).
Proof.
  destruct s as [|c t]; [congruence|]. intros _ H. simpl in H.
  apply andb_true_iff in H as [Hc Ht].
  rewrite parseInt_digit_first by exact Hc.
  rewrite takeWhile_all by exact Ht. reflexivity.
Qed.

(** Rounding keeps a positive integer positive. *)
Lemma roundToDouble_pos (v : Z) : (0 < v)%Z -> (0 < roundToDouble v)%Z.
Proof.
  intros Hv. unfold roundToDouble.
  destruct (Z.leb_spec (Z.abs v) maxSafe) as [_|Hbig]; [exact Hv|].
  cbv zeta. rewrite (Z.abs_eq v) in * by lia.
  rewrite (Z.sgn_pos v Hv), Z.mul_1_l.
  assert (Hlog : (53 <= Z.log2 v)%Z).
  { change 53%Z with (Z.log2 (2 ^ 53)).
    apply Z.log2_le_mono. change (2 ^ 53)%Z with maxSafe. lia. }
  set (dropped := (Z.log2 v - 52)%Z).
  assert (Hd : (0 <= dropped)%Z) by (subst dropped; lia).
  assert (Hpow : (0 < 2 ^ dropped <= v)%Z).
  { split; [apply Z.pow_pos_nonneg; lia|].
    apply Z.le_trans with (2 ^ Z.log2 v)%Z.
    - apply Z.pow_le_mono_r; subst dropped; lia.
    - apply Z.log2_spec. exact Hv. }
  assert (Hq : (0 < Z.shiftr v dropped)%Z).
  { rewrite Z.shiftr_div_pow2 by exact Hd. apply Z.div_str_pos. exact Hpow. }
  rewrite Z.shiftl_mul_pow2 by exact Hd.
  apply Z.mul_pos_pos; [|apply Hpow].
  destruct (_ || _); lia.
Qed.

(** The Number value of a natural number is positive exactly when the
    number is. *)
Lemma toNumber_positive (v : Z) :
  (0 <= v)%Z -> js_gt (toNumber v) (Num 0) = (0 <? v)%Z.
Proof.
  intros Hv. unfold toNumber.
  destruct (Z.ltb_spec 0 v) as [Hpos|Hzero].
  - pose proof (roundToDouble_pos v Hpos) as Hr.
    destruct (Z.abs (roundToDouble v) <? 2 ^ 1024)%Z.
    + unfold js_gt. cbn [js_lt]. apply Z.ltb_lt. exact Hr.
    + destruct (Z.ltb_spec v 0); [lia | reflexivity].
  - assert (v = 0%Z) by lia. subst v. reflexivity.
Qed.

Lemma digits_fold (s : str) (acc : Z) :
  forallb is_digit s = true -> (0 <= acc)%Z ->
  let v := fold_left (fun a c => 10 * a + digit_value c)%Z s acc in
  (0 <= v)%Z
  /\ ((0 <? v)%Z = (0 <? acc)%Z || hasNonZeroDigit s).
Proof.
  revert acc; induction s as [|c s IH]; intros acc Hs Hacc; cbv zeta.
  - simpl. rewrite orb_false_r. split; [exact Hacc | reflexivity].
  - simpl in Hs. apply andb_true_iff in Hs as [Hc Hs].
    destruct (digit_facts c Hc) as (_ & _ & _ & Hr & Hz).
    cbn [fold_left]. unfold hasNonZeroDigit. cbn [existsb].
    fold (hasNonZeroDigit s).
    destruct (IH (10 * acc + digit_value c)%Z Hs ltac:(lia)) as [H1 H2].
    split; [exact H1|]. rewrite H2. rewrite <- Hz.
    destruct (Z.ltb_spec 0 acc); destruct (Z.eqb_spec (digit_value c) 0);
      destruct (Z.ltb_spec 0 (10 * acc + digit_value c)); simpl;
      try reflexivity; lia.
Qed.

Lemma isPositiveInteger_eq (s : str) :
  isPositiveInteger s = nonEmpty s && forallb is_digit s && hasNonZeroDigit s.
Proof.
  unfold isPositiveInteger.
  destruct s as [|c t]; [reflexivity|].
  change (length (c :: t) =? 0)%nat with false.
  change (nonEmpty (c :: t)) with true. cbn [andb].
  destruct (forallb is_digit (c :: t)) eqn:Hd; cbn [negb andb].
  - change (js ".") with ["."]. change (js "-") with ["-"].
    rewrite (digits_have_no "." (c :: t)), (digits_have_no "-" (c :: t));
      try assumption;
      try (intros x Hx; destruct (digit_facts x Hx) as (_ & H1 & H2 & _);
           assumption).
    cbn [negb orb].
    rewrite parseInt_digits by (congruence || assumption).
    destruct (digits_fold (c :: t) 0%Z Hd ltac:(lia)) as [H0 H].
    cbv zeta in H0, H. rewrite toNumber_positive by exact H0.
    unfold digits_value. rewrite H. reflexivity.
  - destruct (_ || _); reflexivity.
Qed.

(** X5. [isPositiveInteger] accepts exactly the non-empty runs of digits
    that hold a digit other than [0]: leading zeros are accepted, and a
    sign, a decimal point, white space or any other character is refused
    by the digit test alone. *)
Theorem isPositiveInteger_digits (s : str) :
  isPositiveInteger s = true
  <-> s <> [] /\ forallb is_digit s = true /\ hasNonZeroDigit s = true.
Proof.
  rewrite isPositiveInteger_eq, !andb_true_iff.
  destruct s as [|c t].
  - split; [intros [[H _] _]; discriminate H | intros [H _]; contradiction H;
                                               reflexivity].
  - change (nonEmpty (c :: t)) with true.
    split; [intros [[_ H1] H2] | intros (_ & H1 & H2)];
      repeat split; try assumption; discriminate.
Qed.

(** ** The calendar behind [Date] *)

Local Open Scope Z_scope.

Lemma year_of_era (yoe doy : Z) :
  0 <= yoe <= 399 -> 0 <= doy ->
  (doy <= 364
   \/ doy = 365 /\ yoe mod 4 = 3 /\ (yoe mod 100 <> 99 \/ yoe = 399)) ->
  let doe := yoe * 365 + yoe / 4 - yoe / 100 + doy in
  0 <= doe <= 146096
  /\ (doe - doe / 1460 + doe / 36524 - doe / 146096) / 365 = yoe.
Proof.
  intros Hy Hd Hl doe. subst doe.
  Z.to_euclidean_division_equations; lia.
Qed.

Lemma era_of_day (era doe : Z) :
  0 <= doe <= 146096 ->
  (era * 146097 + doe) / 146097 = era
  /\ era * 146097 + doe - (era * 146097 + doe) / 146097 * 146097 = doe.
Proof. intros H. Z.to_euclidean_division_equations; lia. Qed.

(** From a day number built from its era, year of era, month (March is 0)
    and day back to the civil date. *)
Lemma civil_core (era yoe mp d : Z) :
  0 <= yoe <= 399 -> 0 <= mp <= 11 -> 1 <= d ->
  let doy := (153 * mp + 2) / 5 + d - 1 in
  (5 * doy + 2) / 153 = mp ->
  (doy <= 364
   \/ doy = 365 /\ yoe mod 4 = 3 /\ (yoe mod 100 <> 99 \/ yoe = 399)) ->
  civil_from_days
    (era * 146097 + (yoe * 365 + yoe / 4 - yoe / 100 + doy) - 719468)
  = (if mp <? 10 then era * 400 + yoe else era * 400 + yoe + 1,
     if mp <? 10 then mp + 3 else mp - 9, d).
Proof.
  intros Hy Hm Hd doy Hmp Hl.
  assert (Hdoy : 0 <= doy) by (subst doy; Z.to_euclidean_division_equations; lia).
  destruct (year_of_era yoe doy Hy Hdoy Hl) as [Hdoe Hyoe].
  set (doe := yoe * 365 + yoe / 4 - yoe / 100 + doy) in *.
  destruct (era_of_day era doe Hdoe) as [He1 He2].
  unfold civil_from_days. cbv zeta.
  replace (era * 146097 + doe - 719468 + 719468) with (era * 146097 + doe)
    by ring.
  rewrite He1.
  replace (era * 146097 + doe - era * 146097) with doe by ring.
  rewrite Hyoe.
  replace (doe - (365 * yoe + yoe / 4 - yoe / 100)) with doy
    by (subst doe; ring).
  rewrite Hmp.
  replace (doy - (153 * mp + 2) / 5 + 1) with d by (subst doy; ring).
  destruct (Z.ltb_spec mp 10).
  - destruct (Z.leb_spec (mp + 3) 2); [lia | reflexivity].
  - destruct (Z.leb_spec (mp - 9) 2); [reflexivity | lia].
Qed.

Lemma isLeap_spec (y : Z) :
  isLeap y = true <-> y mod 4 = 0 /\ (y mod 100 <> 0 \/ y mod 400 = 0).
Proof.
  unfold isLeap.
  destruct (Z.eqb_spec (y mod 4) 0), (Z.eqb_spec (y mod 100) 0),
    (Z.eqb_spec (y mod 400) 0); simpl; split; intros H;
    try discriminate; try reflexivity; try tauto;
    Z.to_euclidean_division_equations; lia.
Qed.

Lemma daysInMonth_bound (y m d : Z) :
  d <= daysInMonth y m ->
  d <= 31
  /\ (m = 4 \/ m = 6 \/ m = 9 \/ m = 11 -> d <= 30)
  /\ (m = 2 -> d <= 29
               /\ (d = 29 ->
                   y mod 4 = 0 /\ (y mod 100 <> 0 \/ y mod 400 = 0))).
Proof.
  unfold daysInMonth. intros H.
  destruct (Z.eqb_spec m 2) as [E2|E2].
  - destruct (isLeap y) eqn:El.
    + apply isLeap_spec in El. repeat split; try lia; apply El.
    + repeat split; lia.
  - destruct (Z.eqb_spec m 4), (Z.eqb_spec m 6), (Z.eqb_spec m 9),
      (Z.eqb_spec m 11); cbn [orb] in H; repeat split; lia.
Qed.

Lemma month_core (mp d : Z) :
  0 <= mp <= 11 -> 1 <= d <= 31 ->
  (mp = 1 \/ mp = 3 \/ mp = 6 \/ mp = 8 -> d <= 30) ->
  (mp = 11 -> d <= 29) ->
  (5 * ((153 * mp + 2) / 5 + d - 1) + 2) / 153 = mp
  /\ (153 * mp + 2) / 5 + d - 1 <= 365
  /\ ((153 * mp + 2) / 5 + d - 1 = 365 -> mp = 11 /\ d = 29).
Proof.
  intros Hm Hd H30 H11.
  assert (Hc : mp = 0 \/ mp = 1 \/ mp = 2 \/ mp = 3 \/ mp = 4 \/ mp = 5
               \/ mp = 6 \/ mp = 7 \/ mp = 8 \/ mp = 9 \/ mp = 10
               \/ mp = 11) by lia.
  repeat (destruct Hc as [Hc|Hc]); subst mp;
    Z.to_euclidean_division_equations; lia.
Qed.

Lemma leap_year_of_era (y : Z) :
  y mod 4 = 0 -> y mod 100 <> 0 \/ y mod 400 = 0 ->
  let yoe := y - 1 - (y - 1) / 400 * 400 in
  yoe mod 4 = 3 /\ (yoe mod 100 <> 99 \/ yoe = 399).
Proof.
  intros H4 H100 yoe. subst yoe. Z.to_euclidean_division_equations; lia.
Qed.

(** [civil_from_days] undoes [days_from_civil] on the days of the
    calendar. *)
Lemma civil_of_days (y m d : Z) :
  1 <= m <= 12 -> 1 <= d <= daysInMonth y m ->
  civil_from_days (days_from_civil y m d) = (y, m, d).
Proof.
  intros Hm [Hd1 Hd]. unfold days_from_civil. cbv zeta.
  destruct (daysInMonth_bound y m d Hd) as (Hd31 & Hd30 & Hfeb).
  set (y' := if m <=? 2 then y - 1 else y).
  set (mp := if 2 <? m then m - 3 else m + 9).
  set (era := y' / 400). set (yoe := y' - era * 400).
  assert (Hyoe : 0 <= yoe <= 399)
    by (subst yoe era; Z.to_euclidean_division_equations; lia).
  assert (Hy'd : y' = if m <=? 2 then y - 1 else y) by reflexivity.
  assert (Hmpd : mp = if 2 <? m then m - 3 else m + 9) by reflexivity.
  assert (Hmp : 0 <= mp <= 11)
    by (rewrite Hmpd; destruct (Z.ltb_spec 2 m); lia).
  assert (Hy' : y' = era * 400 + yoe) by (subst yoe; ring).
  assert (Hmonth : (5 * ((153 * mp + 2) / 5 + d - 1) + 2) / 153 = mp
                   /\ (153 * mp + 2) / 5 + d - 1 <= 365
                   /\ ((153 * mp + 2) / 5 + d - 1 = 365
                       -> mp = 11 /\ d = 29)).
  { apply month_core; [exact Hmp | lia | | ];
      rewrite Hmpd; destruct (Z.ltb_spec 2 m); lia. }
  destruct Hmonth as (Hmonth & Hdoy & Hlast).
  rewrite (civil_core era yoe mp d Hyoe Hmp Hd1 Hmonth).
  - clearbody yoe. clearbody era. clearbody mp y'.
    destruct (Z.leb_spec m 2), (Z.ltb_spec 2 m), (Z.ltb_spec mp 10);
      try lia;
      (apply pair_equal_spec; split; [apply pair_equal_spec; split|]; lia).
  - destruct (Z.eq_dec ((153 * mp + 2) / 5 + d - 1) 365) as [E|E];
      [right | left; lia].
    split; [exact E|].
    destruct (Hlast E) as [Emp Ed].
    assert (Em : m = 2)
      by (rewrite Hmpd in Emp; destruct (Z.ltb_spec 2 m); lia).
    destruct (Hfeb Em) as [_ Hl]. destruct (Hl Ed) as [H4 H100].
    assert (Ey : yoe = y - 1 - (y - 1) / 400 * 400).
    { subst yoe era y'. destruct (Z.leb_spec m 2); [reflexivity | lia]. }
    rewrite Ey. exact (leap_year_of_era y H4 H100).
Qed.
Lemma days_linear (y m d : Z) :
  days_from_civil y m d = days_from_civil y m 1 + d - 1.
Proof. unfold days_from_civil. cbv zeta. ring. Qed.

Lemma daysInMonth_range (y m : Z) : 28 <= daysInMonth y m <= 31.
Proof.
  unfold daysInMonth.
  destruct (m =? 2), (isLeap y),
    ((m =? 4) || (m =? 6) || (m =? 9) || (m =? 11))%bool; lia.
Qed.

Lemma next_month (y m : Z) :
  1 <= m <= 11 ->
  days_from_civil y (m + 1) 1 = days_from_civil y m 1 + daysInMonth y m.
Proof.
  intros Hm. unfold days_from_civil, daysInMonth. cbv zeta.
  pose proof (isLeap_spec y) as Hleap.
  assert (Hc : m = 1 \/ m = 2 \/ m = 3 \/ m = 4 \/ m = 5 \/ m = 6
               \/ m = 7 \/ m = 8 \/ m = 9 \/ m = 10 \/ m = 11) by lia.
  destruct (Z.leb_spec (m + 1) 2), (Z.leb_spec m 2),
    (Z.ltb_spec 2 (m + 1)), (Z.ltb_spec 2 m); try lia;
    destruct (Z.eqb_spec m 2), (Z.eqb_spec m 4), (Z.eqb_spec m 6),
      (Z.eqb_spec m 9), (Z.eqb_spec m 11); try lia; cbn [orb];
    try (destruct (isLeap y);
         [ assert (Hl : y mod 4 = 0 /\ (y mod 100 <> 0 \/ y mod 400 = 0))
             by (apply Hleap; reflexivity)
         | assert (Hl : ~ (y mod 4 = 0 /\ (y mod 100 <> 0 \/ y mod 400 = 0)))
             by (intros Hx; apply Hleap in Hx; discriminate Hx) ]);
    clear Hleap;
    repeat (destruct Hc as [Hc|Hc]); subst m; try lia;
    Z.to_euclidean_division_equations; lia.
Qed.
(** A day past the end of its month is a day of the next month. *)
Lemma civil_past_month (y m d : Z) :
  1 <= m <= 12 -> daysInMonth y m < d <= 31 ->
  civil_from_days (days_from_civil y m d)
  = (y, m + 1, d - daysInMonth y m).
Proof.
  intros Hm Hd.
  pose proof (daysInMonth_range y m) as Hr.
  pose proof (daysInMonth_range y (m + 1)) as Hr'.
  assert (Hm' : m <> 12).
  { intros ->. change (daysInMonth y 12) with 31 in Hd. lia. }
  rewrite days_linear.
  replace (days_from_civil y m 1 + d - 1)
    with (days_from_civil y (m + 1) 1 + (d - daysInMonth y m) - 1)
    by (rewrite next_month by lia; ring).
  rewrite <- days_linear. apply civil_of_days; lia.
Qed.

Lemma days_bound (y m d : Z) :
  0 <= y <= 9999 -> 1 <= m <= 12 -> 1 <= d <= 31 ->
  - 1000000 <= days_from_civil y m d <= 3000000.
Proof.
  intros Hy Hm Hd. unfold days_from_civil. cbv zeta.
  destruct (Z.leb_spec m 2), (Z.ltb_spec 2 m); try lia;
    Z.to_euclidean_division_equations; lia.
Qed.

Lemma Date_UTC_civil (y m d : Z) :
  100 <= y <= 9999 -> 1 <= m <= 12 -> 1 <= d <= 31 ->
  Date_UTC (Num y) (Num (m - 1)) (Num d)
  = Num (msPerDay * days_from_civil y m d).
Proof.
  intros Hy Hm Hd. unfold Date_UTC. cbv zeta.
  assert (E1 : ((0 <=? y) && (y <=? 99))%bool = false)
    by (destruct (Z.leb_spec 0 y), (Z.leb_spec y 99); try reflexivity; lia).
  rewrite E1.
  rewrite (Z.div_small (m - 1) 12), (Z.mod_small (m - 1) 12) by lia.
  replace (y + 0) with y by ring.
  replace (m - 1 + 1) with m by ring.
  rewrite <- days_linear.
  pose proof (days_bound y m d ltac:(lia) Hm Hd) as Hb.
  destruct (Z.leb_spec (Z.abs (msPerDay * days_from_civil y m d))
              8640000000000000) as [_|Hbig]; [reflexivity|].
  unfold msPerDay in Hbig. lia.
Qed.

Lemma day_of_ms (n : Z) : msPerDay * n / msPerDay = n.
Proof. rewrite Z.mul_comm. apply Z.div_mul. unfold msPerDay. lia. Qed.

Lemma digits_value_range (s : str) :
  forallb is_digit s = true ->
  0 <= digits_value s < 10 ^ Z.of_nat (length s).
Proof.
  unfold digits_value. intros H.
  enough (G : forall acc, 0 <= acc ->
            0 <= fold_left (fun a c => 10 * a + digit_value c) s acc
            < (acc + 1) * 10 ^ Z.of_nat (length s)).
  { specialize (G 0 ltac:(lia)). lia. }
  induction s as [|c t IH]; intros acc Hacc.
  - cbn [fold_left length]. change (10 ^ Z.of_nat 0) with 1. lia.
  - cbn [forallb] in H. apply andb_true_iff in H as [Hc Ht].
    destruct (digit_facts c Hc) as (_ & _ & _ & Hv & _).
    cbn [fold_left length].
    specialize (IH Ht (10 * acc + digit_value c) ltac:(lia)).
    rewrite Nat2Z.inj_succ, Z.pow_succ_r by lia.
    assert (Hp : 0 < 10 ^ Z.of_nat (length t))
      by (apply Z.pow_pos_nonneg; lia).
    nia.
Qed.

(** A run of at most fifteen digits parses to its value. *)
Lemma parseInt_small (s : str) :
  s <> [] -> forallb is_digit s = true -> (length s <= 15)%nat ->
  parseInt s = Num (digits_value s) /\ 0 <= digits_value s < 10 ^ 15.
Proof.
  intros Hne Hd Hlen. rewrite parseInt_digits by assumption.
  pose proof (digits_value_range s Hd) as Hr.
  assert (Hp : 10 ^ Z.of_nat (length s) <= 10 ^ 15)
    by (apply Z.pow_le_mono_r; lia).
  assert (H15 : 10 ^ 15 < maxSafe) by reflexivity.
  split; [apply toNumber_safe|]; lia.
Qed.

Lemma js_sub_safe (x y : Z) :
  Z.abs (x - y) <= maxSafe -> js_sub (Num x) (Num y) = Num (x - y).
Proof. apply toNumber_safe. Qed.

Lemma isValidDate_eq (s : str) :
  isValidDate s
  = dateShape s
    && (let '(y, m, d) := dateNumbers s in
        (1000 <=? y) && (1 <=? m) && (m <=? 12)
        && (1 <=? d) && (d <=? daysInMonth y m)).
Proof.
  destruct s as [|c0 [|c1 [|c2 [|c3 [|c4 [|c5 [|c6 [|c7 [|c8 [|c9 [|c10 t]]]]]]]]]]];
    try reflexivity.
  set (s := [c0; c1; c2; c3; c4; c5; c6; c7; c8; c9]).
  assert (Ey : substring s 0 4 = [c0; c1; c2; c3]) by reflexivity.
  assert (Em : substring s 5 7 = [c5; c6]) by reflexivity.
  assert (Ed : substring s 8 10 = [c8; c9]) by reflexivity.
  assert (E4 : charAt_is s 4 "-" = Ascii.eqb c4 "-") by reflexivity.
  assert (E7 : charAt_is s 7 "-" = Ascii.eqb c7 "-") by reflexivity.
  unfold isValidDate, dateShape, dateNumbers. cbv zeta.
  rewrite Ey, Em, Ed, E4, E7.
  change (length s =? 10)%nat with true. cbn [negb andb].
  destruct (Ascii.eqb c4 "-"); cbn [negb andb orb]; [|reflexivity].
  destruct (Ascii.eqb c7 "-"); cbn [negb andb orb]; [|reflexivity].
  destruct (forallb is_digit [c0; c1; c2; c3]) eqn:Dy; cbn [negb andb];
    [|reflexivity].
  destruct (forallb is_digit [c5; c6]) eqn:Dm; cbn [negb andb];
    [|reflexivity].
  destruct (forallb is_digit [c8; c9]) eqn:Dd; cbn [negb andb];
    [|reflexivity].
  destruct (parseInt_small [c0; c1; c2; c3]) as [-> _];
    [discriminate | exact Dy | cbn [length]; lia |].
  destruct (parseInt_small [c5; c6]) as [-> Hm];
    [discriminate | exact Dm | cbn [length]; lia |].
  destruct (parseInt_small [c8; c9]) as [-> _];
    [discriminate | exact Dd | cbn [length]; lia |].
  pose proof (digits_value_range _ Dy) as Hy.
  change (10 ^ Z.of_nat (length [c0; c1; c2; c3])) with 10000 in Hy.
  assert (H15 : 10 ^ 15 < maxSafe) by reflexivity.
  set (y := digits_value [c0; c1; c2; c3]) in *.
  set (m := digits_value [c5; c6]) in *. set (d := digits_value [c8; c9]).
  rewrite (js_sub_safe m 1) by lia.
  clear H15 Hm.
  cbn [js_lt js_gt].
  destruct (Z.ltb_spec m 1), (Z.ltb_spec 12 m), (Z.leb_spec 1 m),
    (Z.leb_spec m 12); try lia; cbn [orb andb];
    try (rewrite ?andb_false_r; reflexivity).
  destruct (Z.ltb_spec d 1), (Z.ltb_spec 31 d), (Z.leb_spec 1 d);
    try lia; cbn [orb andb]; try (rewrite ?andb_false_r; reflexivity).
  - pose proof (daysInMonth_range y m).
    destruct (Z.leb_spec d (daysInMonth y m)); [lia|].
    rewrite andb_false_r. reflexivity.
  - destruct (Z.ltb_spec y 1000), (Z.leb_spec 1000 y); try lia;
      cbn [andb]; try reflexivity.
    rewrite Date_UTC_civil by lia.
    unfold getUTCFullYear, getUTCMonth, getUTCDate.
    rewrite day_of_ms.
    destruct (Z.leb_spec d (daysInMonth y m)).
    + rewrite civil_of_days by lia. cbn [js_eq].
      rewrite !Z.eqb_refl. reflexivity.
    + rewrite civil_past_month by lia. cbn [js_eq].
      destruct (Z.eqb_spec (m + 1 - 1) (m - 1)); [lia|].
      rewrite andb_false_r. reflexivity.
Qed.

(** X6. [isValidDate] accepts exactly the strings of the shape
    [YYYY-MM-DD] whose year is at least 1000, whose month is 1..12 and whose
    day is a day of that month in that year: 29 February in leap years
    only. *)
Theorem isValidDate_calendar (s : str) :
  isValidDate s = true
  <-> dateShape s = true
      /\ (let '(y, m, d) := dateNumbers s in
          1000 <= y /\ 1 <= m <= 12 /\ 1 <= d <= daysInMonth y m).
Proof.
  rewrite isValidDate_eq. destruct (dateNumbers s) as [[y m] d].
  rewrite !andb_true_iff, !Z.leb_le. tauto.
Qed.

Lemma era_year_of_day (doe : Z) :
  0 <= doe <= 146096 ->
  let yoe := (doe - doe / 1460 + doe / 36524 - doe / 146096) / 365 in
  let doy := doe - (365 * yoe + yoe / 4 - yoe / 100) in
  0 <= yoe <= 399 /\ 0 <= doy <= 365
  /\ (135080 <= doe -> 369 <= yoe /\ (yoe = 369 -> 306 <= doy)).
Proof.
  intros Hd yoe doy. subst doy yoe.
  Z.to_euclidean_division_equations; lia.
Qed.

Lemma month_of_day (doy : Z) :
  0 <= doy <= 365 ->
  let mp := (5 * doy + 2) / 153 in
  0 <= mp <= 11 /\ 1 <= doy - (153 * mp + 2) / 5 + 1 <= 31
  /\ (306 <= doy -> 10 <= mp).
Proof.
  intros Hd mp. subst mp. Z.to_euclidean_division_equations; lia.
Qed.

(** [days_from_civil] undoes [civil_from_days]; the date has a month in
    1..12 and a day in 1..31, and is not before 1970 from day 0 on. *)
Lemma days_of_civil (z : Z) :
  let '(y, m, d) := civil_from_days z in
  days_from_civil y m d = z /\ 1 <= m <= 12 /\ 1 <= d <= 31
  /\ (0 <= z -> 1970 <= y).
Proof.
  unfold civil_from_days. cbv zeta.
  set (z' := z + 719468). set (era := z' / 146097).
  set (doe := z' - era * 146097).
  assert (Hdoe : 0 <= doe <= 146096)
    by (subst doe era; Z.to_euclidean_division_equations; lia).
  assert (Hera : 0 <= z -> 4 <= era /\ (era = 4 -> 135080 <= doe))
    by (subst doe era z'; intros Hz; Z.to_euclidean_division_equations; lia).
  destruct (era_year_of_day doe Hdoe) as (Hyoe & Hdoy & H70).
  set (yoe := (doe - doe / 1460 + doe / 36524 - doe / 146096) / 365) in *.
  set (doy := doe - (365 * yoe + yoe / 4 - yoe / 100)) in *.
  destruct (month_of_day doy Hdoy) as (Hmp & Hd & H70').
  set (mp := (5 * doy + 2) / 153) in *.
  set (d := doy - (153 * mp + 2) / 5 + 1) in *.
  assert (Ez : z = era * 146097 + doe - 719468) by (subst doe z'; ring).
  assert (Edoe : doe = yoe * 365 + yoe / 4 - yoe / 100 + doy)
    by (subst doy; ring).
  assert (Edoy : doy = (153 * mp + 2) / 5 + d - 1) by (subst d; ring).
  clearbody d. clearbody mp. clearbody doy. clearbody yoe.
  clearbody doe. clearbody era. clear z'.
  unfold days_from_civil. cbv zeta.
  destruct (Z.ltb_spec mp 10).
  - destruct (Z.leb_spec (mp + 3) 2); [lia|].
    destruct (Z.ltb_spec 2 (mp + 3)); [|lia].
    replace (mp + 3 - 3) with mp by ring.
    assert (E1 : (era * 400 + yoe) / 400 = era)
      by (Z.to_euclidean_division_equations; lia).
    rewrite E1.
    replace (era * 400 + yoe - era * 400) with yoe by ring.
    rewrite <- Edoy, <- Edoe.
    repeat split; lia.
  - destruct (Z.leb_spec (mp - 9) 2); [|lia].
    destruct (Z.ltb_spec 2 (mp - 9)); [lia|].
    replace (mp - 9 + 9) with mp by ring.
    replace (era * 400 + yoe + 1 - 1) with (era * 400 + yoe) by ring.
    assert (E1 : (era * 400 + yoe) / 400 = era)
      by (Z.to_euclidean_division_equations; lia).
    rewrite E1.
    replace (era * 400 + yoe - era * 400) with yoe by ring.
    rewrite <- Edoy, <- Edoe.
    repeat split; lia.
Qed.

Lemma Date_UTC_days (y m d : Z) :
  100 <= y -> 1 <= m <= 12 ->
  - 100000000 <= days_from_civil y m d <= 100000000 ->
  Date_UTC (Num y) (Num (m - 1)) (Num d)
  = Num (msPerDay * days_from_civil y m d).
Proof.
  intros Hy Hm Hb. unfold Date_UTC. cbv zeta.
  assert (E1 : ((0 <=? y) && (y <=? 99))%bool = false)
    by (destruct (Z.leb_spec 0 y), (Z.leb_spec y 99); try reflexivity; lia).
  rewrite E1.
  rewrite (Z.div_small (m - 1) 12), (Z.mod_small (m - 1) 12) by lia.
  replace (y + 0) with y by ring.
  replace (m - 1 + 1) with m by ring.
  rewrite <- days_linear.
  destruct (Z.leb_spec (Z.abs (msPerDay * days_from_civil y m d))
              8640000000000000) as [_|Hbig]; [reflexivity|].
  unfold msPerDay in Hbig. lia.
Qed.

(** Midnight UTC of the day the clock is on. *)
Lemma todayUTC_midnight (now : Z) :
  0 <= now <= 8640000000000000 ->
  Date_UTC (getUTCFullYear (Num now)) (getUTCMonth (Num now))
    (getUTCDate (Num now))
  = Num (msPerDay * utcDay now).
Proof.
  intros Hnow. unfold getUTCFullYear, getUTCMonth, getUTCDate.
  fold (utcDay now).
  assert (Hday : 0 <= utcDay now <= 100000000)
    by (unfold utcDay, msPerDay; Z.to_euclidean_division_equations; lia).
  pose proof (days_of_civil (utcDay now)) as H.
  destruct (civil_from_days (utcDay now)) as [[y m] d].
  destruct H as (E & Hm & Hd & Hy).
  rewrite Date_UTC_days by lia. rewrite E. reflexivity.
Qed.

Lemma digit_not_dash (c : ascii) : is_digit c = true -> Ascii.eqb c "-" = false.
Proof.
  intros H. destruct (digit_facts c H) as (_ & _ & Hc & _).
  rewrite Ascii.eqb_sym. exact Hc.
Qed.

(** The three parts [split] finds in a date of the right shape. *)
Lemma split_date (s : str) :
  dateShape s = true ->
  split "-" s = [substring s 0 4; substring s 5 7; substring s 8 10].
Proof.
  destruct s as [|c0 [|c1 [|c2 [|c3 [|c4 [|c5 [|c6 [|c7 [|c8 [|c9 [|c10 t]]]]]]]]]]];
    try discriminate.
  unfold dateShape.
  change (substring [c0; c1; c2; c3; c4; c5; c6; c7; c8; c9] 0 4)
    with [c0; c1; c2; c3].
  change (substring [c0; c1; c2; c3; c4; c5; c6; c7; c8; c9] 5 7)
    with [c5; c6].
  change (substring [c0; c1; c2; c3; c4; c5; c6; c7; c8; c9] 8 10)
    with [c8; c9].
  change (charAt_is [c0; c1; c2; c3; c4; c5; c6; c7; c8; c9] 4 "-")
    with (Ascii.eqb c4 "-").
  change (charAt_is [c0; c1; c2; c3; c4; c5; c6; c7; c8; c9] 7 "-")
    with (Ascii.eqb c7 "-").
  cbn [forallb]. rewrite !andb_true_iff.
  intros [[[[[_ E4] E7] (D0 & D1 & D2 & D3 & _)] (D5 & D6 & _)]
            (D8 & D9 & _)].
  cbn [split].
  rewrite (digit_not_dash c0 D0), (digit_not_dash c1 D1),
    (digit_not_dash c2 D2), (digit_not_dash c3 D3),
    (digit_not_dash c5 D5), (digit_not_dash c6 D6),
    (digit_not_dash c8 D8), (digit_not_dash c9 D9), E4, E7.
  reflexivity.
Qed.

Lemma substring_length (s : str) (a b : nat) :
  (a <= b <= length s)%nat -> length (substring s a b) = (b - a)%nat.
Proof.
  intros H. unfold substring. rewrite length_firstn, length_skipn. lia.
Qed.

Lemma substring_nonempty (s : str) (a b : nat) :
  (a < b <= length s)%nat -> substring s a b <> [].
Proof.
  intros H E. apply (f_equal (@length ascii)) in E.
  rewrite substring_length in E by lia. cbn [length] in E. lia.
Qed.

Lemma compareDateWithToday_eq (now : Z) (s : str) :
  0 <= now <= 8640000000000000 ->
  isValidDate s = true ->
  let '(y, m, d) := dateNumbers s in
  compareDateWithToday now s
  = if midnight y m d + msPerDay <=? now then past
    else if midnight y m d <=? now then today
    else future.
Proof.
  intros Hnow Hvalid.
  rewrite isValidDate_eq in Hvalid.
  apply andb_true_iff in Hvalid as [Hshape Hnum].
  unfold compareDateWithToday. cbv zeta.
  rewrite (todayUTC_midnight now Hnow), (split_date s Hshape).
  unfold parseIntAt. cbn [nth_error].
  assert (Hs := Hshape). unfold dateShape in Hs.
  rewrite !andb_true_iff in Hs.
  destruct Hs as (((((Hlen & _) & _) & Dy) & Dm) & Dd).
  apply Nat.eqb_eq in Hlen.
  assert (Ly : substring s 0 4 <> [])
    by (apply substring_nonempty; lia).
  assert (Lm : substring s 5 7 <> [])
    by (apply substring_nonempty; lia).
  assert (Ld : substring s 8 10 <> [])
    by (apply substring_nonempty; lia).
  destruct (parseInt_small (substring s 0 4)) as [-> _];
    [exact Ly | exact Dy | rewrite substring_length; lia |].
  destruct (parseInt_small (substring s 5 7)) as [-> Hm];
    [exact Lm | exact Dm | rewrite substring_length; lia |].
  destruct (parseInt_small (substring s 8 10)) as [-> _];
    [exact Ld | exact Dd | rewrite substring_length; lia |].
  assert (H15 : 10 ^ 15 < maxSafe) by reflexivity.
  rewrite (js_sub_safe _ 1) by lia.
  clear H15 Hm.
  pose proof (digits_value_range _ Dy) as Hy.
  assert (Hy4 : Z.of_nat (length (substring s 0 4)) <= 4)
    by (rewrite substring_length; lia).
  assert (Hy' : digits_value (substring s 0 4) < 10 ^ 4).
  { eapply Z.lt_le_trans; [apply Hy|]. apply Z.pow_le_mono_r; lia. }
  change (10 ^ 4) with 10000 in Hy'.
  unfold dateNumbers in *.
  set (y := digits_value (substring s 0 4)) in *.
  set (m := digits_value (substring s 5 7)) in *.
  set (d := digits_value (substring s 8 10)) in *.
  rewrite !andb_true_iff, !Z.leb_le in Hnum.
  pose proof (daysInMonth_range y m) as Hdim.
  rewrite Date_UTC_civil by lia.
  cbn [js_lt js_eq]. unfold midnight, utcDay.
  set (D := days_from_civil y m d). clearbody D.
  unfold msPerDay.
  destruct (Z.ltb_spec (86400000 * D) (86400000 * (now / 86400000))),
    (Z.leb_spec (86400000 * D + 86400000) now);
    try reflexivity;
    try (exfalso; Z.to_euclidean_division_equations; lia).
  destruct (Z.eqb_spec (86400000 * D) (86400000 * (now / 86400000))),
    (Z.leb_spec (86400000 * D) now);
    try reflexivity;
    exfalso; Z.to_euclidean_division_equations; lia.
Qed.

(** X7. For a date [isValidDate] accepts and a clock from 1970 on,
    [compareDateWithToday] answers [past] exactly when the whole UTC day of
    the date is over, [today] exactly when the clock is within that day,
    and [future] exactly when that day has not begun. *)
Theorem compareDateWithToday_valid (now : Z) (s : str) :
  0 <= now <= 8640000000000000 ->
  isValidDate s = true ->
  let '(y, m, d) := dateNumbers s in
  (compareDateWithToday now s = past <-> midnight y m d + msPerDay <= now)
  /\ (compareDateWithToday now s = today
      <-> midnight y m d <= now < midnight y m d + msPerDay)
  /\ (compareDateWithToday now s = future <-> now < midnight y m d).
Proof.
  intros Hnow Hvalid.
  pose proof (compareDateWithToday_eq now s Hnow Hvalid) as H.
  destruct (dateNumbers s) as [[y m] d]. rewrite H.
  assert (Hms : 0 < msPerDay) by reflexivity.
  destruct (Z.leb_spec (midnight y m d + msPerDay) now);
    [|destruct (Z.leb_spec (midnight y m d) now)];
    repeat split; intros; try discriminate; try reflexivity; lia.
Qed.

Lemma compareDateWithToday_valid_witness :
  (compareDateWithToday (midnight 2026 12 31 + 5) (js "2026-12-31") = past
   <-> midnight 2026 12 31 + msPerDay <= midnight 2026 12 31 + 5)
  /\ (compareDateWithToday (midnight 2026 12 31 + 5) (js "2026-12-31")
      = today
      <-> midnight 2026 12 31 <= midnight 2026 12 31 + 5
          < midnight 2026 12 31 + msPerDay)
  /\ (compareDateWithToday (midnight 2026 12 31 + 5) (js "2026-12-31")
      = future
      <-> midnight 2026 12 31 + 5 < midnight 2026 12 31).
Proof.
  exact (compareDateWithToday_valid (midnight 2026 12 31 + 5)
           (js "2026-12-31") ltac:(vm_compute; split; discriminate)
           eq_refl).
Defined.

Local Close Scope Z_scope.

(** ** The processor and the endpoint *)

(** The three ways a request is answered. *)
Lemma response_cases (M : Messages) (now : Z) (data : ServiceData) :
  let r := parsePaymentInstructionAt M now data in
  (parseInstruction (instruction data) = None /\ r = unparseable M)
  \/ (exists p k,
        parseInstruction (instruction data) = Some p
        /\ firstFailureIndex validationChain (accounts data) p = Some k
        /\ r = response p (failureAmount k p) failed
                 (failureReason M k (accounts data) p) (failureCode k)
                 (failureSnapshots k (accounts data) p))
  \/ (exists p d c a,
        parseInstruction (instruction data) = Some p
        /\ firstFailureIndex validationChain (accounts data) p = None
        /\ findAccount (accounts data) (p_debitAccount p) = Some d
        /\ findAccount (accounts data) (p_creditAccount p) = Some c
        /\ parseInt (p_amount p) = Num a /\ (0 < a <= acc_balance d)%Z
        /\ r = finalResponse M now (accounts data) p d c a).
Proof.
  cbv zeta.
  destruct (parseInstruction (instruction data)) as [p|] eqn:Ep.
  - right. rewrite (parsePaymentInstructionAt_parsed M now data p Ep).
    pose proof (processParsed_spec M now (accounts data) p
                  (parse_executeBy _ _ Ep)) as H.
    destruct (firstFailureIndex validationChain (accounts data) p)
      as [k|] eqn:Ek.
    + left. exists p, k. repeat split; assumption.
    + right. destruct H as (d & c & a & Hd & Hc & Ha & Hr & H).
      exists p, d, c, a. repeat split; try assumption; apply Hr.
  - left. split; [reflexivity|].
    unfold parsePaymentInstructionAt. rewrite Ep. reflexivity.
Qed.

Lemma finalResponse_status (M : Messages) (now : Z) (accs : list Account)
  (p : ParsedInstruction) (d c : Account) (a : Z) :
  r_status (finalResponse M now accs p d c a) <> failed.
Proof.
  unfold finalResponse.
  destruct (option_map _ _) as [[]|]; discriminate.
Qed.

(** X8. The endpoint answers HTTP 200 exactly when the instruction scans
    and passes the eleven checks, whether the transfer is executed or left
    pending, and HTTP 400 in every other case. *)
Theorem httpStatus_of_request (M : Messages) (now : Z) (data : ServiceData) :
  httpStatus (parsePaymentInstructionAt M now data)
  = match parseInstruction (instruction data) with
    | Some p =>
        match firstFailure validationChain (accounts data) p with
        | None => 200
        | Some _ => 400
        end
    | None => 400
    end.
Proof.
  destruct (response_cases M now data)
    as [[Ep ->] | [(p & k & Ep & Ek & ->) | (p & d & c & a & Ep & Ek & _ & _ & _ & _ & ->)]];
    rewrite Ep; try reflexivity;
    rewrite firstFailure_code, Ek; cbn [option_map]; [reflexivity|].
  unfold httpStatus.
  pose proof (finalResponse_status M now (accounts data) p d c a) as H.
  destruct (r_status _); [reflexivity | reflexivity | contradiction H; reflexivity].
Qed.

(** X9. No overdraft: when every balance of the request is at most
    [2^52] in absolute value, in a [successful] response the snapshot of
    the debit account has a balance that is not negative and is lower
    than its balance before, and every other snapshot is of the credit
    account and has a balance higher than its balance before. *)
Theorem no_overdraft (M : Messages) (now : Z) (data : ServiceData)
  (s : AccountSnapshot) :
  safeBalances (accounts data) = true ->
  let r := parsePaymentInstructionAt M now data in
  r_status r = successful -> In s (r_accounts r) ->
  exists n b,
    snap_balance s = Num n /\ snap_balance_before s = Num b
    /\ (r_debit_account r = Some (snap_id s) -> (0 <= n < b)%Z)
    /\ (r_debit_account r <> Some (snap_id s) ->
        r_credit_account r = Some (snap_id s) /\ (b < n)%Z).
Proof.
  intros Hsafe. cbv zeta.
  destruct (response_cases M now data)
    as [[Ep ->] | [(p & k & Ep & Ek & ->) | (p & d & c & a & Ep & Ek & Hd & Hc & Ha & Hr & ->)]];
    try discriminate.
  destruct (findAccount_some _ _ _ Hd) as [Hind _].
  destruct (findAccount_some _ _ _ Hc) as [Hinc _].
  destruct (safe_transfer _ d c a Hsafe Hind Hinc Hr) as [Ed Ec].
  unfold finalResponse. rewrite Ed, Ec.
  destruct (option_map _ _) as [[]|]; try discriminate; intros _ Hin;
    cbn [r_accounts response r_debit_account r_credit_account] in *;
    apply In_transactionAccountsFinal in Hin;
    destruct Hin as [(Hid & Hb & Hbb) | (Hnd & Hid & Hb & Hbb)];
    eexists; eexists; (split; [exact Hb|]); (split; [exact Hbb|]);
    split; intros H; try lia;
    try (contradiction H; rewrite Hid; reflexivity);
    try (injection H as H; symmetry in H; contradiction);
    (split; [rewrite Hid; reflexivity | lia]).
Qed.

Lemma no_overdraft_witness :
  let r :=
    parsePaymentInstructionAt sampleMessages (midnight 2026 11 1)
      (mkServiceData sampleAccounts
         (js "DEBIT 30 USD FROM ACCOUNT a FOR CREDIT TO ACCOUNT b")) in
  let s := mkSnapshot (js "a") (Num 200) (Num 230) (js "USD") in
  exists n b,
    snap_balance s = Num n /\ snap_balance_before s = Num b
    /\ (r_debit_account r = Some (snap_id s) -> (0 <= n < b)%Z)
    /\ (r_debit_account r <> Some (snap_id s) ->
        r_credit_account r = Some (snap_id s) /\ (b < n)%Z).
Proof.
  exact (no_overdraft sampleMessages (midnight 2026 11 1)
           (mkServiceData sampleAccounts
              (js "DEBIT 30 USD FROM ACCOUNT a FOR CREDIT TO ACCOUNT b"))
           (mkSnapshot (js "a") (Num 200) (Num 230) (js "USD"))
           eq_refl eq_refl (or_introl eq_refl)).
Defined.

(** With distinct ids, one account answers to an id. *)
Lemma filter_id_unique (accs : list Account) (k : str) (acc : Account) :
  NoDup (map acc_id accs) -> findAccount accs k = Some acc ->
  filter (fun a => str_eqb (acc_id a) k) accs = [acc].
Proof.
  unfold findAccount.
  induction accs as [|x accs IH]; intros Hnd H; [discriminate H|].
  cbn [map] in Hnd. inversion Hnd as [|? ? Hx Hnd']; subst.
  cbn [find filter] in *.
  destruct (str_eqb (acc_id x) k) eqn:E.
  - injection H as <-. f_equal.
    apply str_eqb_eq in E.
    clear IH Hnd Hnd'. induction accs as [|y accs IH]; [reflexivity|].
    cbn [filter map] in *.
    destruct (str_eqb (acc_id y) k) eqn:Ey.
    + apply str_eqb_eq in Ey. contradiction Hx. left. congruence.
    + apply IH. intros Hin. apply Hx. right. exact Hin.
  - apply IH; assumption.
Qed.

Lemma filter_either_length {A} (f g : A -> bool) (l : list A) :
  (forall x, f x = true -> g x = true -> False) ->
  length (filter (fun x => f x || g x) l)
  = length (filter f l) + length (filter g l).
Proof.
  intros Hfg. induction l as [|x l IH]; [reflexivity|].
  cbn [filter]. destruct (f x) eqn:Ef, (g x) eqn:Eg; cbn [orb length].
  - destruct (Hfg x Ef Eg).
  - rewrite IH. reflexivity.
  - rewrite IH. lia.
  - exact IH.
Qed.

Lemma filter_isParty_length (accs : list Account) (p : ParsedInstruction)
  (d c : Account) :
  NoDup (map acc_id accs) ->
  p_debitAccount p <> p_creditAccount p ->
  findAccount accs (p_debitAccount p) = Some d ->
  findAccount accs (p_creditAccount p) = Some c ->
  length (filter (isParty p) accs) = 2.
Proof.
  intros Hnd Hne Hd Hc. unfold isParty.
  rewrite (filter_either_length
             (fun acc => str_eqb (acc_id acc) (p_debitAccount p))
             (fun acc => str_eqb (acc_id acc) (p_creditAccount p))).
  - rewrite (filter_id_unique accs _ d Hnd Hd),
      (filter_id_unique accs _ c Hnd Hc). reflexivity.
  - intros x E1 E2. apply str_eqb_eq in E1, E2. congruence.
Qed.

Lemma NoDup_map_filter {A B} (f : A -> B) (g : A -> bool) (l : list A) :
  NoDup (map f l) -> NoDup (map f (filter g l)).
Proof.
  induction l as [|x l IH]; intros H; [exact H|].
  cbn [map] in H. inversion H as [|? ? Hx Hl]; subst.
  cbn [filter]. destruct (g x); [|exact (IH Hl)].
  cbn [map]. constructor; [|exact (IH Hl)].
  intros Hin. apply Hx. apply in_map_iff in Hin as (y & Ey & Hy).
  apply filter_In in Hy as [Hy _]. apply in_map_iff. exists y. tauto.
Qed.

(** The checks before the first one that fails pass. *)
Lemma firstFailureIndex_passed (chain : list (Check * StatusCode))
  (accs : list Account) (p : ParsedInstruction) (k j : nat)
  (check : Check) (failure : StatusCode) :
  firstFailureIndex chain accs p = Some k ->
  S j < k -> nth_error chain j = Some (check, failure) ->
  check accs p = true.
Proof.
  revert k j. induction chain as [|[ch f] chain IH]; intros k j H Hj Hn.
  - discriminate H.
  - cbn [firstFailureIndex] in H.
    destruct (ch accs p) eqn:E.
    + destruct (firstFailureIndex chain accs p) as [k'|] eqn:Ek;
        [|discriminate H].
      injection H as <-.
      destruct j as [|j].
      * injection Hn as <- _. exact E.
      * apply (IH k' j eq_refl); [lia | exact Hn].
    + injection H as <-. lia.
Qed.

(** X10. When the accounts of the request have distinct ids, a response
    with one of the codes CU01, AC01, AP00 and AP02 lists exactly two
    snapshots, with distinct ids. *)
Theorem two_snapshots (M : Messages) (now : Z) (data : ServiceData) :
  NoDup (map acc_id (accounts data)) ->
  let r := parsePaymentInstructionAt M now data in
  In (r_status_code r) [CU01; AC01; AP00; AP02] ->
  length (r_accounts r) = 2 /\ NoDup (map snap_id (r_accounts r)).
Proof.
  intros Hnd. cbv zeta.
  destruct (response_cases M now data)
    as [[Ep ->] | [(p & k & Ep & Ek & ->) | (p & d & c & a & Ep & Ek & Hd & Hc & Ha & Hr & ->)]].
  - cbn. intuition discriminate.
  - cbn [r_status_code r_accounts response]. intros Hcode.
    assert (Hk : k = 9 \/ k = 10 \/ k = 11).
    { pose proof (firstFailureIndex_range _ _ _ Ek) as Hrange.
      cbn in Hrange.
      repeat (destruct Hrange as [<-|Hrange]); try contradiction; try lia;
        cbn in Hcode; intuition discriminate. }
    assert (H6 : accountsDiffer (accounts data) p = true)
      by (apply (firstFailureIndex_passed validationChain _ _ k 5 _ AC02 Ek);
          [lia | reflexivity]).
    assert (H7 : debitExists (accounts data) p = true)
      by (apply (firstFailureIndex_passed validationChain _ _ k 6 _ AC03 Ek);
          [lia | reflexivity]).
    assert (H8 : creditExists (accounts data) p = true)
      by (apply (firstFailureIndex_passed validationChain _ _ k 7 _ AC03 Ek);
          [lia | reflexivity]).
    unfold accountsDiffer, debitExists, creditExists in H6, H7, H8.
    destruct (findAccount (accounts data) (p_debitAccount p)) as [d|] eqn:Hd;
      [|discriminate H7].
    destruct (findAccount (accounts data) (p_creditAccount p)) as [c|] eqn:Hc;
      [|discriminate H8].
    apply negb_true_iff in H6.
    assert (Hne : p_debitAccount p <> p_creditAccount p)
      by (intros E; rewrite E, str_eqb_refl in H6; discriminate H6).
    assert (Es : failureSnapshots k (accounts data) p
                 = map originalBalance (filter (isParty p) (accounts data))).
    { unfold failureSnapshots.
      destruct Hk as [-> | [-> | ->]]; cbn [Nat.leb];
        apply transactionAccountsUnchanged_filter. }
    rewrite Es, length_map, map_map. cbn [originalBalance snap_id].
    split; [exact (filter_isParty_length _ p d c Hnd Hne Hd Hc)|].
    apply NoDup_map_filter. exact Hnd.
  - intros _.
    assert (Hne := passed_accountsDiffer _ _ Ek).
    assert (Ei : forall nd nc,
               map snap_id
                 (transactionAccountsFinal (accounts data) (p_debitAccount p)
                    (p_creditAccount p) d c nd nc)
               = map acc_id (filter (isParty p) (accounts data)))
      by (intros; apply transactionAccountsFinal_ids).
    assert (G : forall nd nc,
               length (transactionAccountsFinal (accounts data)
                         (p_debitAccount p) (p_creditAccount p) d c nd nc)
               = 2
               /\ NoDup (map snap_id
                           (transactionAccountsFinal (accounts data)
                              (p_debitAccount p) (p_creditAccount p)
                              d c nd nc))).
    { intros nd nc. split.
      - rewrite <- (length_map snap_id), Ei, length_map.
        exact (filter_isParty_length _ p d c Hnd Hne Hd Hc).
      - rewrite Ei. apply NoDup_map_filter. exact Hnd. }
    unfold finalResponse.
    destruct (option_map _ _) as [[]|]; cbn [r_accounts response]; apply G.
Qed.

Lemma two_snapshots_witness :
  let r :=
    parsePaymentInstructionAt sampleMessages (midnight 2026 11 1)
      (mkServiceData threeAccounts
         (js "DEBIT 30 USD FROM ACCOUNT a FOR CREDIT TO ACCOUNT b")) in
  length (r_accounts r) = 2 /\ NoDup (map snap_id (r_accounts r)).
Proof.
  refine (two_snapshots sampleMessages (midnight 2026 11 1)
            (mkServiceData threeAccounts
               (js "DEBIT 30 USD FROM ACCOUNT a FOR CREDIT TO ACCOUNT b"))
            _ _).
  - repeat constructor; cbn; intuition discriminate.
  - vm_compute. tauto.
Defined.

Lemma parse_amount_nonEmpty (s : str) (p : ParsedInstruction) :
  parseInstruction s = Some p -> nonEmpty (p_amount p) = true.
Proof.
  rewrite parseInstruction_scan. cbv zeta.
  destruct (starts_at_zero _);
    [|destruct (starts_at_zero _); [|discriminate]];
    (destruct (scanBody _ _ _ _ _) as [[[[[a c] f] s'] e]|] eqn:E;
       [|discriminate]);
    simpl; intros H; injection H as <-; simpl;
    apply (scanBody_shape _ _ _ _ _ _ _ _ _ _ E).
Qed.

(** X11. A request that passes every check and carries a date is left
    [pending] exactly while the clock is before midnight UTC of that date,
    and is executed ([successful]) from that midnight on. *)
Theorem pending_until_midnight (M : Messages) (now : Z) (data : ServiceData)
  (p : ParsedInstruction) (date : str) :
  (0 <= now <= 8640000000000000)%Z ->
  parseInstruction (instruction data) = Some p ->
  firstFailure validationChain (accounts data) p = None ->
  p_executeBy p = Some date ->
  let r := parsePaymentInstructionAt M now data in
  let '(y, m, d) := dateNumbers date in
  (r_status r = pending <-> (now < midnight y m d)%Z)
  /\ (r_status r = successful <-> (midnight y m d <= now)%Z).
Proof.
  intros Hnow Ep Hpass Hdate. cbv zeta.
  apply firstFailure_none in Hpass.
  assert (Hvalid : isValidDate date = true).
  { pose proof (firstFailureIndex_none _ _ _ Hpass dateFormat DT01) as H.
    unfold dateFormat in H. rewrite Hdate in H. apply H.
    cbn. tauto. }
  rewrite (parsePaymentInstructionAt_parsed M now data p Ep).
  pose proof (processParsed_spec M now (accounts data) p
                (parse_executeBy _ _ Ep)) as H.
  rewrite Hpass in H. destruct H as (d' & c & a & _ & _ & _ & _ & ->).
  unfold finalResponse. rewrite Hdate. cbn [option_map].
  pose proof (compareDateWithToday_eq now date Hnow Hvalid) as H.
  destruct (dateNumbers date) as [[y m] d]. rewrite H.
  assert (Hms : (0 < msPerDay)%Z) by reflexivity.
  destruct (Z.leb_spec (midnight y m d + msPerDay) now);
    [|destruct (Z.leb_spec (midnight y m d) now)];
    cbn [r_status response];
    repeat split; intros; try discriminate; try reflexivity; lia.
Qed.

Lemma pending_until_midnight_witness :
  let r :=
    parsePaymentInstructionAt sampleMessages (midnight 2026 11 1)
      (mkServiceData
         [mkAccount (js "acc-001") 1000 (js "NGN");
          mkAccount (js "acc-002") 500 (js "NGN")]
         (js "CREDIT 300 NGN TO ACCOUNT acc-002 FOR DEBIT FROM ACCOUNT acc-001 ON 2026-12-31")) in
  (r_status r = pending <-> (midnight 2026 11 1 < midnight 2026 12 31)%Z)
  /\ (r_status r = successful
      <-> (midnight 2026 12 31 <= midnight 2026 11 1)%Z).
Proof.
  exact (pending_until_midnight sampleMessages (midnight 2026 11 1)
           (mkServiceData
              [mkAccount (js "acc-001") 1000 (js "NGN");
               mkAccount (js "acc-002") 500 (js "NGN")]
              (js "CREDIT 300 NGN TO ACCOUNT acc-002 FOR DEBIT FROM ACCOUNT acc-001 ON 2026-12-31"))
           (mkParsed CREDIT (js "300") (js "NGN") (js "acc-001")
              (js "acc-002") (Some (js "2026-12-31")))
           (js "2026-12-31")
           ltac:(vm_compute; split; discriminate)
           eq_refl eq_refl eq_refl).
Defined.

(** X12. The response to an instruction that scans echoes the scanned
    type, currency, account ids and date, and its amount is always
    [parseInt] of the scanned amount: the [null] the AM01 branch provides
    for an empty amount is never answered. *)
Theorem response_echoes_scan (M : Messages) (now : Z) (data : ServiceData)
  (p : ParsedInstruction) :
  parseInstruction (instruction data) = Some p ->
  let r := parsePaymentInstructionAt M now data in
  r_type r = Some (p_type p)
  /\ r_amount r = Some (parseInt (p_amount p))
  /\ r_currency r = Some (p_currency p)
  /\ r_debit_account r = Some (p_debitAccount p)
  /\ r_credit_account r = Some (p_creditAccount p)
  /\ r_execute_by r = p_executeBy p.
Proof.
  intros Ep. cbv zeta.
  pose proof (parse_amount_nonEmpty _ _ Ep) as Hne.
  destruct (response_cases M now data)
    as [[Ep' _] | [(p' & k & Ep' & Ek & ->) | (p' & d & c & a & Ep' & Ek & Hd & Hc & Ha & Hr & ->)]];
    rewrite Ep in Ep'; [discriminate Ep' | |]; injection Ep' as <-.
  - unfold failureAmount. rewrite Hne, andb_false_r.
    repeat split; reflexivity.
  - unfold finalResponse. rewrite <- Ha.
    destruct (option_map _ _) as [[]|]; repeat split; reflexivity.
Qed.

Lemma response_echoes_scan_witness :
  let r :=
    parsePaymentInstructionAt sampleMessages (midnight 2026 11 1)
      (mkServiceData sampleAccounts
         (js "DEBIT abc USD FROM ACCOUNT a FOR CREDIT TO ACCOUNT b")) in
  r_type r = Some DEBIT
  /\ r_amount r = Some (parseInt (js "abc"))
  /\ r_currency r = Some (js "USD")
  /\ r_debit_account r = Some (js "a")
  /\ r_credit_account r = Some (js "b")
  /\ r_execute_by r = None.
Proof.
  exact (response_echoes_scan sampleMessages (midnight 2026 11 1)
           (mkServiceData sampleAccounts
              (js "DEBIT abc USD FROM ACCOUNT a FOR CREDIT TO ACCOUNT b"))
           (mkParsed DEBIT (js "abc") (js "USD") (js "a") (js "b") None)
           eq_refl).
Defined.
Lemma findAccount_In (accs : list Account) (acc : Account) :
  NoDup (map acc_id accs) -> In acc accs ->
  findAccount accs (acc_id acc) = Some acc.
Proof.
  unfold findAccount.
  induction accs as [|x accs IH]; intros Hnd Hin; [destruct Hin|].
  cbn [map] in Hnd. inversion Hnd as [|? ? Hx Hnd']; subst.
  cbn [find]. destruct Hin as [->|Hin].
  - rewrite str_eqb_refl. reflexivity.
  - destruct (str_eqb (acc_id x) (acc_id acc)) eqn:E.
    + apply str_eqb_eq in E. contradiction Hx. rewrite E.
      apply in_map. exact Hin.
    + exact (IH Hnd' Hin).
Qed.

(** With distinct ids, [find] does not depend on the order of the
    accounts. *)
Lemma findAccount_perm (accs1 accs2 : list Account) (k : str) :
  Permutation accs1 accs2 -> NoDup (map acc_id accs1) ->
  findAccount accs1 k = findAccount accs2 k.
Proof.
  intros Hp Hnd.
  assert (Hnd2 : NoDup (map acc_id accs2))
    by (eapply Permutation_NoDup; [apply Permutation_map; exact Hp | exact Hnd]).
  destruct (findAccount accs1 k) as [a|] eqn:E1.
  - apply findAccount_some in E1 as [Hin <-].
    symmetry. apply findAccount_In; [exact Hnd2|].
    eapply Permutation_in; eassumption.
  - destruct (findAccount accs2 k) as [b|] eqn:E2; [|reflexivity].
    apply findAccount_some in E2 as [Hin <-].
    rewrite (findAccount_In accs1 b Hnd) in E1; [discriminate E1|].
    eapply Permutation_in; [apply Permutation_sym|]; eassumption.
Qed.

Lemma firstFailureIndex_ext (chain : list (Check * StatusCode))
  (accs1 accs2 : list Account) (p : ParsedInstruction) :
  (forall check failure, In (check, failure) chain ->
     check accs1 p = check accs2 p) ->
  firstFailureIndex chain accs1 p = firstFailureIndex chain accs2 p.
Proof.
  induction chain as [|[ch f] chain IH]; intros H; [reflexivity|].
  cbn [firstFailureIndex].
  rewrite (H ch f (or_introl eq_refl)), IH; [reflexivity|].
  intros check failure Hin. apply (H check failure). right. exact Hin.
Qed.

Lemma validationChain_perm (accs1 accs2 : list Account)
  (p : ParsedInstruction) :
  Permutation accs1 accs2 -> NoDup (map acc_id accs1) ->
  firstFailureIndex validationChain accs1 p
  = firstFailureIndex validationChain accs2 p.
Proof.
  intros Hp Hnd. apply firstFailureIndex_ext.
  intros check failure Hin. cbn in Hin.
  repeat (destruct Hin as [Hin|Hin];
          [injection Hin as <- _;
           unfold debitExists, creditExists, accountCurrenciesEqual,
             instructionCurrencyEqual, sufficientFunds;
           rewrite ?(findAccount_perm accs1 accs2 _ Hp Hnd); reflexivity|]).
  destruct Hin.
Qed.

(** X13. When the accounts of the request have distinct ids, their order
    does not matter: two requests with the same instruction and the same
    accounts in another order get responses with the same fields, and
    with the same snapshots up to their order. *)
Theorem account_order_irrelevant (M : Messages) (now : Z) (instr : str)
  (accs1 accs2 : list Account) :
  Permutation accs1 accs2 -> NoDup (map acc_id accs1) ->
  let r1 := parsePaymentInstructionAt M now (mkServiceData accs1 instr) in
  let r2 := parsePaymentInstructionAt M now (mkServiceData accs2 instr) in
  r_type r1 = r_type r2 /\ r_amount r1 = r_amount r2
  /\ r_currency r1 = r_currency r2
  /\ r_debit_account r1 = r_debit_account r2
  /\ r_credit_account r1 = r_credit_account r2
  /\ r_execute_by r1 = r_execute_by r2
  /\ r_status r1 = r_status r2
  /\ r_status_reason r1 = r_status_reason r2
  /\ r_status_code r1 = r_status_code r2
  /\ Permutation (r_accounts r1) (r_accounts r2).
Proof.
  intros Hp Hnd. cbv zeta. unfold parsePaymentInstructionAt.
  cbn [instruction accounts].
  destruct (parseInstruction instr) as [p|] eqn:Ep;
    [|repeat split; reflexivity || apply Permutation_refl].
  pose proof (processParsed_spec M now accs1 p (parse_executeBy _ _ Ep)) as H1.
  pose proof (processParsed_spec M now accs2 p (parse_executeBy _ _ Ep)) as H2.
  rewrite <- (validationChain_perm accs1 accs2 p Hp Hnd) in H2.
  destruct (firstFailureIndex validationChain accs1 p) as [k|].
  - rewrite H1, H2. cbn [response r_type r_amount r_currency r_debit_account
      r_credit_account r_execute_by r_status r_status_reason r_status_code
      r_accounts].
    repeat (split; [reflexivity|]).
    split; [|split; [reflexivity|]].
    + unfold failureReason.
      rewrite (findAccount_perm accs1 accs2 _ Hp Hnd). reflexivity.
    + unfold failureSnapshots, accountsWithOriginalBalances,
        transactionAccountsUnchanged.
      destruct (k <=? 8)%nat;
        [apply Permutation_map | apply Permutation_flat_map]; exact Hp.
  - destruct H1 as (d & c & a & Hd & Hc & Ha & _ & ->).
    destruct H2 as (d2 & c2 & a2 & Hd2 & Hc2 & Ha2 & _ & ->).
    rewrite <- (findAccount_perm accs1 accs2 _ Hp Hnd), Hd in Hd2.
    rewrite <- (findAccount_perm accs1 accs2 _ Hp Hnd), Hc in Hc2.
    rewrite Ha in Ha2.
    injection Hd2 as <-. injection Hc2 as <-. injection Ha2 as <-.
    unfold finalResponse, transactionAccountsFinal.
    destruct (option_map _ _) as [[]|];
      cbn [response r_type r_amount r_currency r_debit_account
        r_credit_account r_execute_by r_status r_status_reason r_status_code
        r_accounts];
      repeat (split; [reflexivity|]);
      apply Permutation_flat_map; exact Hp.
Qed.

Lemma account_order_irrelevant_witness :
  let instr := js "DEBIT 30 USD FROM ACCOUNT a FOR CREDIT TO ACCOUNT b" in
  let accs1 := sampleAccounts in
  let accs2 :=
    [mkAccount (js "b") 300 (js "USD"); mkAccount (js "a") 230 (js "USD")] in
  let r1 :=
    parsePaymentInstructionAt sampleMessages (midnight 2026 11 1)
      (mkServiceData accs1 instr) in
  let r2 :=
    parsePaymentInstructionAt sampleMessages (midnight 2026 11 1)
      (mkServiceData accs2 instr) in
  r_type r1 = r_type r2 /\ r_amount r1 = r_amount r2
  /\ r_currency r1 = r_currency r2
  /\ r_debit_account r1 = r_debit_account r2
  /\ r_credit_account r1 = r_credit_account r2
  /\ r_execute_by r1 = r_execute_by r2
  /\ r_status r1 = r_status r2
  /\ r_status_reason r1 = r_status_reason r2
  /\ r_status_code r1 = r_status_code r2
  /\ Permutation (r_accounts r1) (r_accounts r2).
Proof.
  refine (account_order_irrelevant sampleMessages (midnight 2026 11 1)
            (js "DEBIT 30 USD FROM ACCOUNT a FOR CREDIT TO ACCOUNT b")
            sampleAccounts
            [mkAccount (js "b") 300 (js "USD");
             mkAccount (js "a") 230 (js "USD")] _ _).
  - apply perm_swap.
  - repeat constructor; cbn; intuition discriminate.
Defined.

(** ** The scanner off the grammar *)

Lemma trimStart_before (u v : str) :
  startsClean v = true -> exists w, trimStart (u ++ v) = w ++ v.
Proof.
  intros Hv. induction u as [|c u IH].
  - exists []. apply trimStart_clean. exact Hv.
  - unfold trimStart in *. cbn [app dropWhile].
    destruct (is_ws c); [exact IH|]. exists (c :: u). reflexivity.
Qed.

(** [trim] keeps a prefix that begins and ends with something else than
    white space. *)
Lemma trim_keeps_prefix (A rest : str) :
  startsClean A = true -> endsClean A = true ->
  exists rest', trim (A ++ rest) = A ++ rest'.
Proof.
  intros Hs He. unfold trim.
  rewrite (trimStart_clean (A ++ rest)) by (apply startsClean_app; exact Hs).
  rewrite rev_app_distr.
  destruct (trimStart_before (rev rest) (rev A) He) as [w ->].
  exists (rev w). rewrite rev_app_distr, rev_involutive. reflexivity.
Qed.

Lemma keyword_clean (K kw : str) :
  toLowerCase K = toLowerCase kw -> token (toLowerCase kw) = true ->
  startsClean K = true /\ endsClean K = true.
Proof.
  intros E H. rewrite <- E, token_lower in H.
  split; [apply token_starts | apply token_ends]; exact H.
Qed.

(** X14. An instruction with a single word between its leading keyword
    and the keyword that follows the amount and the currency ([FROM] after
    [DEBIT], [TO] after [CREDIT]) does not scan, whatever comes after that
    keyword: with the currency missing the scanner returns [null]. *)
Theorem missing_currency_unparseable (t : InstructionType)
  (K0 KA g0 amt g1 rest : str) :
  toLowerCase K0 = toLowerCase (keywordAt t 0) ->
  toLowerCase KA = toLowerCase (keywordAt t 1) ->
  isGap g0 = true -> isGap g1 = true ->
  token amt = true -> mentions amt (keywordAt t 1) = false ->
  parseInstruction (K0 ++ g0 ++ amt ++ g1 ++ KA ++ rest) = None.
Proof.
  intros E0 EA G0 G1 Hamt Hm.
  assert (T0 : token (toLowerCase (keywordAt t 0)) = true)
    by (destruct t; reflexivity).
  assert (TA : token (toLowerCase (keywordAt t 1)) = true)
    by (destruct t; reflexivity).
  destruct (keyword_clean K0 _ E0 T0) as [Hs0 _].
  destruct (keyword_clean KA _ EA TA) as [_ HeA].
  destruct (trim_keeps_prefix (K0 ++ g0 ++ amt ++ g1 ++ KA) rest)
    as [rest' Etrim].
  { apply startsClean_app. exact Hs0. }
  { rewrite !app_assoc. apply endsClean_app. exact HeA. }
  rewrite parseInstruction_scan. cbv zeta.
  replace (K0 ++ g0 ++ amt ++ g1 ++ KA ++ rest)
    with ((K0 ++ g0 ++ amt ++ g1 ++ KA) ++ rest)
    by (rewrite <- !app_assoc; reflexivity).
  rewrite Etrim.
  replace ((K0 ++ g0 ++ amt ++ g1 ++ KA) ++ rest')
    with (K0 ++ g0 ++ amt ++ g1 ++ KA ++ rest')
    by (rewrite <- !app_assoc; reflexivity).
  set (T := K0 ++ g0 ++ amt ++ g1 ++ KA ++ rest').
  assert (Hat : at_pos T (length (keywordAt t 0))
                  (g0 ++ amt ++ g1 ++ KA ++ rest')).
  { exists K0. split; [reflexivity|]. apply same_lower_length. exact E0. }
  assert (Hfind : find_sub (toLowerCase (keywordAt t 1)) (toLowerCase amt)
                  = None)
    by (apply mentions_false; rewrite Hm; reflexivity).
  destruct (stage_token T amt KA rest' (keywordAt t 1) g0 g1 _
              Hat EA TA G0 G1 Hfind) as (Hi & _ & Hsub).
  assert (Hscan : forall kB kC,
             scanBody (keywordAt t 0) (keywordAt t 1) kB kC T = None).
  { intros kB kC. unfold scanBody. rewrite Hi.
    rewrite extractBetween_some, Hsub.
    rewrite (trim_ctx g0 amt g1) by
      (first [apply isGap_ws; assumption | apply token_starts; assumption
             | apply token_ends; assumption]).
    rewrite (split_last amt) by (apply token_no_space; exact Hamt).
    cbn [filter]. unfold token in Hamt.
    apply andb_true_iff in Hamt as [-> _]. reflexivity. }
  assert (Hst : starts_at_zero (findKeywordIndex T (keywordAt t 0) 0) = true)
    by (apply starts_with_keyword; exact E0).
  destruct t.
  - change (js "DEBIT") with (keywordAt DEBIT 0).
    change (js "FROM") with (keywordAt DEBIT 1).
    rewrite Hst, Hscan. reflexivity.
  - assert (Hno : starts_at_zero (findKeywordIndex T (js "DEBIT") 0) = false)
      by (apply starts_with_other; rewrite E0; reflexivity).
    rewrite Hno.
    change (js "CREDIT") with (keywordAt CREDIT 0).
    change (js "TO") with (keywordAt CREDIT 1).
    rewrite Hst, Hscan. reflexivity.
Qed.

Lemma missing_currency_unparseable_witness :
  parseInstruction
    (js "debit" ++ js " " ++ js "30" ++ js "  " ++ js "From"
     ++ js " ACCOUNT a FOR CREDIT TO ACCOUNT b")
  = None.
Proof.
  exact (missing_currency_unparseable DEBIT (js "debit") (js "From")
           (js " ") (js "30") (js "  ")
           (js " ACCOUNT a FOR CREDIT TO ACCOUNT b")
           eq_refl eq_refl eq_refl eq_refl eq_refl eq_refl).
Defined.

(** ** What an answer tells *)

Lemma includes_In (l : list str) (x : str) : includes l x = true -> In x l.
Proof.
  unfold includes. intros H. apply existsb_exists in H as (y & Hy & E).
  apply str_eqb_eq in E. subst y. exact Hy.
Qed.

(** X15. What HTTP 200 guarantees: when the response is not [failed], the
    instruction scans, its amount is a run of digits with a positive
    value, the two account ids are well formed and different, a date, if
    there is one, is a day of the calendar, the currency is one of NGN,
    USD, GBP and GHS and is the currency, in capitals, of both accounts,
    both accounts are in the request and the debit account holds the
    amount. *)
Theorem success_guarantees (M : Messages) (now : Z) (data : ServiceData) :
  let r := parsePaymentInstructionAt M now data in
  r_status r <> failed ->
  exists p d c a,
    parseInstruction (instruction data) = Some p
    /\ forallb is_digit (p_amount p) = true
    /\ parseInt (p_amount p) = Num a /\ (0 < a)%Z
    /\ isValidAccountId (p_debitAccount p) = true
    /\ isValidAccountId (p_creditAccount p) = true
    /\ p_debitAccount p <> p_creditAccount p
    /\ (forall date, p_executeBy p = Some date -> isValidDate date = true)
    /\ In (p_currency p) SUPPORTED_CURRENCIES
    /\ findAccount (accounts data) (p_debitAccount p) = Some d
    /\ findAccount (accounts data) (p_creditAccount p) = Some c
    /\ toUpperCase (acc_currency d) = p_currency p
    /\ toUpperCase (acc_currency c) = p_currency p
    /\ (a <= acc_balance d)%Z.
Proof.
  cbv zeta.
  destruct (response_cases M now data)
    as [[Ep ->] | [(p & k & Ep & Ek & ->) | (p & d & c & a & Ep & Ek & Hd & Hc & Ha & Hr & ->)]];
    [intros H; contradiction H; reflexivity
    | intros H; contradiction H; reflexivity |].
  intros _. exists p, d, c, a.
  pose proof (firstFailureIndex_none _ _ _ Ek) as Hall.
  assert (H1 : amountFormat (accounts data) p = true)
    by (apply (Hall _ AM01); cbn; tauto).
  assert (H2 : debitIdFormat (accounts data) p = true)
    by (apply (Hall _ AC04); cbn; tauto).
  assert (H3 : creditIdFormat (accounts data) p = true)
    by (apply (Hall _ AC04); cbn; tauto).
  assert (H4 : dateFormat (accounts data) p = true)
    by (apply (Hall _ DT01); cbn; tauto).
  assert (H5 : currencySupported (accounts data) p = true)
    by (apply (Hall _ CU02); cbn; tauto).
  assert (H9 : accountCurrenciesEqual (accounts data) p = true)
    by (apply (Hall _ CU01); cbn; tauto).
  assert (H10 : instructionCurrencyEqual (accounts data) p = true)
    by (apply (Hall _ CU01); cbn; tauto).
  unfold amountFormat in H1. unfold debitIdFormat in H2.
  unfold creditIdFormat in H3. unfold dateFormat in H4.
  unfold currencySupported in H5.
  unfold accountCurrenciesEqual in H9. unfold instructionCurrencyEqual in H10.
  rewrite Hd, Hc in H9. rewrite Hd in H10.
  apply str_eqb_eq in H9, H10.
  rewrite isPositiveInteger_eq, !andb_true_iff in H1.
  destruct H1 as [[_ Hdig] _].
  repeat (split; [first [assumption | lia | apply Hr]|]).
  split; [exact (passed_accountsDiffer _ _ Ek)|].
  split; [intros date Hdate; rewrite Hdate in H4; exact H4|].
  split; [apply includes_In; exact H5|].
  repeat (split; [first [assumption | congruence]|]).
  apply Hr.
Qed.

Lemma success_guarantees_witness :
  exists p d c a,
    parseInstruction (js "DEBIT 30 USD FROM ACCOUNT a FOR CREDIT TO ACCOUNT b")
    = Some p
    /\ forallb is_digit (p_amount p) = true
    /\ parseInt (p_amount p) = Num a /\ (0 < a)%Z
    /\ isValidAccountId (p_debitAccount p) = true
    /\ isValidAccountId (p_creditAccount p) = true
    /\ p_debitAccount p <> p_creditAccount p
    /\ (forall date, p_executeBy p = Some date -> isValidDate date = true)
    /\ In (p_currency p) SUPPORTED_CURRENCIES
    /\ findAccount sampleAccounts (p_debitAccount p) = Some d
    /\ findAccount sampleAccounts (p_creditAccount p) = Some c
    /\ toUpperCase (acc_currency d) = p_currency p
    /\ toUpperCase (acc_currency c) = p_currency p
    /\ (a <= acc_balance d)%Z.
Proof.
  exact (success_guarantees sampleMessages (midnight 2026 11 1)
           (mkServiceData sampleAccounts
              (js "DEBIT 30 USD FROM ACCOUNT a FOR CREDIT TO ACCOUNT b"))
           ltac:(vm_compute; discriminate)).
Defined.

(** X16. The clock decides between [pending] and [successful] only, and
    only forwards: a request that fails at one time fails at every time,
    and a request executed at one time is executed at every later time. *)
Theorem executed_stays_executed (M : Messages) (now now' : Z)
  (data : ServiceData) :
  (0 <= now <= now')%Z -> (now' <= 8640000000000000)%Z ->
  let r := parsePaymentInstructionAt M now data in
  let r' := parsePaymentInstructionAt M now' data in
  (r_status r = failed <-> r_status r' = failed)
  /\ (r_status r = successful -> r_status r' = successful).
Proof.
  intros Hnow Hmax. cbv zeta. unfold parsePaymentInstructionAt.
  destruct (parseInstruction (instruction data)) as [p|] eqn:Ep;
    [|split; [tauto | intros H; exact H]].
  pose proof (processParsed_spec M now (accounts data) p
                (parse_executeBy _ _ Ep)) as H1.
  pose proof (processParsed_spec M now' (accounts data) p
                (parse_executeBy _ _ Ep)) as H2.
  destruct (firstFailureIndex validationChain (accounts data) p)
    as [k|] eqn:Ek.
  - rewrite H1, H2. cbn [r_status response]. split; [tauto | discriminate].
  - destruct H1 as (d & c & a & _ & _ & _ & _ & ->).
    destruct H2 as (d2 & c2 & a2 & _ & _ & _ & _ & ->).
    unfold finalResponse.
    destruct (p_executeBy p) as [date|] eqn:Hdate; cbn [option_map];
      [|cbn [r_status response]; split; [split; discriminate | reflexivity]].
    assert (Hvalid : isValidDate date = true).
    { pose proof (firstFailureIndex_none _ _ _ Ek dateFormat DT01) as H.
      unfold dateFormat in H. rewrite Hdate in H. apply H. cbn. tauto. }
    pose proof (compareDateWithToday_eq now date ltac:(lia) Hvalid) as C1.
    pose proof (compareDateWithToday_eq now' date ltac:(lia) Hvalid) as C2.
    destruct (dateNumbers date) as [[y m] d0]. rewrite C1, C2.
    assert (Hms : (0 < msPerDay)%Z) by reflexivity.
    destruct (Z.leb_spec (midnight y m d0 + msPerDay) now),
      (Z.leb_spec (midnight y m d0 + msPerDay) now'),
      (Z.leb_spec (midnight y m d0) now),
      (Z.leb_spec (midnight y m d0) now'); try lia;
      cbn [r_status response];
      (split; [split; discriminate | try reflexivity; try discriminate]).
Qed.

Lemma executed_stays_executed_witness :
  let data :=
    mkServiceData sampleAccounts
      (js "DEBIT 30 USD FROM ACCOUNT a FOR CREDIT TO ACCOUNT b ON 2026-11-01") in
  let r := parsePaymentInstructionAt sampleMessages (midnight 2026 11 1) data in
  let r' := parsePaymentInstructionAt sampleMessages (midnight 2027 1 1) data in
  (r_status r = failed <-> r_status r' = failed)
  /\ (r_status r = successful -> r_status r' = successful).
Proof.
  exact (executed_stays_executed sampleMessages (midnight 2026 11 1)
           (midnight 2027 1 1)
           (mkServiceData sampleAccounts
              (js "DEBIT 30 USD FROM ACCOUNT a FOR CREDIT TO ACCOUNT b ON 2026-11-01"))
           ltac:(vm_compute; split; discriminate)
           ltac:(vm_compute; discriminate)).
Defined.

(** ** Validators and scanner together *)

Lemma lower_upper_char (c : ascii) : lower_char (upper_char c) = lower_char c.
Proof. destruct c as [[] [] [] [] [] [] [] []]; reflexivity. Qed.

Lemma toLowerCase_toUpperCase (s : str) :
  toLowerCase (toUpperCase s) = toLowerCase s.
Proof.
  unfold toLowerCase, toUpperCase. rewrite map_map.
  apply map_ext. exact lower_upper_char.
Qed.

Lemma token_upper (s : str) : token (toUpperCase s) = token s.
Proof.
  rewrite <- (token_lower (toUpperCase s)), toLowerCase_toUpperCase.
  apply token_lower.
Qed.

Lemma mentions_upper (s kw : str) :
  mentions (toUpperCase s) kw = mentions s kw.
Proof. unfold mentions. rewrite toLowerCase_toUpperCase. reflexivity. Qed.

(** A supported currency, in any casing, is one word that holds neither
    [FROM] nor [TO]. *)
Lemma supported_currency_word (c : str) (t : InstructionType) :
  includes SUPPORTED_CURRENCIES (toUpperCase c) = true ->
  token c = true /\ mentions c (keywordAt t 1) = false.
Proof.
  intros H. apply includes_In in H.
  rewrite <- token_upper, <- mentions_upper.
  cbn in H.
  destruct H as [<-|[<-|[<-|[<-|[]]]]]; destruct t; split; reflexivity.
Qed.

Lemma find_sub_first_absent (k : ascii) (kw s : str) :
  forallb (fun c => negb (Ascii.eqb k c)) s = true ->
  find_sub (k :: kw) s = None.
Proof.
  induction s as [|c s IH]; intros H; [reflexivity|].
  cbn [forallb] in H. apply andb_true_iff in H as [Hc Hs].
  apply negb_true_iff in Hc.
  cbn [find_sub prefixb]. rewrite Hc. cbn [andb].
  rewrite (IH Hs). reflexivity.
Qed.

Lemma digit_lower (c : ascii) :
  is_digit c = true ->
  is_ws c = false /\ Ascii.eqb "f" (lower_char c) = false
  /\ Ascii.eqb "t" (lower_char c) = false.
Proof.
  destruct c as [[] [] [] [] [] [] [] []]; intros H;
    first [discriminate H | repeat split; reflexivity].
Qed.

(** An amount [isPositiveInteger] accepts is one word that holds neither
    [FROM] nor [TO]. *)
Lemma amount_word (a : str) (t : InstructionType) :
  isPositiveInteger a = true ->
  token a = true /\ mentions a (keywordAt t 1) = false.
Proof.
  rewrite isPositiveInteger_eq, !andb_true_iff. intros [[Hne Hd] _].
  rewrite forallb_forall in Hd.
  split.
  - unfold token. rewrite Hne. cbn [andb]. apply forallb_forall.
    intros c Hc. destruct (digit_lower c (Hd c Hc)) as (-> & _). reflexivity.
  - unfold mentions.
    assert (G : forall k kw, k = "f" \/ k = "t" ->
                find_sub (k :: kw) (toLowerCase a) = None).
    { intros k kw Hk. apply find_sub_first_absent. apply forallb_forall.
      intros c Hc. unfold toLowerCase in Hc.
      apply in_map_iff in Hc as (x & <- & Hx).
      destruct (digit_lower x (Hd x Hx)) as (_ & Hf & Ht).
      destruct Hk as [->| ->]; [rewrite Hf | rewrite Ht]; reflexivity. }
    destruct t.
    + change (toLowerCase (keywordAt DEBIT 1)) with ("f" :: js "rom").
      rewrite G by (left; reflexivity). reflexivity.
    + change (toLowerCase (keywordAt CREDIT 1)) with ("t" :: js "o").
      rewrite G by (right; reflexivity). reflexivity.
Qed.

Lemma id_char_not_ws (c : ascii) :
  negb (negb (char_between "a" "z" c || char_between "A" "Z" c)
        && negb (char_between "0" "9" c)
        && negb (Ascii.eqb c "-" || Ascii.eqb c "." || Ascii.eqb c "@"))
  = true ->
  negb (is_ws c) = true.
Proof.
  destruct c as [[] [] [] [] [] [] [] []]; intros H;
    first [discriminate H | reflexivity].
Qed.

(** An id [isValidAccountId] accepts is one word. *)
Lemma accountId_word (id : str) : isValidAccountId id = true -> token id = true.
Proof.
  unfold isValidAccountId, token, nonEmpty. rewrite !andb_true_iff.
  intros [Hc Hl]. split; [exact Hl|].
  rewrite forallb_forall in *. intros c Hin.
  apply id_char_not_ws. exact (Hc c Hin).
Qed.

(** A date [isValidDate] accepts is one word. *)
Lemma date_word (s : str) : isValidDate s = true -> token s = true.
Proof.
  rewrite isValidDate_eq, andb_true_iff. intros [H _]. revert H.
  destruct s as [|c0 [|c1 [|c2 [|c3 [|c4 [|c5 [|c6 [|c7 [|c8 [|c9 [|c10 t]]]]]]]]]]];
    try discriminate.
  unfold dateShape.
  change (substring [c0; c1; c2; c3; c4; c5; c6; c7; c8; c9] 0 4)
    with [c0; c1; c2; c3].
  change (substring [c0; c1; c2; c3; c4; c5; c6; c7; c8; c9] 5 7)
    with [c5; c6].
  change (substring [c0; c1; c2; c3; c4; c5; c6; c7; c8; c9] 8 10)
    with [c8; c9].
  change (charAt_is [c0; c1; c2; c3; c4; c5; c6; c7; c8; c9] 4 "-")
    with (Ascii.eqb c4 "-").
  change (charAt_is [c0; c1; c2; c3; c4; c5; c6; c7; c8; c9] 7 "-")
    with (Ascii.eqb c7 "-").
  cbn [forallb]. rewrite !andb_true_iff.
  intros [[[[[_ E4] E7] (D0 & D1 & D2 & D3 & _)] (D5 & D6 & _)]
            (D8 & D9 & _)].
  apply Ascii.eqb_eq in E4, E7. subst c4 c7.
  unfold token. change (nonEmpty _) with true. cbn [andb forallb].
  destruct (digit_lower c0 D0) as (-> & _), (digit_lower c1 D1) as (-> & _),
    (digit_lower c2 D2) as (-> & _), (digit_lower c3 D3) as (-> & _),
    (digit_lower c5 D5) as (-> & _), (digit_lower c6 D6) as (-> & _),
    (digit_lower c8 D8) as (-> & _), (digit_lower c9 D9) as (-> & _).
  reflexivity.
Qed.

(** X17. The scanner reads back what the validators accept: an amount
    [isPositiveInteger] accepts, a supported currency in any casing, two
    ids [isValidAccountId] accepts, and no date or one [isValidDate]
    accepts, laid out by the grammar with any casing of the keywords and
    any white space, scan to these very fields with the currency in
    capitals, as long as the first id does not hold [FOR] and the second
    does not hold [ON]. *)
Theorem valid_fields_scan (L : Layout) (p : ParsedInstruction) :
  layoutOk (p_type p) L = true ->
  isPositiveInteger (p_amount p) = true ->
  includes SUPPORTED_CURRENCIES (toUpperCase (p_currency p)) = true ->
  isValidAccountId (p_debitAccount p) = true ->
  isValidAccountId (p_creditAccount p) = true ->
  (forall date, p_executeBy p = Some date -> isValidDate date = true) ->
  mentions (firstAccount p) (js "FOR") = false ->
  mentions (secondAccount p) (js "ON") = false ->
  parseInstruction (render L p) = Some (expected p).
Proof.
  intros HL Ha Hc Hd Hcr Hdate Hfor Hon.
  destruct (amount_word _ (p_type p) Ha) as [Ta Ma].
  destruct (supported_currency_word _ (p_type p) Hc) as [Tc Mc].
  apply parse_render; [exact HL | |].
  - unfold wellFormed.
    rewrite Ta, Tc, (accountId_word _ Hd), (accountId_word _ Hcr).
    cbn [andb]. destruct (p_executeBy p) as [date|]; [|reflexivity].
    apply date_word, Hdate. reflexivity.
  - unfold scanSafe. rewrite Ma, Mc, Hfor, Hon. reflexivity.
Qed.

Lemma valid_fields_scan_witness :
  parseInstruction
    (render looseLayout
       (mkParsed DEBIT (js "300") (js "ngn") (js "acc-001") (js "acc-002")
          (Some (js "2026-12-31"))))
  = Some (mkParsed DEBIT (js "300") (js "NGN") (js "acc-001") (js "acc-002")
            (Some (js "2026-12-31"))).
Proof.
  refine (valid_fields_scan looseLayout
            (mkParsed DEBIT (js "300") (js "ngn") (js "acc-001")
               (js "acc-002") (Some (js "2026-12-31")))
            eq_refl eq_refl eq_refl eq_refl eq_refl _ eq_refl eq_refl).
  intros date H. injection H as <-. reflexivity.
Defined.

(** ** Words the scanner passes over *)

Lemma scanBody_scanAfter (k0 kA kB kC t : str) :
  scanBody k0 kA kB kC t
  = match findKeywordIndex t kA (length k0) with
    | None => None
    | Some i1 =>
        match filter nonEmpty
                (split " " (extractBetween t (length k0) (Some i1))) with
        | amount :: currencyToken :: _ =>
            scanAfter kB kC t i1 amount currencyToken
        | _ => None
        end
    end.
Proof. reflexivity. Qed.

Lemma skipn_at (T R : str) (i m : nat) :
  at_pos T i R -> skipn (i + m) T = skipn m R.
Proof.
  intros (P & -> & <-). rewrite skipn_app.
  replace (length P + m - length P) with m by lia.
  rewrite skipn_all2 by lia. reflexivity.
Qed.

(** Searching behind position [i] is searching in what follows it. *)
Lemma findKeywordIndex_shift (T R kw : str) (i m : nat) :
  at_pos T i R ->
  findKeywordIndex T kw (i + m)
  = option_map (Nat.add i) (findKeywordIndex R kw m).
Proof.
  intros H. unfold findKeywordIndex, indexOf.
  rewrite (skipn_at (toLowerCase T) (toLowerCase R) i m)
    by (apply at_lower; exact H).
  rewrite option_map_add. reflexivity.
Qed.

Lemma substring_shift (T R : str) (i a b : nat) :
  at_pos T i R -> substring T (i + a) (i + b) = substring R a b.
Proof.
  intros H. unfold substring.
  replace (Nat.min (i + a) (i + b)) with (i + Nat.min a b) by lia.
  replace (Nat.max (i + a) (i + b) - (i + Nat.min a b))
    with (Nat.max a b - Nat.min a b) by lia.
  rewrite (skipn_at T R i _ H). reflexivity.
Qed.

Lemma extractBetween_shift (T R : str) (i a : nat) (b : option nat) :
  at_pos T i R ->
  extractBetween T (i + a) (option_map (Nat.add i) b) = extractBetween R a b.
Proof.
  intros H. destruct b as [b|]; cbn [option_map extractBetween].
  - rewrite (substring_shift T R i a b H). reflexivity.
  - unfold substringFrom. rewrite (skipn_at T R i a H). reflexivity.
Qed.

(** The scan behind the first keyword sees only what follows it. *)
Lemma scanAfter_shift (kB kC T R a c : str) (i : nat) :
  at_pos T i R ->
  scanAfter kB kC T i a c = scanAfter kB kC R 0 a c.
Proof.
  intros H. unfold scanAfter.
  pose proof (fun kw m => findKeywordIndex_shift T R kw i m H) as F.
  pose proof (fun x b => extractBetween_shift T R i x (Some b) H) as E.
  pose proof (fun x => extractBetween_shift T R i x None H) as E'.
  cbn [option_map] in E, E'.
  rewrite <- (Nat.add_0_r i) at 1. rewrite F.
  destruct (findKeywordIndex R (js "ACCOUNT") 0) as [x2|];
    cbn [option_map]; [|reflexivity].
  rewrite <- !Nat.add_assoc, F.
  destruct (findKeywordIndex R (js "FOR") (x2 + 7)) as [x3|];
    cbn [option_map]; [|reflexivity].
  rewrite (E (x2 + 7) x3), F.
  destruct (findKeywordIndex R kB x3) as [x4|]; cbn [option_map];
    [|reflexivity].
  rewrite <- !Nat.add_assoc, F.
  destruct (findKeywordIndex R kC (x4 + length kB)) as [x5|];
    cbn [option_map]; [|reflexivity].
  rewrite F.
  destruct (findKeywordIndex R (js "ACCOUNT") x5) as [x6|];
    cbn [option_map]; [|reflexivity].
  rewrite <- !Nat.add_assoc, F.
  destruct (findKeywordIndex R (js "ON") (x6 + 7)) as [on|];
    cbn [option_map].
  - rewrite (E (x6 + 7) on).
    rewrite <- !Nat.add_assoc, (E' (on + 2)). reflexivity.
  - rewrite (E' (x6 + 7)). reflexivity.
Qed.

Lemma trimStart_app_clean (u v : str) :
  startsClean v = true -> trimStart (u ++ v) = trimStart u ++ v.
Proof.
  intros Hv. induction u as [|c u IH].
  - apply trimStart_clean. exact Hv.
  - unfold trimStart in *. cbn [app dropWhile].
    destruct (is_ws c); [exact IH | reflexivity].
Qed.

(** What [trim] leaves behind a prefix that begins and ends with
    something else than white space depends on what follows only. *)
Lemma trim_prefix (A rest : str) :
  startsClean A = true -> endsClean A = true ->
  trim (A ++ rest) = A ++ rev (trimStart (rev rest)).
Proof.
  intros Hs He. unfold trim.
  rewrite (trimStart_clean (A ++ rest)) by (apply startsClean_app; exact Hs).
  rewrite rev_app_distr, (trimStart_app_clean _ _ He).
  rewrite rev_app_distr, rev_involutive. reflexivity.
Qed.

Lemma words_leading_spaces (n : nat) (s : str) :
  filter nonEmpty (split " " (repeat " " n ++ s))
  = filter nonEmpty (split " " s).
Proof. induction n as [|n IH]; [reflexivity | exact IH]. Qed.

(** A word and the spaces behind it. *)
Lemma words_cons (a g s : str) :
  token a = true -> isGap g = true -> spacesOnly g = true ->
  filter nonEmpty (split " " (a ++ g ++ s))
  = a :: filter nonEmpty (split " " s).
Proof.
  intros Ha Hg Hs. rewrite (spacesOnly_repeat g Hs).
  destruct g as [|c g]; [discriminate Hg|]. cbn [length repeat].
  change ((" " :: repeat " " (length g)) ++ s)
    with (" " :: (repeat " " (length g) ++ s)).
  rewrite split_word by (apply token_no_space; exact Ha).
  cbn [filter]. rewrite words_leading_spaces.
  unfold token in Ha. apply andb_true_iff in Ha as [-> _]. reflexivity.
Qed.

Lemma extraWordsOk_cons (kw g w : str) (es : list (str * str)) :
  extraWordsOk kw ((g, w) :: es) = true ->
  isGap g = true /\ spacesOnly g = true /\ token w = true
  /\ find_sub (toLowerCase kw) (toLowerCase w) = None
  /\ extraWordsOk kw es = true.
Proof.
  unfold extraWordsOk. cbn [forallb fst snd]. rewrite !andb_true_iff.
  intros [[[[H1 H2] H3] H4] H5].
  repeat split; try assumption. apply mentions_false. exact H4.
Qed.

(** The words of a word followed by extra words begin with that word. *)
Lemma words_extra (kw c : str) (es : list (str * str)) :
  token c = true -> extraWordsOk kw es = true ->
  exists more,
    filter nonEmpty (split " " (c ++ extraWords es)) = c :: more.
Proof.
  intros Hc Hes. destruct es as [|[g w] es].
  - exists []. cbn [extraWords flat_map]. rewrite app_nil_r.
    rewrite split_last by (apply token_no_space; exact Hc).
    cbn [filter]. unfold token in Hc.
    apply andb_true_iff in Hc as [-> _]. reflexivity.
  - destruct (extraWordsOk_cons _ _ _ _ Hes) as (G & S & _).
    cbn [extraWords flat_map fst snd]. rewrite <- app_assoc.
    rewrite words_cons by assumption. eexists. reflexivity.
Qed.

Lemma extraWords_endsClean (kw t : str) (es : list (str * str)) :
  endsClean t = true -> extraWordsOk kw es = true ->
  endsClean (t ++ extraWords es) = true.
Proof.
  revert t. induction es as [|[g w] es IH]; intros t Ht Hes.
  - cbn [extraWords flat_map]. rewrite app_nil_r. exact Ht.
  - destruct (extraWordsOk_cons _ _ _ _ Hes) as (_ & _ & Tw & _ & Hes').
    cbn [extraWords flat_map fst snd].
    fold (extraWords es).
    replace (t ++ (g ++ w) ++ extraWords es)
      with ((t ++ g ++ w) ++ extraWords es)
      by (rewrite <- !app_assoc; reflexivity).
    apply IH; [|exact Hes'].
    rewrite app_assoc. apply endsClean_app, token_ends, Tw.
Qed.

(** The keyword is first found behind the extra words. *)
Lemma find_past_extra (kw t g2 more : str) (es : list (str * str)) :
  token (toLowerCase kw) = true ->
  find_sub (toLowerCase kw) (toLowerCase t) = None ->
  extraWordsOk kw es = true -> isGap g2 = true ->
  find_sub (toLowerCase kw)
    (toLowerCase (t ++ extraWords es ++ g2) ++ toLowerCase kw ++ more)
  = Some (length (t ++ extraWords es ++ g2)).
Proof.
  intros Hkw. revert t. induction es as [|[g w] es IH]; intros t Ht Hes G2.
  - cbn [extraWords flat_map app].
    rewrite toLowerCase_app, (toLowerCase_gap g2 G2), <- app_assoc.
    rewrite find_sub_block by assumption.
    rewrite find_sub_hit. cbn [option_map].
    rewrite length_app, toLowerCase_length. f_equal. lia.
  - destruct (extraWordsOk_cons _ _ _ _ Hes) as (G & _ & _ & Fw & Hes').
    cbn [extraWords flat_map fst snd]. fold (extraWords es).
    rewrite <- !app_assoc.
    rewrite (toLowerCase_app t), (toLowerCase_app g), (toLowerCase_gap g G).
    rewrite <- !app_assoc.
    rewrite find_sub_block by assumption.
    rewrite (IH w Fw Hes' G2). cbn [option_map].
    rewrite !length_app, toLowerCase_length. f_equal. lia.
Qed.

(** The head of an instruction: leading keyword, amount, currency, extra
    words, then the keyword that ends them.  The scan goes on behind that
    keyword with the amount and the currency, the extra words dropped. *)
Lemma scanBody_head (t : InstructionType) (kB kC : str)
  (K0 KA g0 amt g1 cur g2 rest : str) (es : list (str * str)) :
  toLowerCase K0 = toLowerCase (keywordAt t 0) ->
  toLowerCase KA = toLowerCase (keywordAt t 1) ->
  isGap g0 = true -> isGap g1 = true -> spacesOnly g1 = true ->
  isGap g2 = true ->
  token amt = true -> token cur = true ->
  mentions amt (keywordAt t 1) = false ->
  mentions cur (keywordAt t 1) = false ->
  extraWordsOk (keywordAt t 1) es = true ->
  scanBody (keywordAt t 0) (keywordAt t 1) kB kC
    (K0 ++ g0 ++ amt ++ g1 ++ cur ++ extraWords es ++ g2 ++ KA ++ rest)
  = scanAfter kB kC (KA ++ rest) 0 amt cur.
Proof.
  intros E0 EA G0 G1 S1 G2 Ta Tc Ma Mc Hes.
  assert (TA : token (toLowerCase (keywordAt t 1)) = true)
    by (destruct t; reflexivity).
  assert (Fa : find_sub (toLowerCase (keywordAt t 1)) (toLowerCase amt) = None)
    by (apply mentions_false; rewrite Ma; reflexivity).
  assert (Fc : find_sub (toLowerCase (keywordAt t 1)) (toLowerCase cur) = None)
    by (apply mentions_false; rewrite Mc; reflexivity).
  set (m := amt ++ g1 ++ cur ++ extraWords es).
  set (F := g0 ++ m ++ g2).
  set (T := K0 ++ g0 ++ amt ++ g1 ++ cur ++ extraWords es ++ g2 ++ KA ++ rest).
  assert (ET : T = K0 ++ F ++ KA ++ rest)
    by (subst T F m; rewrite <- !app_assoc; reflexivity).
  assert (Hat : at_pos T (length (keywordAt t 0)) (F ++ KA ++ rest)).
  { exists K0. split; [exact ET|]. apply same_lower_length. exact E0. }
  assert (Hfind : find_sub (toLowerCase (keywordAt t 1))
                    (toLowerCase F ++ toLowerCase (keywordAt t 1)
                     ++ toLowerCase rest)
                  = Some (length F)).
  { subst F m.
    replace (g0 ++ (amt ++ g1 ++ cur ++ extraWords es) ++ g2)
      with (g0 ++ amt ++ g1 ++ (cur ++ extraWords es ++ g2))
      by (rewrite <- !app_assoc; reflexivity).
    rewrite (toLowerCase_app g0), (toLowerCase_app amt),
      (toLowerCase_app g1), (toLowerCase_gap g0 G0), (toLowerCase_gap g1 G1).
    rewrite <- !app_assoc.
    rewrite find_sub_gap by assumption.
    rewrite find_sub_block by assumption.
    rewrite (find_past_extra _ cur g2 _ es TA Fc Hes G2).
    cbn [option_map]. rewrite !length_app, toLowerCase_length.
    f_equal. lia. }
  destruct (stage_gen T F KA rest (keywordAt t 1) _ Hat EA Hfind)
    as (Hi & Hat' & Hsub).
  rewrite scanBody_scanAfter, Hi, extractBetween_some, Hsub.
  assert (Hm : trim F = m).
  { subst F. apply trim_ctx; try (apply isGap_ws; assumption).
    - subst m. apply startsClean_app, token_starts, Ta.
    - subst m. rewrite (app_assoc amt). apply endsClean_app.
      apply (extraWords_endsClean (keywordAt t 1));
        [apply token_ends; exact Tc | exact Hes]. }
  rewrite Hm. subst m.
  rewrite words_cons by assumption.
  destruct (words_extra (keywordAt t 1) cur es Tc Hes) as [more ->].
  apply scanAfter_shift. exact Hat'.
Qed.

(** X18. Words written after the currency are passed over: an instruction
    with extra words between the currency and the keyword that follows
    ([FROM] after [DEBIT], [TO] after [CREDIT]) scans exactly as the
    instruction without them, whatever comes after that keyword. *)
Theorem extra_words_ignored (t : InstructionType)
  (K0 KA g0 amt g1 cur g2 rest : str) (extras : list (str * str)) :
  toLowerCase K0 = toLowerCase (keywordAt t 0) ->
  toLowerCase KA = toLowerCase (keywordAt t 1) ->
  isGap g0 = true -> isGap g1 = true -> spacesOnly g1 = true ->
  isGap g2 = true ->
  token amt = true -> token cur = true ->
  mentions amt (keywordAt t 1) = false ->
  mentions cur (keywordAt t 1) = false ->
  extraWordsOk (keywordAt t 1) extras = true ->
  parseInstruction
    (K0 ++ g0 ++ amt ++ g1 ++ cur ++ extraWords extras ++ g2 ++ KA ++ rest)
  = parseInstruction (K0 ++ g0 ++ amt ++ g1 ++ cur ++ g2 ++ KA ++ rest).
Proof.
  intros E0 EA G0 G1 S1 G2 Ta Tc Ma Mc Hes.
  assert (T0 : token (toLowerCase (keywordAt t 0)) = true)
    by (destruct t; reflexivity).
  assert (TA : token (toLowerCase (keywordAt t 1)) = true)
    by (destruct t; reflexivity).
  destruct (keyword_clean K0 _ E0 T0) as [Hs0 _].
  destruct (keyword_clean KA _ EA TA) as [_ HeA].
  assert (Htrim : forall es,
             trim (K0 ++ g0 ++ amt ++ g1 ++ cur ++ extraWords es ++ g2
                   ++ KA ++ rest)
             = K0 ++ g0 ++ amt ++ g1 ++ cur ++ extraWords es ++ g2
               ++ KA ++ rev (trimStart (rev rest))).
  { intros es.
    replace (K0 ++ g0 ++ amt ++ g1 ++ cur ++ extraWords es ++ g2
             ++ KA ++ rest)
      with ((K0 ++ g0 ++ amt ++ g1 ++ cur ++ extraWords es ++ g2 ++ KA)
            ++ rest)
      by (rewrite <- !app_assoc; reflexivity).
    rewrite trim_prefix.
    - rewrite <- !app_assoc. reflexivity.
    - apply startsClean_app. exact Hs0.
    - rewrite !app_assoc. apply endsClean_app. exact HeA. }
  assert (Hscan : forall es, extraWordsOk (keywordAt t 1) es = true ->
             parseInstruction
               (K0 ++ g0 ++ amt ++ g1 ++ cur ++ extraWords es ++ g2
                ++ KA ++ rest)
             = option_map (match t with DEBIT => asDebit | CREDIT => asCredit end)
                 (scanAfter (keywordAt t 4) (keywordAt t 5)
                    (KA ++ rev (trimStart (rev rest))) 0 amt cur)).
  { intros es Hok. rewrite parseInstruction_scan. cbv zeta.
    rewrite Htrim.
    set (T := K0 ++ g0 ++ amt ++ g1 ++ cur ++ extraWords es ++ g2
              ++ KA ++ rev (trimStart (rev rest))).
    assert (Hst : starts_at_zero (findKeywordIndex T (keywordAt t 0) 0)
                  = true)
      by (apply starts_with_keyword; exact E0).
    pose proof (fun kB kC =>
                  scanBody_head t kB kC K0 KA g0 amt g1 cur g2
                    (rev (trimStart (rev rest))) es
                    E0 EA G0 G1 S1 G2 Ta Tc Ma Mc Hok) as Hhead.
    fold T in Hhead.
    destruct t.
    - change (js "DEBIT") with (keywordAt DEBIT 0).
      change (js "FROM") with (keywordAt DEBIT 1).
      rewrite Hst, Hhead. reflexivity.
    - assert (Hno : starts_at_zero (findKeywordIndex T (js "DEBIT") 0)
                    = false)
        by (apply starts_with_other; rewrite E0; reflexivity).
      rewrite Hno.
      change (js "CREDIT") with (keywordAt CREDIT 0).
      change (js "TO") with (keywordAt CREDIT 1).
      rewrite Hst, Hhead. reflexivity. }
  rewrite (Hscan extras Hes).
  rewrite <- (Hscan [] eq_refl). reflexivity.
Qed.

Lemma extra_words_ignored_witness :
  parseInstruction
    (js "DEBIT" ++ js " " ++ js "30" ++ js " " ++ js "USD"
     ++ extraWords [(js " ", js "right"); (js "  ", js "now")]
     ++ js " " ++ js "FROM" ++ js " ACCOUNT a FOR CREDIT TO ACCOUNT b")
  = parseInstruction
      (js "DEBIT" ++ js " " ++ js "30" ++ js " " ++ js "USD"
       ++ js " " ++ js "FROM" ++ js " ACCOUNT a FOR CREDIT TO ACCOUNT b").
Proof.
  exact (extra_words_ignored DEBIT (js "DEBIT") (js "FROM") (js " ")
           (js "30") (js " ") (js "USD") (js " ")
           (js " ACCOUNT a FOR CREDIT TO ACCOUNT b")
           [(js " ", js "right"); (js "  ", js "now")]
           eq_refl eq_refl eq_refl eq_refl eq_refl eq_refl eq_refl eq_refl
           eq_refl eq_refl eq_refl).
Defined.
